(** * Live quiz backend (app.py): a shallow embedding and its properties

    The module [app.py] is a Flask-SocketIO server in front of a Postgres
    store.  Every SQL statement of the source is embedded as a function on
    the three tables; every socket handler is a function from the server
    state to the new state and the list of events it emits.

    Conventions.
    - A store timestamp (TIMESTAMPTZ, and Python's [datetime]) is the number
      of microseconds since the epoch, a [Z].  [now] is the store clock read
      by [now()], [utc] the process clock read by [utc_now()].
    - [time.time()] is a number of seconds, a [Q]; the difference of two
      readings that the limiter compares with its window is exact in
      binary64, so the rational is what the source computes.
    - Python floats are binary64: [float] is Rocq's primitive type, and a
      quotient of integers is rounded once, as Python's [/] does.
    - A handler runs to completion before the next one starts. *)

From Stdlib Require Import ZArith QArith Qround Lqa Floats Sorted.
From stdpp Require Import base option list gmap strings.

Open Scope Z_scope.

(** ** Python numerics *)

Module Py.

Definition Z2SF (z : Z) : spec_float :=
  match z with
  | Z0 => S754_zero false
  | Zpos p => S754_finite false p 0
  | Zneg p => S754_finite true p 0
  end.

(** [float(z)]: the nearest binary64, ties to even. *)
Definition float_of_int (z : Z) : float :=
  SF2Prim (binary_normalize prec emax z 0 false).

(** [a / b] on Python integers: the exact quotient rounded once. *)
Definition true_div (a b : Z) : float :=
  SF2Prim (SFdiv prec emax (Z2SF a) (Z2SF b)).

(** [int(f)]: truncation toward zero.  [int] raises on an infinity or a
    NaN; neither is the product of a quotient of two stored timestamps
    with 500, and this function gives 0 there. *)
Definition int_of_float (f : float) : Z :=
  match Prim2SF f with
  | S754_finite s m e =>
      let a := if 0 <=? e then Z.pos m * 2 ^ e else Z.pos m / 2 ^ (- e) in
      if s then - a else a
  | _ => 0
  end.

(** [timedelta.total_seconds()] of a difference of [us] microseconds. *)
Definition total_seconds (us : Z) : float := true_div us (10 ^ 6).

(** [datetime.timestamp()] of an aware datetime: [(self - EPOCH).total_seconds()]. *)
Definition timestamp (t : Z) : float := total_seconds t.

(** [x < y] on rationals, as a boolean. *)
Definition Qltb (x y : Q) : bool := negb (Qle_bool y x).

Definition is_space (c : Ascii.ascii) : bool :=
  let n := Ascii.nat_of_ascii c in
  ((9 <=? n) && (n <=? 13) || (28 <=? n) && (n <=? 32)
   || (n =? 133) || (n =? 160))%nat.

Fixpoint lstrip (s : string) : string :=
  match s with
  | String c s' => if is_space c then lstrip s' else s
  | EmptyString => EmptyString
  end.

Fixpoint rstrip (s : string) : string :=
  match s with
  | String c s' =>
      match rstrip s' with
      | EmptyString => if is_space c then EmptyString else String c EmptyString
      | r => String c r
      end
  | EmptyString => EmptyString
  end.

(** [str.strip()], a character being a code point below 256 here. *)
Definition strip (s : string) : string := rstrip (lstrip s).

(** [a or ""] on an optional string. *)
Definition or_empty (o : option string) : string := default EmptyString o.

(** [not v] on an optional string: [None] and the empty string are falsy. *)
Definition falsy (o : option string) : bool :=
  match o with
  | None => true
  | Some s => bool_decide (s = EmptyString)
  end.

End Py.

(** ** Configuration *)

Definition ROOM_TTL_SECONDS : Z := 10 * 60.
Definition MAX_PLAYERS_PER_ROOM : Z := 50.
Definition JOIN_RATE_LIMIT : Z := 5.
Definition JOIN_RATE_WINDOW : Z := 10.
Definition ANSWER_RATE_LIMIT : Z := 3.
Definition ANSWER_RATE_WINDOW : Z := 3.
Definition CREATE_ROOM_LIMIT : Z := 3.
Definition CREATE_ROOM_WINDOW : Z := 60.

(** [interval '<n> seconds'] in microseconds. *)
Definition seconds (n : Z) : Z := n * 10 ^ 6.

(** ** Questions *)

Record Question := {
  q_text : string;
  q_options : list string;
  q_correct_index : Z;
  q_duration : Z;
}.

Definition QUESTIONS : list Question :=
  [ {| q_text := "Скільки буде 2 + 2 ?";
       q_options := ["3"; "4"; "5"; "6"];
       q_correct_index := 1;
       q_duration := 15 |};
    {| q_text := "Столиця України?";
       q_options := ["Львів"; "Харків"; "Київ"; "Одеса"];
       q_correct_index := 2;
       q_duration := 15 |} ].

(** [QUESTIONS[i]] under the guard [0 <= i < len(QUESTIONS)]. *)
Definition question_at (i : Z) : option Question :=
  if (0 <=? i) && (i <? Z.of_nat (length QUESTIONS))
  then QUESTIONS !! Z.to_nat i else None.

(** ** The store: tables [rooms], [players], [answers] *)

(** The column [state] holds one of four literals; [.upper()] is the identity
    on each of them. *)
Inductive RoomState := LOBBY | QUESTION | RESULTS | FINISHED.

#[global] Instance RoomState_eq_dec : EqDecision RoomState.
Proof. solve_decision. Defined.

Record Room := {
  r_id : Z;
  r_pin : string;
  r_host_token : string;
  r_state : RoomState;
  r_current_question_index : Z;
  r_question_started_at : option Z;
  r_question_ends_at : option Z;
  r_host_connected : bool;
  r_host_disconnected_at : option Z;
  r_created_at : Z;
  r_last_activity_at : Z;
  r_closed_at : option Z;
}.

Record Player := {
  p_id : Z;
  p_room_id : Z;
  p_player_token : string;
  p_name : string;
  p_score : Z;
  p_connected : bool;
  p_created_at : Z;
  p_last_seen_at : Z;
}.

Record Answer := {
  a_id : Z;
  a_room_id : Z;
  a_player_token : string;
  a_question_index : Z;
  a_option_index : Z;
  a_answered_at : Z;
}.

(** Rows in insertion order; the three [BIGSERIAL] sequences hold the last
    value they have given. *)
Record DB := {
  rooms : list Room;
  players : list Player;
  answers : list Answer;
  rooms_seq : Z;
  players_seq : Z;
  answers_seq : Z;
}.

Definition empty_db : DB :=
  {| rooms := []; players := []; answers := [];
     rooms_seq := 0; players_seq := 0; answers_seq := 0 |}.

Definition with_rooms (rs : list Room) (d : DB) : DB :=
  {| rooms := rs; players := players d; answers := answers d;
     rooms_seq := rooms_seq d; players_seq := players_seq d;
     answers_seq := answers_seq d |}.

Definition with_players (ps : list Player) (d : DB) : DB :=
  {| rooms := rooms d; players := ps; answers := answers d;
     rooms_seq := rooms_seq d; players_seq := players_seq d;
     answers_seq := answers_seq d |}.

(** *** Assignments of the [UPDATE rooms] statements *)

Definition set_last_activity (now : Z) (r : Room) : Room :=
  {| r_id := r_id r; r_pin := r_pin r; r_host_token := r_host_token r;
     r_state := r_state r;
     r_current_question_index := r_current_question_index r;
     r_question_started_at := r_question_started_at r;
     r_question_ends_at := r_question_ends_at r;
     r_host_connected := r_host_connected r;
     r_host_disconnected_at := r_host_disconnected_at r;
     r_created_at := r_created_at r;
     r_last_activity_at := now;
     r_closed_at := r_closed_at r |}.

(** [SET closed_at=now(), state='FINISHED', last_activity_at=now()] *)
Definition set_closed (now : Z) (r : Room) : Room :=
  {| r_id := r_id r; r_pin := r_pin r; r_host_token := r_host_token r;
     r_state := FINISHED;
     r_current_question_index := r_current_question_index r;
     r_question_started_at := r_question_started_at r;
     r_question_ends_at := r_question_ends_at r;
     r_host_connected := r_host_connected r;
     r_host_disconnected_at := r_host_disconnected_at r;
     r_created_at := r_created_at r;
     r_last_activity_at := now;
     r_closed_at := Some now |}.

(** [SET host_connected=false, host_disconnected_at=now(), last_activity_at=now()] *)
Definition set_host_offline (now : Z) (r : Room) : Room :=
  {| r_id := r_id r; r_pin := r_pin r; r_host_token := r_host_token r;
     r_state := r_state r;
     r_current_question_index := r_current_question_index r;
     r_question_started_at := r_question_started_at r;
     r_question_ends_at := r_question_ends_at r;
     r_host_connected := false;
     r_host_disconnected_at := Some now;
     r_created_at := r_created_at r;
     r_last_activity_at := now;
     r_closed_at := r_closed_at r |}.

(** [SET host_connected=true, host_disconnected_at=NULL, last_activity_at=now()] *)
Definition set_host_online (now : Z) (r : Room) : Room :=
  {| r_id := r_id r; r_pin := r_pin r; r_host_token := r_host_token r;
     r_state := r_state r;
     r_current_question_index := r_current_question_index r;
     r_question_started_at := r_question_started_at r;
     r_question_ends_at := r_question_ends_at r;
     r_host_connected := true;
     r_host_disconnected_at := None;
     r_created_at := r_created_at r;
     r_last_activity_at := now;
     r_closed_at := r_closed_at r |}.

(** [SET current_question_index=%s, last_activity_at=now()] *)
Definition set_question_index (i now : Z) (r : Room) : Room :=
  {| r_id := r_id r; r_pin := r_pin r; r_host_token := r_host_token r;
     r_state := r_state r;
     r_current_question_index := i;
     r_question_started_at := r_question_started_at r;
     r_question_ends_at := r_question_ends_at r;
     r_host_connected := r_host_connected r;
     r_host_disconnected_at := r_host_disconnected_at r;
     r_created_at := r_created_at r;
     r_last_activity_at := now;
     r_closed_at := r_closed_at r |}.

(** [SET state='QUESTION', question_started_at=now(),
        question_ends_at=now() + (%s || ' seconds')::interval,
        last_activity_at=now()] *)
Definition set_question (duration now : Z) (r : Room) : Room :=
  {| r_id := r_id r; r_pin := r_pin r; r_host_token := r_host_token r;
     r_state := QUESTION;
     r_current_question_index := r_current_question_index r;
     r_question_started_at := Some now;
     r_question_ends_at := Some (now + seconds duration);
     r_host_connected := r_host_connected r;
     r_host_disconnected_at := r_host_disconnected_at r;
     r_created_at := r_created_at r;
     r_last_activity_at := now;
     r_closed_at := r_closed_at r |}.

(** [SET state='RESULTS', last_activity_at=now()] *)
Definition set_results (now : Z) (r : Room) : Room :=
  {| r_id := r_id r; r_pin := r_pin r; r_host_token := r_host_token r;
     r_state := RESULTS;
     r_current_question_index := r_current_question_index r;
     r_question_started_at := r_question_started_at r;
     r_question_ends_at := r_question_ends_at r;
     r_host_connected := r_host_connected r;
     r_host_disconnected_at := r_host_disconnected_at r;
     r_created_at := r_created_at r;
     r_last_activity_at := now;
     r_closed_at := r_closed_at r |}.

(** *** Assignments of the [UPDATE players] statements *)

(** [SET connected=<b>, last_seen_at=now()] *)
Definition set_connected (b : bool) (now : Z) (p : Player) : Player :=
  {| p_id := p_id p; p_room_id := p_room_id p;
     p_player_token := p_player_token p; p_name := p_name p;
     p_score := p_score p; p_connected := b;
     p_created_at := p_created_at p; p_last_seen_at := now |}.

(** [SET score = score + %s, last_seen_at=now()] *)
Definition add_score (points now : Z) (p : Player) : Player :=
  {| p_id := p_id p; p_room_id := p_room_id p;
     p_player_token := p_player_token p; p_name := p_name p;
     p_score := p_score p + points; p_connected := p_connected p;
     p_created_at := p_created_at p; p_last_seen_at := now |}.

(** *** Statements *)

(** [UPDATE t SET ... WHERE ...]: every row the condition selects. *)
Definition sql_update {A} (cond : A → bool) (set : A → A) (rows : list A)
  : list A :=
  map (λ r, if cond r then set r else r) rows.

Definition update_room (id : Z) (set : Room → Room) (d : DB) : DB :=
  with_rooms (sql_update (λ r, bool_decide (r_id r = id)) set (rooms d)) d.

Definition is_open (r : Room) : bool := bool_decide (r_closed_at r = None).

(** [SELECT * FROM rooms WHERE pin=%s AND closed_at IS NULL], first row. *)
Definition get_room_by_pin (pin : string) (d : DB) : option Room :=
  List.find (λ r, bool_decide (r_pin r = pin) && is_open r) (rooms d).

(** [UPDATE rooms SET last_activity_at=now() WHERE id=%s] *)
Definition touch_room_activity (room_id now : Z) (d : DB) : DB :=
  update_room room_id (set_last_activity now) d.

Definition require_room_state (room : Room) (allowed_states : list RoomState)
  : bool :=
  bool_decide (r_state room ∈ allowed_states).

(** [SELECT name, score, connected FROM players WHERE room_id=%s
     ORDER BY score DESC, created_at ASC] *)
Record LeaderRow := {
  lb_name : string;
  lb_score : Z;
  lb_connected : bool;
}.

Definition ranks_before (p q : Player) : bool :=
  (p_score q <? p_score p)
  || ((p_score p =? p_score q) && (p_created_at p <=? p_created_at q)).

Fixpoint insert_ranked (p : Player) (l : list Player) : list Player :=
  match l with
  | [] => [p]
  | q :: l' => if ranks_before p q then p :: l else q :: insert_ranked p l'
  end.

Definition leaderboard_for_room_id (room_id : Z) (d : DB) : list LeaderRow :=
  map (λ p, {| lb_name := p_name p; lb_score := p_score p;
               lb_connected := p_connected p |})
      (foldr insert_ranked []
         (List.filter (λ p, bool_decide (p_room_id p = room_id)) (players d))).

(** [INSERT INTO rooms(pin, host_token, state, current_question_index,
     host_connected, host_disconnected_at) VALUES (%s, %s, 'LOBBY', -1, true, NULL)].
    The table declares [pin VARCHAR(6) UNIQUE NOT NULL]: the statement fails
    when any row, open or closed, holds the pin.  The sequence has moved by
    then.  The boolean tells whether the row went in. *)
Definition insert_room (pin host_token : string) (now : Z) (d : DB)
  : DB * bool :=
  let id := rooms_seq d + 1 in
  let d1 :=
    {| rooms := rooms d; players := players d; answers := answers d;
       rooms_seq := id; players_seq := players_seq d;
       answers_seq := answers_seq d |} in
  if existsb (λ r, bool_decide (r_pin r = pin)) (rooms d) then (d1, false)
  else
    (with_rooms
       (rooms d ++
        [ {| r_id := id; r_pin := pin; r_host_token := host_token;
             r_state := LOBBY; r_current_question_index := -1;
             r_question_started_at := None; r_question_ends_at := None;
             r_host_connected := true; r_host_disconnected_at := None;
             r_created_at := now; r_last_activity_at := now;
             r_closed_at := None |} ]) d1, true).

(** [INSERT INTO players(room_id, player_token, name, score, connected)
     VALUES (%s, %s, %s, 0, true)] under [UNIQUE(room_id, player_token)]. *)
Definition insert_player (room_id : Z) (player_token name : string) (now : Z)
    (d : DB) : DB * bool :=
  let id := players_seq d + 1 in
  let d1 :=
    {| rooms := rooms d; players := players d; answers := answers d;
       rooms_seq := rooms_seq d; players_seq := id;
       answers_seq := answers_seq d |} in
  if existsb (λ p, bool_decide (p_room_id p = room_id)
                   && bool_decide (p_player_token p = player_token))
       (players d)
  then (d1, false)
  else
    (with_players
       (players d ++
        [ {| p_id := id; p_room_id := room_id;
             p_player_token := player_token; p_name := name; p_score := 0;
             p_connected := true; p_created_at := now;
             p_last_seen_at := now |} ]) d1, true).

(** [INSERT INTO answers(room_id, player_token, question_index, option_index)
     VALUES (%s, %s, %s, %s)
     ON CONFLICT (room_id, player_token, question_index) DO NOTHING] *)
Definition insert_answer (room_id : Z) (player_token : string)
    (question_index option_index now : Z) (d : DB) : DB :=
  let id := answers_seq d + 1 in
  let fresh :=
    negb (existsb (λ a, bool_decide (a_room_id a = room_id)
                        && bool_decide (a_player_token a = player_token)
                        && bool_decide (a_question_index a = question_index))
            (answers d)) in
  {| rooms := rooms d; players := players d;
     answers :=
       if fresh
       then answers d ++
            [ {| a_id := id; a_room_id := room_id;
                 a_player_token := player_token;
                 a_question_index := question_index;
                 a_option_index := option_index;
                 a_answered_at := now |} ]
       else answers d;
     rooms_seq := rooms_seq d; players_seq := players_seq d;
     answers_seq := id |}.

(** [UPDATE rooms SET state='RESULTS', last_activity_at=now()
     WHERE id=%s AND state='QUESTION' RETURNING ...], then [fetchone()]:
    the first row the statement changed, if it changed one. *)
Definition finalize_cond (room_id : Z) (r : Room) : bool :=
  bool_decide (r_id r = room_id) && bool_decide (r_state r = QUESTION).

Definition finalize_lock (room_id now : Z) (d : DB) : option Room * DB :=
  (set_results now <$> List.find (finalize_cond room_id) (rooms d),
   with_rooms (sql_update (finalize_cond room_id) (set_results now) (rooms d)) d).

(** [SELECT player_token, option_index, answered_at FROM answers
     WHERE room_id=%s AND question_index=%s] *)
Definition answers_for (room_id q_index : Z) (d : DB) : list Answer :=
  List.filter (λ a, bool_decide (a_room_id a = room_id)
                    && bool_decide (a_question_index a = q_index))
    (answers d).

(** [UPDATE players SET score = score + %s, last_seen_at=now()
     WHERE room_id=%s AND player_token=%s] *)
Definition award (points room_id : Z) (player_token : string) (now : Z)
    (d : DB) : DB :=
  with_players
    (sql_update (λ p, bool_decide (p_room_id p = room_id)
                      && bool_decide (p_player_token p = player_token))
       (add_score points now) (players d)) d.

(** ** The process state *)

Inductive Role := RoleHost | RolePlayer.

#[global] Instance Role_eq_dec : EqDecision Role.
Proof. solve_decision. Defined.

(** A value of [socket_index]: [{"pin": ..., "role": ..., "token": ...}]. *)
Record Meta := {
  m_pin : string;
  m_role : Role;
  m_token : string;
}.

(** [groups] holds the pairs (sid, pin) that [join_room(pin)] has entered
    into the transport's broadcast groups. *)
Record State := {
  db : DB;
  socket_index : gmap string Meta;
  rate_limits : gmap string (list Q);
  groups : gset (string * string);
}.

Definition init : State :=
  {| db := empty_db; socket_index := ∅; rate_limits := ∅; groups := ∅ |}.

Definition with_db (d : DB) (s : State) : State :=
  {| db := d; socket_index := socket_index s;
     rate_limits := rate_limits s; groups := groups s |}.

Definition with_rate_limits (rl : gmap string (list Q)) (s : State) : State :=
  {| db := db s; socket_index := socket_index s;
     rate_limits := rl; groups := groups s |}.

(** [join_room(pin)] followed by [socket_index[request.sid] = meta]. *)
Definition register (sid : string) (meta : Meta) (s : State) : State :=
  {| db := db s; socket_index := <[sid := meta]> (socket_index s);
     rate_limits := rate_limits s;
     groups := {[ (sid, m_pin meta) ]} ∪ groups s |}.

(** [socket_index.pop(sid, None)] *)
Definition unregister (sid : string) (s : State) : State :=
  {| db := db s; socket_index := delete sid (socket_index s);
     rate_limits := rate_limits s; groups := groups s |}.

(** ** Events *)

Inductive Target :=
| ToSid (sid : string)      (* [emit(...)]: the calling connection *)
| ToRoom (pin : string).    (* [socketio.emit(..., room=pin)] *)

Record QuestionView := {
  qv_text : string;
  qv_options : list string;
  qv_ends_at : float;
}.

Record ResultsView := {
  rv_correct_index : Z;
  rv_leaderboard : list LeaderRow;
}.

Inductive Event :=
| EvError (message : string)
| EvJoinError (message : string)
| EvReconnectError (message : string)
| EvRoomCreated (pin host_token : string)
| EvJoined (player_token : string)
| EvPlayerJoined (name : string)
| EvReconnected (state : RoomState) (score current_question_index : Z)
    (question : option QuestionView) (results : option ResultsView)
| EvHostReconnected (state : RoomState) (current_question_index : Z)
    (players : list LeaderRow)
    (question : option QuestionView) (results : option ResultsView)
| EvQuestionStarted (index : Z) (text : string) (options : list string)
    (ends_at : float)
| EvQuestionResults (correct_index : Z) (leaderboard : list LeaderRow)
| EvGameFinished (leaderboard : list LeaderRow)
| EvRoomClosed (reason : string).

Definition Emit : Type := Target * Event.

Inductive Exn :=
| RuntimeError (message : string)
| UniqueViolation (table : string)
| TypeError.

(** What a handler leaves behind: the state, the events in the order they
    were emitted, and the exception that ended it, if one did. *)
Record Result := {
  res_state : State;
  res_out : list Emit;
  res_exn : option Exn;
}.

Definition done (s : State) (out : list Emit) : Result :=
  {| res_state := s; res_out := out; res_exn := None |}.

Definition raise (s : State) (out : list Emit) (e : Exn) : Result :=
  {| res_state := s; res_out := out; res_exn := Some e |}.

(** ** Rate limiting *)

Definition in_window (now : Q) (window : Z) (t : Q) : bool :=
  Py.Qltb (now - t) (inject_Z window).

Definition is_rate_limited (key : string) (limit window : Z) (now : Q)
    (rl : gmap string (list Q)) : bool * gmap string (list Q) :=
  let bucket := default [] (rl !! key) in
  let bucket := List.filter (in_window now window) bucket in
  if limit <=? Z.of_nat (length bucket)
  then (true, <[key := bucket]> rl)
  else (false, <[key := bucket ++ [now]]> rl).

(** ** Helpers *)

(** [generate_pin()] draws six digits; [pins k] is the k-th draw. *)
Fixpoint generate_unique_pin_from (tries : nat) (pins : nat → string)
    (k : nat) (d : DB) : option string :=
  match tries with
  | O => None
  | S n =>
      let pin := pins k in
      match get_room_by_pin pin d with
      | None => Some pin
      | Some _ => generate_unique_pin_from n pins (S k) d
      end
  end.

(** [None] stands for [raise RuntimeError("Failed to generate unique PIN")]. *)
Definition generate_unique_pin (pins : nat → string) (d : DB) : option string :=
  generate_unique_pin_from 20 pins 0 d.

Definition close_room (pin reason : string) (now : Z) (s : State) : Result :=
  match get_room_by_pin pin (db s) with
  | None => done s []
  | Some room =>
      done (with_db (update_room (r_id room) (set_closed now) (db s)) s)
           [(ToRoom pin, EvRoomClosed reason)]
  end.

(** ** Scoring *)

(** The body of the scoring loop for one correct answer:
    [time_left = (ends_at - answered_at).total_seconds()], clamped at 0;
    [bonus = int((time_left / max(1, duration)) * 500)], clamped at 0. *)
Definition bonus_for (duration ends_at answered_at : Z) : Z :=
  let time_left := Py.total_seconds (ends_at - answered_at) in
  let time_left := if PrimFloat.ltb time_left 0 then 0%float else time_left in
  let bonus :=
    Py.int_of_float
      (PrimFloat.mul
         (PrimFloat.div time_left (Py.float_of_int (Z.max 1 duration)))
         (Py.float_of_int 500)) in
  if bonus <? 0 then 0 else bonus.

Definition base_points : Z := 1000.

Definition points_for (duration ends_at answered_at : Z) : Z :=
  base_points + bonus_for duration ends_at answered_at.

(** ** Handler inputs *)

(** The payload [data] of an event.  A field is [None] when the key is
    absent or null (or [data] itself is), and otherwise the text that
    [str()] gives of its value, which is what the handlers compare and pass
    on. *)
Record HostData := { hd_pin : option string; hd_host_token : option string }.
Record PlayerData := { pd_pin : option string; pd_player_token : option string }.
Record JoinData := { jd_pin : option string; jd_name : option string }.

(** [ad_option]: [None] when the key is absent, [Some None] when [int(option)]
    raises, [Some (Some n)] when it gives [n]. *)
Record AnswerData := {
  ad_pin : option string;
  ad_option : option (option Z);
  ad_player_token : option string;
}.

(** The [question] entry of a hydration payload, as [reconnect_player] and
    [reconnect_host] both build it. *)
Definition hydrate_question (room : Room) : option QuestionView :=
  if bool_decide (r_state room = QUESTION) then
    match r_question_ends_at room with
    | Some e =>
        (λ q, {| qv_text := q_text q; qv_options := q_options q;
                 qv_ends_at := Py.timestamp e |})
          <$> question_at (r_current_question_index room)
    | None => None
    end
  else None.

(** The [results] entry of a hydration payload, likewise. *)
Definition hydrate_results (room : Room) (d : DB) : option ResultsView :=
  if bool_decide (r_state room = RESULTS) then
    (λ q, {| rv_correct_index := q_correct_index q;
             rv_leaderboard := leaderboard_for_room_id (r_id room) d |})
      <$> question_at (r_current_question_index room)
  else None.

(** Runs [f] on each element in turn; an exception ends the loop. *)
Fixpoint for_each {A} (f : A → State → Result) (l : list A) (s : State)
  : Result :=
  match l with
  | [] => done s []
  | x :: l' =>
      let r := f x s in
      match res_exn r with
      | Some _ => r
      | None =>
          let r' := for_each f l' (res_state r) in
          {| res_state := res_state r'; res_out := res_out r ++ res_out r';
             res_exn := res_exn r' |}
      end
  end.

(** [SELECT pin FROM rooms WHERE closed_at IS NULL AND state='QUESTION'
     AND question_ends_at IS NOT NULL AND question_ends_at < now()] *)
Definition rooms_due (now : Z) (d : DB) : list string :=
  map r_pin
    (List.filter
       (λ r, is_open r && bool_decide (r_state r = QUESTION)
             && match r_question_ends_at r with
                | Some e => e <? now
                | None => false
                end)
       (rooms d)).

(** [SELECT pin FROM rooms WHERE closed_at IS NULL AND host_connected=false
     AND host_disconnected_at IS NOT NULL
     AND host_disconnected_at < now() - (%s || ' seconds')::interval] *)
Definition rooms_abandoned (now : Z) (d : DB) : list string :=
  map r_pin
    (List.filter
       (λ r, is_open r && negb (r_host_connected r)
             && match r_host_disconnected_at r with
                | Some t => t <? now - seconds ROOM_TTL_SECONDS
                | None => false
                end)
       (rooms d)).

(** One pass of the loop body of [cleanup_task]. *)
Definition cleanup_task (now : Z) (s : State) : Result :=
  for_each (λ pin, close_room pin "host_timeout" now)
    (rooms_abandoned now (db s)) s.

(** ** Socket handlers *)

Section Handlers.

(** [uuid_str s] is [str(uuid.UUID(s))]: the canonical text of the UUID
    that [s] spells, [None] when the constructor raises. *)
Variable uuid_str : string → option string.

Definition on_disconnect (sid : string) (now : Z) (s : State) : Result :=
  match socket_index s !! sid with
  | None => done s []
  | Some meta =>
      let s := unregister sid s in
      let room :=
        if bool_decide (m_pin meta = "") then None
        else get_room_by_pin (m_pin meta) (db s) in
      match room with
      | None => done s []
      | Some room =>
          match m_role meta with
          | RoleHost =>
              done (with_db (update_room (r_id room) (set_host_offline now)
                               (db s)) s) []
          | RolePlayer =>
              if bool_decide (m_token meta = "") then done s []
              else
                match uuid_str (m_token meta) with
                | None => done s []
                | Some player_token =>
                    done
                      (with_db
                         (with_players
                            (sql_update
                               (λ p, bool_decide (p_room_id p = r_id room)
                                     && bool_decide
                                          (p_player_token p = player_token))
                               (set_connected false now)
                               (players (db s)))
                            (db s)) s) []
                end
          end
      end
  end.

(** [host_token] is [str(uuid.uuid4())]. *)
Definition create_room (sid : string) (t : Q) (now : Z)
    (pins : nat → string) (host_token : string) (s : State) : Result :=
  let '(limited, rl) :=
    is_rate_limited ("create:" +:+ sid) CREATE_ROOM_LIMIT CREATE_ROOM_WINDOW
      t (rate_limits s) in
  let s := with_rate_limits rl s in
  if limited
  then done s [(ToSid sid, EvError "Too many rooms created. Slow down.")]
  else
    match generate_unique_pin pins (db s) with
    | None => raise s [] (RuntimeError "Failed to generate unique PIN")
    | Some pin =>
        match insert_room pin host_token now (db s) with
        | (d, false) => raise (with_db d s) [] (UniqueViolation "rooms")
        | (d, true) =>
            done
              (register sid {| m_pin := pin; m_role := RoleHost;
                               m_token := host_token |} (with_db d s))
              [(ToSid sid, EvRoomCreated pin host_token)]
        end
    end.

(** [player_token] is [str(uuid.uuid4())]. *)
Definition join_game (sid : string) (t : Q) (now : Z) (data : JoinData)
    (player_token : string) (s : State) : Result :=
  let '(limited, rl) :=
    is_rate_limited ("join:" +:+ sid) JOIN_RATE_LIMIT JOIN_RATE_WINDOW
      t (rate_limits s) in
  let s := with_rate_limits rl s in
  if limited
  then done s [(ToSid sid, EvJoinError "Too many join attempts")]
  else
    let name := Py.strip (Py.or_empty (jd_name data)) in
    let pin := Py.or_empty (jd_pin data) in
    if Py.falsy (jd_pin data) || negb (String.length pin =? 6)%nat
    then done s [(ToSid sid, EvJoinError "Invalid PIN")]
    else if bool_decide (name = "") || (40 <? String.length name)%nat
    then done s [(ToSid sid, EvJoinError "Invalid name")]
    else
      match get_room_by_pin pin (db s) with
      | None => done s [(ToSid sid, EvJoinError "Room not found")]
      | Some room =>
          if bool_decide (r_state room = FINISHED)
          then done s [(ToSid sid, EvJoinError "Game finished")]
          else if MAX_PLAYERS_PER_ROOM <=?
                  Z.of_nat
                    (length
                       (List.filter
                          (λ p, bool_decide (p_room_id p = r_id room))
                          (players (db s))))
          then done s [(ToSid sid, EvJoinError "Room is full")]
          else
            match insert_player (r_id room) player_token name now (db s) with
            | (d, false) => raise (with_db d s) [] (UniqueViolation "players")
            | (d, true) =>
                let d := touch_room_activity (r_id room) now d in
                done
                  (register sid {| m_pin := pin; m_role := RolePlayer;
                                   m_token := player_token |} (with_db d s))
                  [(ToSid sid, EvJoined player_token);
                   (ToRoom pin, EvPlayerJoined name)]
            end
      end.

Definition reconnect_player (sid : string) (now : Z) (data : PlayerData)
    (s : State) : Result :=
  if Py.falsy (pd_pin data) || Py.falsy (pd_player_token data)
  then done s [(ToSid sid, EvReconnectError "Missing data")]
  else
    let pin := Py.or_empty (pd_pin data) in
    match get_room_by_pin pin (db s) with
    | None => done s [(ToSid sid, EvReconnectError "Room not found")]
    | Some room =>
        match uuid_str (Py.or_empty (pd_player_token data)) with
        | None => done s [(ToSid sid, EvReconnectError "Invalid token")]
        | Some player_token =>
            match
              List.find
                (λ p, bool_decide (p_room_id p = r_id room)
                      && bool_decide (p_player_token p = player_token))
                (players (db s))
            with
            | None => done s [(ToSid sid, EvReconnectError "Player not found")]
            | Some player =>
                let d :=
                  with_players
                    (sql_update (λ p, bool_decide (p_id p = p_id player))
                       (set_connected true now) (players (db s))) (db s) in
                let d := touch_room_activity (r_id room) now d in
                let s :=
                  register sid {| m_pin := pin; m_role := RolePlayer;
                                  m_token := player_token |} (with_db d s) in
                done s
                  [(ToSid sid,
                    EvReconnected (r_state room) (p_score player)
                      (r_current_question_index room)
                      (hydrate_question room)
                      (hydrate_results room (db s)))]
            end
        end
    end.

Definition reconnect_host (sid : string) (now : Z) (data : HostData)
    (s : State) : Result :=
  if Py.falsy (hd_pin data) || Py.falsy (hd_host_token data)
  then done s [(ToSid sid, EvReconnectError "Missing data")]
  else
    let pin := Py.or_empty (hd_pin data) in
    match get_room_by_pin pin (db s) with
    | None => done s [(ToSid sid, EvReconnectError "Room not found")]
    | Some room =>
        match uuid_str (Py.or_empty (hd_host_token data)) with
        | None => done s [(ToSid sid, EvReconnectError "Invalid host token")]
        | Some host_token =>
            if negb (bool_decide (r_host_token room = host_token))
            then done s [(ToSid sid, EvReconnectError "Invalid host token")]
            else
              let d := update_room (r_id room) (set_host_online now) (db s) in
              let s :=
                register sid {| m_pin := pin; m_role := RoleHost;
                                m_token := host_token |} (with_db d s) in
              done s
                [(ToSid sid,
                  EvHostReconnected (r_state room)
                    (r_current_question_index room)
                    (leaderboard_for_room_id (r_id room) (db s))
                    (hydrate_question room)
                    (hydrate_results room (db s)))]
        end
    end.

(** The room, or the message of the [error] event that the function emits
    before it returns [None]. *)
Definition verify_host_and_get_room (sid : string) (data : HostData)
    (s : State) : Room + string :=
  if Py.falsy (hd_pin data) || Py.falsy (hd_host_token data)
  then inr "Missing pin/host_token"
  else
    let pin := Py.or_empty (hd_pin data) in
    match get_room_by_pin pin (db s) with
    | None => inr "Room not found"
    | Some room =>
        if negb (bool_decide
                   (r_host_token room = Py.or_empty (hd_host_token data)))
        then inr "Invalid host token"
        else
          match socket_index s !! sid with
          | None => inr "Host socket not registered. Reconnect host."
          | Some meta =>
              if negb (bool_decide (m_role meta = RoleHost))
                 || negb (bool_decide (m_pin meta = pin))
              then inr "Host socket not registered. Reconnect host."
              else inl room
          end
    end.

Definition start_question (pin : string) (now : Z) (s : State) : Result :=
  match get_room_by_pin pin (db s) with
  | None => done s []
  | Some room =>
      if negb (require_room_state room [LOBBY; RESULTS]) then done s []
      else
        let q_index := r_current_question_index room in
        match question_at q_index with
        | None => done s []
        | Some question =>
            let s :=
              with_db (update_room (r_id room)
                         (set_question (q_duration question) now) (db s)) s in
            match get_room_by_pin pin (db s) with
            | None => done s []
            | Some room2 =>
                match r_question_ends_at room2 with
                | None => done s []
                | Some ends_at =>
                    done s
                      [(ToRoom pin,
                        EvQuestionStarted q_index (q_text question)
                          (q_options question) (Py.timestamp ends_at))]
                end
            end
        end
  end.

Definition start_game (sid : string) (now : Z) (data : HostData)
    (s : State) : Result :=
  match verify_host_and_get_room sid data s with
  | inr message => done s [(ToSid sid, EvError message)]
  | inl room =>
      if negb (require_room_state room [LOBBY])
      then done s [(ToSid sid, EvError "start_game allowed only in LOBBY")]
      else
        start_question (r_pin room) now
          (with_db (update_room (r_id room) (set_question_index 0 now)
                      (db s)) s)
  end.

Definition next_question (sid : string) (now : Z) (data : HostData)
    (s : State) : Result :=
  match verify_host_and_get_room sid data s with
  | inr message => done s [(ToSid sid, EvError message)]
  | inl room =>
      if negb (require_room_state room [RESULTS])
      then done s [(ToSid sid, EvError "next_question allowed only in RESULTS")]
      else
        let next_index := r_current_question_index room + 1 in
        if Z.of_nat (length QUESTIONS) <=? next_index
        then
          let s :=
            with_db (update_room (r_id room) (set_closed now) (db s)) s in
          done s
            [(ToRoom (r_pin room),
              EvGameFinished (leaderboard_for_room_id (r_id room) (db s)))]
        else
          start_question (r_pin room) now
            (with_db (update_room (r_id room)
                        (set_question_index next_index now) (db s)) s)
  end.

Definition submit_answer (sid : string) (t : Q) (utc now : Z)
    (data : AnswerData) (s : State) : Result :=
  let '(limited, rl) :=
    is_rate_limited ("answer:" +:+ sid) ANSWER_RATE_LIMIT ANSWER_RATE_WINDOW
      t (rate_limits s) in
  let s := with_rate_limits rl s in
  if limited then done s []
  else
    match ad_pin data, ad_option data, ad_player_token data with
    | Some pin, Some option, Some player_token_s =>
        match get_room_by_pin pin (db s) with
        | None => done s []
        | Some room =>
            if negb (require_room_state room [QUESTION]) then done s []
            else
              match socket_index s !! sid with
              | None => done s []
              | Some meta =>
                  if negb (bool_decide (m_role meta = RolePlayer))
                     || negb (bool_decide (m_pin meta = pin))
                     || negb (bool_decide (m_token meta = player_token_s))
                  then done s []
                  else
                    match uuid_str player_token_s, option with
                    | Some player_token, Some option_index =>
                        let q_index := r_current_question_index room in
                        match question_at q_index with
                        | None => done s []
                        | Some q =>
                            if negb ((0 <=? option_index)
                                     && (option_index <?
                                         Z.of_nat (length (q_options q))))
                            then done s []
                            else
                              match r_question_ends_at room with
                              | None => done s []
                              | Some ends_at =>
                                  if ends_at <? utc then done s []
                                  else
                                    done
                                      (with_db
                                         (touch_room_activity (r_id room) now
                                            (insert_answer (r_id room)
                                               player_token q_index
                                               option_index now (db s))) s)
                                      []
                              end
                        end
                    | _, _ => done s []
                    end
              end
        end
    | _, _, _ => done s []
    end.

(** The scoring loop.  [ends_at] is [locked["question_ends_at"]]; the
    subtraction [ends_at - answered_at] raises when it is [None]. *)
Fixpoint score_answers (correct duration : Z) (ends_at : option Z)
    (room_id now : Z) (l : list Answer) (d : DB) : DB * option Exn :=
  match l with
  | [] => (d, None)
  | a :: l' =>
      if negb (bool_decide (a_option_index a = correct))
      then score_answers correct duration ends_at room_id now l' d
      else
        match ends_at with
        | None => (d, Some TypeError)
        | Some e =>
            score_answers correct duration ends_at room_id now l'
              (award (points_for duration e (a_answered_at a)) room_id
                 (a_player_token a) now d)
        end
  end.

(** [finish_question_if_due] below its [if not locked: return]. *)
Definition finish_locked (pin : string) (now : Z) (locked : Room)
    (s : State) : Result :=
  let room_id := r_id locked in
  let q_index := r_current_question_index locked in
  match question_at q_index with
  | None => done s []
  | Some question =>
      let correct := q_correct_index question in
      match
        score_answers correct (q_duration question)
          (r_question_ends_at locked) room_id now
          (answers_for room_id q_index (db s)) (db s)
      with
      | (d, Some e) => raise (with_db d s) [] e
      | (d, None) =>
          done (with_db d s)
            [(ToRoom pin,
              EvQuestionResults correct (leaderboard_for_room_id room_id d))]
      end
  end.

(** [finish_question_if_due] from its conditional write on: the part that
    runs against the store as it is when the write arrives. *)
Definition finish_commit (pin : string) (room_id now : Z) (s : State)
  : Result :=
  match finalize_lock room_id now (db s) with
  | (None, d) => done (with_db d s) []
  | (Some locked, d) => finish_locked pin now locked (with_db d s)
  end.

(** The four guards of [finish_question_if_due] on the room it has read:
    the id to finalize, if the question is due. *)
Definition finish_due (pin : string) (utc : Z) (s : State) : option Z :=
  match get_room_by_pin pin (db s) with
  | None => None
  | Some room =>
      if negb (require_room_state room [QUESTION]) then None
      else
        match r_question_ends_at room with
        | None => None
        | Some ends_at => if utc <=? ends_at then None else Some (r_id room)
        end
  end.

Definition finish_question_if_due (pin : string) (utc now : Z) (s : State)
  : Result :=
  match finish_due pin utc s with
  | None => done s []
  | Some room_id => finish_commit pin room_id now s
  end.

(** One pass of the loop body of [watchdog_task]. *)
Definition watchdog_task (utc now : Z) (s : State) : Result :=
  for_each (λ pin, finish_question_if_due pin utc now)
    (rooms_due now (db s)) s.

(** The process starts again over the store it left: the module is loaded
    anew, with [socket_index = {}] and [rate_limits = {}], and the transport
    has no connection in any group. *)
Definition startup (s : State) : Result :=
  done {| db := db s; socket_index := ∅; rate_limits := ∅; groups := ∅ |} [].

(** ** The server as a transition system *)

Inductive Action :=
| Disconnect (sid : string) (now : Z)
| CreateRoom (sid : string) (t : Q) (now : Z) (pins : nat → string)
    (host_token : string)
| JoinGame (sid : string) (t : Q) (now : Z) (data : JoinData)
    (player_token : string)
| ReconnectPlayer (sid : string) (now : Z) (data : PlayerData)
| ReconnectHost (sid : string) (now : Z) (data : HostData)
| StartGame (sid : string) (now : Z) (data : HostData)
| NextQuestion (sid : string) (now : Z) (data : HostData)
| SubmitAnswer (sid : string) (t : Q) (utc now : Z) (data : AnswerData)
| WatchdogTick (utc now : Z)
| CleanupTick (now : Z)
| Restart.

Definition step (a : Action) (s : State) : Result :=
  match a with
  | Disconnect sid now => on_disconnect sid now s
  | CreateRoom sid t now pins host_token =>
      create_room sid t now pins host_token s
  | JoinGame sid t now data player_token =>
      join_game sid t now data player_token s
  | ReconnectPlayer sid now data => reconnect_player sid now data s
  | ReconnectHost sid now data => reconnect_host sid now data s
  | StartGame sid now data => start_game sid now data s
  | NextQuestion sid now data => next_question sid now data s
  | SubmitAnswer sid t utc now data => submit_answer sid t utc now data s
  | WatchdogTick utc now => watchdog_task utc now s
  | CleanupTick now => cleanup_task now s
  | Restart => startup s
  end.

(** The states the server reaches from its start, each with the events
    emitted on the way, oldest first. *)
Inductive reachable : State → list Emit → Prop :=
| reach_init : reachable init []
| reach_step s log a :
    reachable s log →
    reachable (res_state (step a s)) (log ++ res_out (step a s)).

Fixpoint run (acts : list Action) (s : State) (log : list Emit)
  : State * list Emit :=
  match acts with
  | [] => (s, log)
  | a :: acts' =>
      run acts' (res_state (step a s)) (log ++ res_out (step a s))
  end.

End Handlers.

(** ** Notions the properties are stated with *)

(** A run of calls of [is_rate_limited] on one key at the times [ts]: the
    answers, and the buckets left. *)
Fixpoint attempts (key : string) (limit window : Z) (ts : list Q)
    (rl : gmap string (list Q)) : list bool * gmap string (list Q) :=
  match ts with
  | [] => ([], rl)
  | t :: ts' =>
      let '(limited, rl) := is_rate_limited key limit window t rl in
      let '(bs, rl) := attempts key limit window ts' rl in
      (limited :: bs, rl)
  end.

(** The conditional write of [finalize_lock] finds a row to change. *)
Definition question_open (room_id : Z) (d : DB) : bool :=
  existsb (finalize_cond room_id) (rooms d).

(** Executions that meet at the store: an attempt to finalize the room
    [room_id], from its conditional write on, or anything else that happens
    in between. *)
Inductive Op :=
| Finalize (pin : string) (now : Z)
| Other (f : State → State).

(** What one attempt met and left: the state its write arrived at, whether
    the write changed a row, and the result. *)
Record Attempt := {
  at_before : State;
  at_locked : bool;
  at_result : Result;
}.

Fixpoint run_ops (room_id : Z) (ops : list Op) (s : State) : list Attempt :=
  match ops with
  | [] => []
  | Finalize pin now :: ops' =>
      let r := finish_commit pin room_id now s in
      {| at_before := s; at_locked := question_open room_id (db s);
         at_result := r |} :: run_ops room_id ops' (res_state r)
  | Other f :: ops' => run_ops room_id ops' (f s)
  end.

(** The scoring rule as the specification words it, over the rationals:
    [1000 + floor((max(0, ends_at - answered_at) / max(1, duration)) * 500)],
    the bonus clamped at 0, the time left in seconds. *)
Definition spec_points (duration ends_at answered_at : Z) : Z :=
  let time_left : Q := Qmake (Z.max 0 (ends_at - answered_at)) 1000000 in
  1000 + Z.max 0
           (Qfloor (time_left / inject_Z (Z.max 1 duration) * inject_Z 500)%Q).

(** What one answer earns at finalization. *)
Definition answer_points (correct duration ends_at : Z) (a : Answer) : Z :=
  if bool_decide (a_option_index a = correct)
  then points_for duration ends_at (a_answered_at a)
  else 0.

(** What the answers [l] of a question earn the player [p] of room [room_id]. *)
Definition gained (correct duration ends_at room_id : Z) (l : list Answer)
    (p : Player) : Z :=
  foldr
    (λ a acc,
       (if bool_decide (p_room_id p = room_id)
           && bool_decide (p_player_token p = a_player_token a)
        then answer_points correct duration ends_at a else 0) + acc)
    0 l.

(** The scoring loop, player by player. *)
Definition award_one (correct duration ends_at room_id now : Z) (a : Answer)
    (p : Player) : Player :=
  if bool_decide (a_option_index a = correct)
     && (bool_decide (p_room_id p = room_id)
         && bool_decide (p_player_token p = a_player_token a))
  then add_score (points_for duration ends_at (a_answered_at a)) now p
  else p.

(** Two versions of a room row that agree on everything but the host's
    liveness ([host_connected], [host_disconnected_at]) and
    [last_activity_at]. *)
Definition same_game (r r' : Room) : Prop :=
  r_id r' = r_id r ∧ r_pin r' = r_pin r ∧ r_host_token r' = r_host_token r
  ∧ r_state r' = r_state r
  ∧ r_current_question_index r' = r_current_question_index r
  ∧ r_question_started_at r' = r_question_started_at r
  ∧ r_question_ends_at r' = r_question_ends_at r
  ∧ r_created_at r' = r_created_at r
  ∧ r_closed_at r' = r_closed_at r.

(** Two versions of a player row that agree on everything but [connected]
    and [last_seen_at]. *)
Definition same_player (p p' : Player) : Prop :=
  p_id p' = p_id p ∧ p_room_id p' = p_room_id p
  ∧ p_player_token p' = p_player_token p ∧ p_name p' = p_name p
  ∧ p_score p' = p_score p ∧ p_created_at p' = p_created_at p.

#[global] Arguments insert_answer : simpl never.
#[global] Arguments insert_room : simpl never.
#[global] Arguments insert_player : simpl never.
#[global] Arguments update_room : simpl never.
#[global] Arguments touch_room_activity : simpl never.
#[global] Arguments award : simpl never.
#[global] Arguments finalize_lock : simpl never.
#[global] Arguments leaderboard_for_room_id : simpl never.
#[global] Arguments is_rate_limited : simpl never.
#[global] Arguments get_room_by_pin : simpl never.
#[global] Arguments register : simpl never.
#[global] Arguments unregister : simpl never.
#[global] Arguments question_at : simpl never.

(** Two versions of a room row of which nothing but [last_activity_at] has
    moved. *)
Definition touched_only (r r' : Room) : Prop :=
  same_game r r'
  ∧ r_host_connected r' = r_host_connected r
  ∧ r_host_disconnected_at r' = r_host_disconnected_at r.

(** What a room row is known by, for as long as it exists. *)
Definition ident (r : Room) : Z * string * string :=
  (r_id r, r_pin r, r_host_token r).

(** The payload of the latest [question_started] that the group [pin] was
    sent, in a log that runs from the oldest event to the newest. *)
Fixpoint last_started (pin : string) (log : list Emit)
  : option (Z * string * list string * float) :=
  match log with
  | [] => None
  | (target, event) :: log' =>
      match last_started pin log' with
      | Some x => Some x
      | None =>
          match target, event with
          | ToRoom p, EvQuestionStarted index text options ends_at =>
              if bool_decide (p = pin) then Some (index, text, options, ends_at)
              else None
          | _, _ => None
          end
      end
  end.

(** What holds of every state the server reaches, with the events emitted
    so far. *)
Record Inv (s : State) (log : list Emit) : Prop := {
  inv_ids : NoDup (map r_id (rooms (db s)));
  inv_seq : Forall (λ r, r_id r ≤ rooms_seq (db s)) (rooms (db s));
  inv_pins : NoDup (map r_pin (rooms (db s)));
  inv_closed :
    ∀ r, r ∈ rooms (db s) → r_closed_at r ≠ None → r_state r = FINISHED;
  inv_hosts :
    ∀ sid m, socket_index s !! sid = Some m → m_role m = RoleHost →
      ∃ r, r ∈ rooms (db s) ∧ r_pin r = m_pin m ∧ r_host_token r = m_token m;
  inv_question :
    ∀ r, r ∈ rooms (db s) → r_closed_at r = None → r_state r = QUESTION →
      ∃ e q,
        r_question_ends_at r = Some e
        ∧ question_at (r_current_question_index r) = Some q
        ∧ last_started (r_pin r) log
          = Some (r_current_question_index r, q_text q, q_options q,
                  Py.timestamp e);
}.

(** Events among which there is no [question_started]. *)
Definition quiet (out : list Emit) : Prop :=
  ∀ pin, last_started pin out = None.

(** An assignment that leaves alone what the game is read from. *)
Definition neutral (f : Room → Room) : Prop :=
  ∀ r, ident (f r) = ident r ∧ r_state (f r) = r_state r
       ∧ r_current_question_index (f r) = r_current_question_index r
       ∧ r_question_ends_at (f r) = r_question_ends_at r
       ∧ r_closed_at (f r) = r_closed_at r.

(** A handler under which the invariant goes on. *)
Definition preserves (h : State → Result) : Prop :=
  ∀ s log, Inv s log → Inv (res_state (h s)) (log ++ res_out (h s)).

(** ** A session, for the examples *)

Definition is_hex (c : Ascii.ascii) : bool :=
  let n := Ascii.nat_of_ascii c in
  ((48 <=? n) && (n <=? 57) || (97 <=? n) && (n <=? 102))%nat.

Fixpoint canonical_from (k : nat) (s : string) : bool :=
  match s with
  | EmptyString => (k =? 36)%nat
  | String c s' =>
      (if ((k =? 8) || (k =? 13) || (k =? 18) || (k =? 23))%nat
       then (Ascii.nat_of_ascii c =? 45)%nat else is_hex c)
      && canonical_from (S k) s'
  end.

(** [str(uuid.UUID(s))] on a text in canonical form, which it gives back;
    the examples present no other text, and on any other this instance
    answers [None]. *)
Definition uuid_canonical (s : string) : option string :=
  if canonical_from 0 s then Some s else None.

Definition HOST : string := "11111111-1111-4111-8111-111111111111".
Definition ALICE : string := "22222222-2222-4222-8222-222222222222".

Definition host_data : HostData :=
  {| hd_pin := Some "123456"; hd_host_token := Some HOST |}.

Definition alice_data : PlayerData :=
  {| pd_pin := Some "123456"; pd_player_token := Some ALICE |}.

(** Alice answers the correct option of the first question at [utc]. *)
Definition answer_data : AnswerData :=
  {| ad_pin := Some "123456"; ad_option := Some (Some 1);
     ad_player_token := Some ALICE |}.

Definition answer_at (utc : Z) : Action :=
  SubmitAnswer "p" 1%Q utc utc answer_data.

(** A host creates the room 123456 and Alice joins it. *)
Definition opening : list Action :=
  [ CreateRoom "h" 0%Q 0 (λ _, "123456") HOST;
    JoinGame "p" 0%Q 0 {| jd_pin := Some "123456"; jd_name := Some "Alice" |}
      ALICE ].

(** The host starts the game at time 0: the first question ends at 15 s. *)
Definition first_question : list Action :=
  opening ++ [StartGame "h" 0 host_data].

(** Both questions run out and the host ends the game. *)
Definition whole_game : list Action :=
  first_question ++
  [ WatchdogTick 15000001 15000001;
    NextQuestion "h" 16000000 host_data;
    WatchdogTick 32000000 32000000;
    NextQuestion "h" 33000000 host_data ].

Definition after (acts : list Action) : State :=
  fst (run uuid_canonical acts init []).

Definition log_after (acts : list Action) : list Emit :=
  snd (run uuid_canonical acts init []).

(** The scores of the players of a room, in table order. *)
Definition scores_of (room_id : Z) (d : DB) : list Z :=
  map p_score
    (List.filter (λ p, bool_decide (p_room_id p = room_id)) (players d)).

(** A [question_results] event sent to the group [pin]. *)
Definition is_results_for (pin : string) (e : Emit) : bool :=
  match e with
  | (ToRoom p, EvQuestionResults _ _) => bool_decide (p = pin)
  | _ => false
  end.

(** A handler that leaves a closed room as it is: its row, the scores of
    its players, and no [question_results] for its pin. *)
Definition leaves_closed (c : Room) (h : State → Result) : Prop :=
  ∀ s log, Inv s log → c ∈ rooms (db s) → r_closed_at c ≠ None →
    c ∈ rooms (db (res_state (h s)))
    ∧ scores_of (r_id c) (db (res_state (h s))) = scores_of (r_id c) (db s)
    ∧ Forall (λ e, is_results_for (r_pin c) e = false) (res_out (h s)).

(** ** Proof steps that recur *)

(** Takes the branch of the first [match] or [if] of the goal. *)
Ltac split_match :=
  match goal with
  | |- context [match ?x with _ => _ end] =>
      let E := fresh "E" in destruct x eqn:E
  end.

(** Turns the boolean tests a handler has passed into propositions. *)
Ltac bool_facts :=
  repeat match goal with
  | H : _ || _ = false |- _ => apply orb_false_elim in H as [? ?]
  | H : _ && _ = true |- _ => apply andb_prop in H as [? ?]
  | H : negb _ = false |- _ => apply negb_false_iff in H
  | H : negb _ = true |- _ => apply negb_true_iff in H
  | H : bool_decide _ = true |- _ => apply bool_decide_eq_true in H
  | H : bool_decide _ = false |- _ => apply bool_decide_eq_false in H
  end.

(** Reads the fields of a result and of a state, and nothing else. *)
Tactic Notation "simpl_res" "in" hyp(H) :=
  cbn [res_state res_out res_exn done raise db with_db with_rate_limits
       socket_index rate_limits groups fst snd] in H.

Ltac simpl_res :=
  cbn [res_state res_out res_exn done raise db with_db with_rate_limits
       socket_index rate_limits groups fst snd].

(** The two host actions that start a question. *)
Definition starts_question (a : Action) : bool :=
  match a with
  | StartGame _ _ _ | NextQuestion _ _ _ => true
  | _ => false
  end.

(** ** Notions the further properties are stated with *)

(** The order of [ORDER BY score DESC, created_at ASC]. *)
Definition ordered_before (p q : Player) : Prop :=
  p_score q < p_score p
  ∨ (p_score p = p_score q ∧ p_created_at p ≤ p_created_at q).

(** The row of the leaderboard that a player row gives. *)
Definition leader_row (p : Player) : LeaderRow :=
  {| lb_name := p_name p; lb_score := p_score p;
     lb_connected := p_connected p |}.

(** The events that tell a caller that its request was refused. *)
Definition is_error (e : Event) : bool :=
  match e with
  | EvError _ | EvJoinError _ | EvReconnectError _ => true
  | _ => false
  end.

(** Two versions of a player row, the later with a score that is not
    lower; nothing but [score], [connected] and [last_seen_at] differs. *)
Definition grows (p p' : Player) : Prop :=
  p_id p' = p_id p ∧ p_room_id p' = p_room_id p
  ∧ p_player_token p' = p_player_token p ∧ p_name p' = p_name p
  ∧ p_created_at p' = p_created_at p ∧ p_score p ≤ p_score p'.

(** What the constraint [UNIQUE(room_id, player_token, question_index)]
    reads of an answer row. *)
Definition answer_key (a : Answer) : Z * string * Z :=
  (a_room_id a, a_player_token a, a_question_index a).

(** The condition of the query of [cleanup_task], on one row. *)
Definition abandoned (now : Z) (r : Room) : bool :=
  is_open r && negb (r_host_connected r)
  && match r_host_disconnected_at r with
     | Some t => t <? now - seconds ROOM_TTL_SECONDS
     | None => false
     end.

(** The condition of the query of [watchdog_task], on one row. *)
Definition due (now : Z) (r : Room) : bool :=
  is_open r && bool_decide (r_state r = QUESTION)
  && match r_question_ends_at r with
     | Some e => e <? now
     | None => false
     end.

(** [utc_now() > room["question_ends_at"]], on one row. *)
Definition past_deadline (utc : Z) (r : Room) : bool :=
  match r_question_ends_at r with
  | Some e => e <? utc
  | None => false
  end.

(** The open row with the pin [pin], in QUESTION and past its deadline by
    the process clock: what [finish_question_if_due] looks for. *)
Definition finalizable (utc : Z) (pin : string) (r : Room) : bool :=
  is_open r && bool_decide (r_pin r = pin)
  && bool_decide (r_state r = QUESTION) && past_deadline utc r.

(** A [question_results] event. *)
Definition is_question_results (e : Event) : bool :=
  match e with
  | EvQuestionResults _ _ => true
  | _ => false
  end.

(** How one room row can differ after a step of the server from what it was
    before: not at all; by a stamp of activity; by the host's liveness; by
    the start of the first or of the next question; by the end of a
    question; by the end of the game; by the host's absence.  Every change
    is to an open row. *)
Inductive Move (r : Room) : Room → Prop :=
| move_none : Move r r
| move_touch now :
    r_closed_at r = None → Move r (set_last_activity now r)
| move_offline now :
    r_closed_at r = None → Move r (set_host_offline now r)
| move_online now :
    r_closed_at r = None → Move r (set_host_online now r)
| move_start q now :
    r_closed_at r = None → r_state r = LOBBY → question_at 0 = Some q →
    Move r (set_question (q_duration q) now (set_question_index 0 now r))
| move_next q now :
    r_closed_at r = None → r_state r = RESULTS →
    question_at (r_current_question_index r + 1) = Some q →
    Move r (set_question (q_duration q) now
              (set_question_index (r_current_question_index r + 1) now r))
| move_results e now :
    r_closed_at r = None → r_state r = QUESTION →
    r_question_ends_at r = Some e → e < now →
    Move r (set_results now r)
| move_finish now :
    r_closed_at r = None → r_state r = RESULTS →
    Z.of_nat (length QUESTIONS) ≤ r_current_question_index r + 1 →
    Move r (set_closed now r)
| move_timeout t now :
    r_closed_at r = None → r_host_connected r = false →
    r_host_disconnected_at r = Some t →
    t < now - seconds ROOM_TTL_SECONDS →
    Move r (set_closed now r).

(** A room row as [create_room] inserts it. *)
Definition new_room (r : Room) : Prop :=
  r_state r = LOBBY ∧ r_current_question_index r = -1
  ∧ r_question_started_at r = None ∧ r_question_ends_at r = None
  ∧ r_host_connected r = true ∧ r_host_disconnected_at r = None
  ∧ r_closed_at r = None.

(** What the columns of a room row have to do with one another. *)
Record RowOK (r : Room) : Prop := {
  row_finished : r_state r = FINISHED ↔ r_closed_at r ≠ None;
  row_lobby :
    r_state r = LOBBY →
    r_current_question_index r = -1
    ∧ r_question_started_at r = None ∧ r_question_ends_at r = None;
  row_question :
    r_state r = QUESTION ∨ r_state r = RESULTS →
    ∃ q t,
      question_at (r_current_question_index r) = Some q
      ∧ r_question_started_at r = Some t
      ∧ r_question_ends_at r = Some (t + seconds (q_duration q));
  row_host : r_host_connected r = true ↔ r_host_disconnected_at r = None;
}.

(** The invariant of the reachable states, with the rows well formed. *)
Definition Inv2 (s : State) (log : list Emit) : Prop :=
  Inv s log ∧ Forall RowOK (rooms (db s)).

(** A name that [join_game] lets through: not empty, at most forty
    characters, no white space around it. *)
Definition name_ok (n : string) : Prop :=
  n ≠ "" ∧ (String.length n ≤ 40)%nat ∧ Py.strip n = n.

(** The number of players of a room. *)
Definition player_count (room_id : Z) (d : DB) : nat :=
  length (List.filter (λ p, bool_decide (p_room_id p = room_id)) (players d)).

(** A player row as [join_game] inserts it into the store of [s]. *)
Definition joined (s : State) (new : Player) : Prop :=
  ∃ room,
    room ∈ rooms (db s) ∧ r_closed_at room = None
    ∧ p_room_id new = r_id room
    ∧ Z.of_nat (player_count (r_id room) (db s)) < MAX_PLAYERS_PER_ROOM
    ∧ p_id new = players_seq (db s) + 1
    ∧ p_score new = 0 ∧ p_connected new = true
    ∧ name_ok (p_name new)
    ∧ ∀ p, p ∈ players (db s) →
           ¬ (p_room_id p = p_room_id new
              ∧ p_player_token p = p_player_token new).

(** What the table of players satisfies. *)
Record PlayersOK (d : DB) : Prop := {
  players_ids : NoDup (map p_id (players d));
  players_bound : Forall (λ p, p_id p ≤ players_seq d) (players d);
  players_tokens :
    NoDup (map (λ p, (p_room_id p, p_player_token p)) (players d));
  players_rooms : ∀ p, p ∈ players d → ∃ r, r ∈ rooms d ∧ r_id r = p_room_id p;
  players_names : Forall (λ p, name_ok (p_name p)) (players d);
  players_scores : Forall (λ p, 0 ≤ p_score p) (players d);
  players_full :
    ∀ room_id, Z.of_nat (player_count room_id d) ≤ MAX_PLAYERS_PER_ROOM;
}.

(** An answer row as [submit_answer] inserts it into the store of [s]. *)
Definition stored (s : State) (new : Answer) : Prop :=
  ∃ room q,
    room ∈ rooms (db s) ∧ r_closed_at room = None ∧ r_state room = QUESTION
    ∧ a_room_id new = r_id room
    ∧ a_question_index new = r_current_question_index room
    ∧ question_at (a_question_index new) = Some q
    ∧ 0 ≤ a_option_index new < Z.of_nat (length (q_options q))
    ∧ a_id new = answers_seq (db s) + 1
    ∧ ∀ b, b ∈ answers (db s) → answer_key b ≠ answer_key new.

(** What the table of answers satisfies. *)
Record AnswersOK (d : DB) : Prop := {
  answers_ids : NoDup (map a_id (answers d));
  answers_bound : Forall (λ a, a_id a ≤ answers_seq d) (answers d);
  answers_keys : NoDup (map answer_key (answers d));
  answers_rooms : ∀ a, a ∈ answers d → ∃ r, r ∈ rooms d ∧ r_id r = a_room_id a;
  answers_valid :
    Forall
      (λ a, ∃ q, question_at (a_question_index a) = Some q
                 ∧ 0 ≤ a_option_index a < Z.of_nat (length (q_options q)))
      (answers d);
}.

(** The answer of the player with the token [tok] among the answers [l],
    if there is one. *)
Definition answer_of (tok : string) (l : list Answer) : option Answer :=
  List.find (λ a, bool_decide (a_player_token a = tok)) l.

(** What the answers [l] of a question earn a player of the room: the
    points of the player's own answer. *)
Definition earned (correct duration ends_at room_id : Z) (l : list Answer)
    (p : Player) : Z :=
  if bool_decide (p_room_id p = room_id) then
    match answer_of (p_player_token p) l with
    | Some a => answer_points correct duration ends_at a
    | None => 0
    end
  else 0.

(** The largest of the three limits of the rate limiter. *)
Definition max_limit : Z :=
  Z.max CREATE_ROOM_LIMIT (Z.max JOIN_RATE_LIMIT ANSWER_RATE_LIMIT).

(** The bucket that a step counts its caller in, if it counts it. *)
Definition limited_key (a : Action) : option string :=
  match a with
  | CreateRoom sid _ _ _ _ => Some ("create:" +:+ sid)
  | JoinGame sid _ _ _ _ => Some ("join:" +:+ sid)
  | SubmitAnswer sid _ _ _ _ => Some ("answer:" +:+ sid)
  | _ => None
  end.

(** ** More of the session, for the examples *)

Definition BOB : string := "33333333-3333-4333-8333-333333333333".

(** The row of the room 123456 while its first question runs. *)
Definition room_in_question : Room :=
  {| r_id := 1; r_pin := "123456"; r_host_token := HOST;
     r_state := QUESTION; r_current_question_index := 0;
     r_question_started_at := Some 0; r_question_ends_at := Some 15000000;
     r_host_connected := true; r_host_disconnected_at := None;
     r_created_at := 0; r_last_activity_at := 0; r_closed_at := None |}.

(** A host creates the room 123456. *)
Definition created : list Action :=
  [ CreateRoom "h" 0%Q 0 (λ _, "123456") HOST ].

(** The host's connection drops at 6 s of the first question. *)
Definition host_away : list Action :=
  first_question ++ [Disconnect "h" 6000000].

(** Alice answers the first question at 12.99 s, and it runs out. *)
Definition first_results : list Action :=
  first_question ++ [answer_at 12990000; WatchdogTick 15000001 15000001].

(** * Properties *)

(** ** The rate limiter *)

Section RateLimiter.

Variables (key : string) (L W : Z).

Lemma in_window_true now t :
  in_window now W t = true ↔ (now - t < inject_Z W)%Q.
Proof.
  unfold in_window, Py.Qltb. rewrite negb_true_iff.
  split.
  - intros H. apply Qnot_le_lt. intros Hle.
    apply Qle_bool_iff in Hle. congruence.
  - intros H. destruct (Qle_bool (inject_Z W) (now - t)) eqn:E; [|done].
    apply Qle_bool_iff in E. exfalso. by apply (Qlt_not_le _ _ H).
Qed.

Lemma in_window_false now t :
  in_window now W t = false ↔ (inject_Z W <= now - t)%Q.
Proof.
  unfold in_window, Py.Qltb. rewrite negb_false_iff. apply Qle_bool_iff.
Qed.

Lemma filter_all {A} (f : A → bool) (l : list A) :
  (∀ x, x ∈ l → f x = true) → List.filter f l = l.
Proof.
  induction l as [|x l IH]; intros H; [done|]. simpl.
  rewrite (H x) by left. f_equal. apply IH. intros y Hy. apply H. by right.
Qed.

Lemma length_filter_le {A} (f : A → bool) (l : list A) :
  (length (List.filter f l) ≤ length l)%nat.
Proof. induction l as [|x l IH]; simpl; [lia|]. destruct (f x); simpl; lia. Qed.

Lemma filter_length_same {A} (f : A → bool) (l : list A) :
  (length l ≤ length (List.filter f l))%nat → List.filter f l = l.
Proof.
  induction l as [|x l IH]; simpl; [done|].
  pose proof (length_filter_le f l).
  destruct (f x); simpl; intros; [f_equal; apply IH|]; lia.
Qed.

(** An attempt that finds fewer than [L] live timestamps is let through and
    recorded after them. *)
Lemma attempt_accepted now rl :
  Z.of_nat (length (List.filter (in_window now W) (default [] (rl !! key)))) < L →
  is_rate_limited key L W now rl
  = (false, <[key := List.filter (in_window now W) (default [] (rl !! key))
                     ++ [now]]> rl).
Proof.
  intros H. unfold is_rate_limited.
  destruct (Z.leb_spec L
    (Z.of_nat (length (List.filter (in_window now W) (default [] (rl !! key))))));
    [lia | done].
Qed.

(** A denied attempt leaves every bucket as it was, the bucket of the key
    holding at most [L] timestamps, as it does when the key is always
    asked with the limit [L]. *)
Lemma denied_no_effect now rl rl' :
  0 < L →
  Z.of_nat (length (default [] (rl !! key))) ≤ L →
  is_rate_limited key L W now rl = (true, rl') →
  rl' = rl.
Proof.
  intros HL Hlen. unfold is_rate_limited.
  set (bucket := default [] (rl !! key)) in *.
  destruct (Z.leb_spec L (Z.of_nat (length (List.filter (in_window now W) bucket))))
    as [Hge|]; [|done].
  intros [= <-].
  pose proof (length_filter_le (in_window now W) bucket) as Hle.
  assert (Hsame : List.filter (in_window now W) bucket = bucket)
    by (apply filter_length_same; lia).
  rewrite Hsame. apply insert_id. subst bucket.
  destruct (rl !! key) as [b|] eqn:E; [done|]. simpl in *. lia.
Qed.

Lemma attempts_within (rest pre : list Q) rl :
  default [] (rl !! key) = pre →
  Z.of_nat (length (pre ++ rest)) ≤ L →
  (∀ x y, x ∈ pre ++ rest → y ∈ pre ++ rest → (y - x < inject_Z W)%Q) →
  rest ≠ [] →
  attempts key L W rest rl
  = (replicate (length rest) false, <[key := pre ++ rest]> rl).
Proof.
  revert pre rl. induction rest as [|t rest IH]; intros pre rl Hpre Hlen Hwin Hne;
    [done|].
  simpl.
  assert (Hkeep : List.filter (in_window t W) pre = pre).
  { apply filter_all. intros x Hx. apply in_window_true.
    apply Hwin; rewrite elem_of_app; [by left | right; by left]. }
  rewrite attempt_accepted; rewrite Hpre, Hkeep;
    [| rewrite length_app in Hlen; simpl in Hlen; lia].
  destruct rest as [|t' rest'].
  - simpl. done.
  - rewrite (IH (pre ++ [t])).
    + simpl. f_equal. rewrite insert_insert_eq. by rewrite <- app_assoc.
    + by rewrite lookup_insert_eq.
    + by rewrite <- app_assoc.
    + by rewrite <- app_assoc.
    + done.
Qed.

End RateLimiter.

(** C8.  For a key with limit [L >= 1] and window [W]: [L] attempts that lie
    within [W] of one another, made on an empty bucket, are all let through and
    recorded; a further attempt less than [W] after the oldest of them, [t1],
    is denied and leaves every bucket as it was; an attempt [W] or more after
    [t1] is let through again; and, whenever the bucket holds at most [L]
    timestamps, a denied attempt changes nothing. *)
Theorem rate_limiter_sliding_window (key : string) (L W : Z) (ts : list Q)
    (t1 : Q) (rl : gmap string (list Q)) :
  0 < L →
  default [] (rl !! key) = [] →
  Z.of_nat (length ts) = L →
  ts !! 0%nat = Some t1 →
  (∀ x, x ∈ ts → (t1 <= x)%Q) →
  (∀ x y, x ∈ ts → y ∈ ts → (y - x < inject_Z W)%Q) →
  attempts key L W ts rl = (replicate (length ts) false, <[key := ts]> rl)
  ∧ (∀ now, (now - t1 < inject_Z W)%Q →
       is_rate_limited key L W now (<[key := ts]> rl)
       = (true, <[key := ts]> rl))
  ∧ (∀ now, (inject_Z W <= now - t1)%Q →
       fst (is_rate_limited key L W now (<[key := ts]> rl)) = false)
  ∧ (∀ now rl0 rl1,
       Z.of_nat (length (default [] (rl0 !! key))) ≤ L →
       is_rate_limited key L W now rl0 = (true, rl1) → rl1 = rl0).
Proof.
  intros HL Hempty Hlen Hfirst Hold Hwin.
  destruct ts as [|t ts']; [done|]. injection Hfirst as ->.
  split; [|split; [|split]].
  - apply (attempts_within key L W (t1 :: ts') []); try done.
    rewrite app_nil_l. lia.
  - intros now Hnow. unfold is_rate_limited. rewrite lookup_insert_eq. simpl default.
    rewrite (filter_all (in_window now W)).
    + rewrite insert_insert_eq.
      destruct (Z.leb_spec L (Z.of_nat (length (t1 :: ts')))); [done|lia].
    + intros x Hx. apply in_window_true. specialize (Hold x Hx). lra.
  - intros now Hnow. rewrite attempt_accepted; [done|].
    rewrite lookup_insert_eq. simpl.
    apply in_window_false in Hnow. rewrite Hnow.
    pose proof (length_filter_le (in_window now W) ts'). simpl in Hlen. lia.
  - intros now rl0 rl1 Hle Hden. by eapply denied_no_effect.
Qed.

Lemma rate_limiter_sliding_window_witness :
  attempts "create:h" CREATE_ROOM_LIMIT CREATE_ROOM_WINDOW [0; 1; 2]%Q ∅
  = ([false; false; false], {[ "create:h" := [0; 1; 2]%Q ]})
  ∧ is_rate_limited "create:h" CREATE_ROOM_LIMIT CREATE_ROOM_WINDOW 59%Q
      {[ "create:h" := [0; 1; 2]%Q ]}
    = (true, {[ "create:h" := [0; 1; 2]%Q ]})
  ∧ fst (is_rate_limited "create:h" CREATE_ROOM_LIMIT CREATE_ROOM_WINDOW 60%Q
           {[ "create:h" := [0; 1; 2]%Q ]}) = false.
Proof.
  destruct (rate_limiter_sliding_window "create:h" CREATE_ROOM_LIMIT
              CREATE_ROOM_WINDOW [0; 1; 2]%Q 0%Q ∅)
    as (H1 & H2 & H3 & _).
  - reflexivity.
  - reflexivity.
  - reflexivity.
  - reflexivity.
  - intros x Hx. repeat (apply elem_of_cons in Hx as [->|Hx]); try discriminate.
    by apply elem_of_nil in Hx.
  - intros x y Hx Hy.
    repeat (apply elem_of_cons in Hx as [->|Hx]);
      repeat (apply elem_of_cons in Hy as [->|Hy]);
      try reflexivity; exfalso; eapply elem_of_nil; eassumption.
  - split; [exact H1|]. split; [apply H2; reflexivity|apply H3; discriminate].
Defined.

(** ** Records and statements *)

Lemma with_rooms_same d : with_rooms (rooms d) d = d.
Proof. by destruct d. Qed.

Lemma with_players_same d : with_players (players d) d = d.
Proof. by destruct d. Qed.

Lemma with_db_same s : with_db (db s) s = s.
Proof. by destruct s. Qed.

Lemma sql_update_none {A} (cond : A → bool) (set : A → A) (rows : list A) :
  existsb cond rows = false → sql_update cond set rows = rows.
Proof.
  induction rows as [|r rows IH]; simpl; [done|].
  intros [-> H]%orb_false_elim. by rewrite IH.
Qed.

Lemma find_none_existsb {A} (cond : A → bool) (rows : list A) :
  existsb cond rows = false → List.find cond rows = None.
Proof.
  induction rows as [|r rows IH]; simpl; [done|].
  intros [-> H]%orb_false_elim. by apply IH.
Qed.

Lemma find_some_existsb {A} (cond : A → bool) (rows : list A) :
  existsb cond rows = true → is_Some (List.find cond rows).
Proof.
  induction rows as [|r rows IH]; simpl; [done|].
  destruct (cond r); [eauto | done].
Qed.

Lemma filter_none {A} (f : A → bool) (l : list A) :
  Forall (λ x, f x = false) l → List.filter f l = [].
Proof. induction 1 as [|x l Hx _ IH]; simpl; [done|]. by rewrite Hx. Qed.

(** An update whose assignment keeps [p] as it was keeps [existsb p]. *)
Lemma existsb_sql_update {A} (p cond : A → bool) (set : A → A) (rows : list A) :
  (∀ r, p (set r) = p r) →
  existsb p (sql_update cond set rows) = existsb p rows.
Proof.
  intros H. induction rows as [|r rows IH]; simpl; [done|].
  rewrite IH. by destruct (cond r); rewrite ?H.
Qed.

(** ** Finalization *)

Lemma finalize_lock_none room_id now d :
  question_open room_id d = false → finalize_lock room_id now d = (None, d).
Proof.
  unfold question_open, finalize_lock. intros H.
  by rewrite find_none_existsb, sql_update_none, with_rooms_same.
Qed.

Lemma finalize_lock_some room_id now d :
  question_open room_id d = true → is_Some (fst (finalize_lock room_id now d)).
Proof.
  unfold question_open, finalize_lock. intros H. simpl.
  destruct (find_some_existsb _ _ H) as [r ->]. by eexists.
Qed.

(** After the write no row of the room is in [QUESTION]. *)
Lemma finalize_lock_closes room_id now d :
  question_open room_id (snd (finalize_lock room_id now d)) = false.
Proof.
  unfold question_open, finalize_lock. simpl.
  induction (rooms d) as [|r rows IH]; simpl; [done|].
  rewrite IH, orb_false_r.
  destruct (finalize_cond room_id r) eqn:E; [|done].
  unfold finalize_cond in *. simpl. apply andb_false_r.
Qed.

Lemma score_answers_rooms correct duration ends_at room_id now l d :
  rooms (fst (score_answers correct duration ends_at room_id now l d))
  = rooms d.
Proof.
  revert d. induction l as [|a l IH]; intros d; simpl; [done|].
  destruct (negb _); [apply IH|]. destruct ends_at; [|done].
  by rewrite IH.
Qed.

Lemma finish_locked_rooms pin now locked s :
  rooms (db (res_state (finish_locked pin now locked s))) = rooms (db s).
Proof.
  unfold finish_locked. destruct (question_at _); [|done].
  match goal with |- context [score_answers ?c ?du ?e ?i ?n ?l ?d] =>
    pose proof (score_answers_rooms c du e i n l d) as H;
    destruct (score_answers c du e i n l d) as [d' [x|]]
  end; done.
Qed.

Lemma finish_commit_closes pin room_id now s :
  question_open room_id (db (res_state (finish_commit pin room_id now s)))
  = false.
Proof.
  unfold finish_commit.
  pose proof (finalize_lock_closes room_id now (db s)) as H.
  destruct (finalize_lock room_id now (db s)) as [[locked|] d]; simpl in *.
  - unfold question_open in *. by rewrite finish_locked_rooms.
  - done.
Qed.

(** The write changed no row: the attempt is over, and nothing has moved. *)
Lemma finish_commit_lost pin room_id now s :
  question_open room_id (db s) = false →
  finish_commit pin room_id now s = done s [].
Proof.
  intros H. unfold finish_commit.
  by rewrite finalize_lock_none, with_db_same.
Qed.

Lemma run_ops_lost room_id ops s :
  (∀ f, Other f ∈ ops → ∀ s', question_open room_id (db s') = false →
        question_open room_id (db (f s')) = false) →
  question_open room_id (db s) = false →
  Forall (λ a, at_locked a = false) (run_ops room_id ops s).
Proof.
  revert s. induction ops as [|[pin now|f] ops IH]; intros s Hother Hs; simpl.
  - constructor.
  - constructor; [done|]. apply IH.
    + intros f Hf. apply Hother. by right.
    + apply finish_commit_closes.
  - apply IH.
    + intros g Hg. apply Hother. by right.
    + apply Hother; [by left | done].
Qed.

(** C1.  Among attempts to finalize one room that meet at the store, with
    anything in between that does not put the room back into QUESTION: at
    most one attempt's conditional write changes a row, and every attempt
    whose write changes none returns with the whole state as it found it and
    no event; so does any single call whose write changes no row, and the
    handler itself was either not due or is such a call. *)
Theorem finalize_at_most_once (room_id : Z) (ops : list Op) (s : State) :
  (∀ f, Other f ∈ ops → ∀ s', question_open room_id (db s') = false →
        question_open room_id (db (f s')) = false) →
  (length (List.filter at_locked (run_ops room_id ops s)) ≤ 1)%nat
  ∧ Forall (λ a, at_locked a = false → at_result a = done (at_before a) [])
      (run_ops room_id ops s)
  ∧ (∀ pin now, question_open room_id (db s) = false →
       finish_commit pin room_id now s = done s [])
  ∧ (∀ pin utc now,
       finish_question_if_due pin utc now s = done s []
       ∨ ∃ id, finish_due pin utc s = Some id
               ∧ finish_question_if_due pin utc now s
                 = finish_commit pin id now s).
Proof.
  intros Hother. split; [|split; [|split]].
  - revert s. induction ops as [|[pin now|f] ops IH]; intros s; simpl; [lia| |].
    + destruct (question_open room_id (db s)) eqn:E; simpl.
      * assert (Hrest : Forall (λ a, at_locked a = false)
                  (run_ops room_id ops
                     (res_state (finish_commit pin room_id now s)))).
        { apply run_ops_lost; [|apply finish_commit_closes].
          intros f Hf. apply Hother. by right. }
        rewrite filter_none; [simpl; lia | done].
      * apply IH. intros f Hf. apply Hother. by right.
    + apply IH. intros g Hg. apply Hother. by right.
  - clear Hother. revert s.
    induction ops as [|[pin now|f] ops IH]; intros s; simpl; [constructor| |].
    + constructor; [|apply IH]. simpl. apply finish_commit_lost.
    + apply IH.
  - intros pin now. apply finish_commit_lost.
  - intros pin utc now. unfold finish_question_if_due.
    destruct (finish_due pin utc s) as [id|]; [right; by exists id | by left].
Qed.

(** ** Scoring *)

Lemma bonus_for_shift duration ends_at answered_at :
  bonus_for duration ends_at answered_at
  = bonus_for duration (ends_at - answered_at) 0.
Proof. unfold bonus_for. by rewrite Z.sub_0_r. Qed.

Lemma bonus_for_nonneg duration ends_at answered_at :
  0 ≤ bonus_for duration ends_at answered_at.
Proof. unfold bonus_for. simpl. case Z.ltb_spec; lia. Qed.

(** Durations up to an hour, by evaluation in binary64. *)
Lemma points_at_the_ends_upto_3600 :
  forallb
    (λ n, let d := Z.of_nat n in
          (points_for d 0 0 =? 1000) && (points_for d (seconds d) 0 =? 1500))
    (seq 1 3600) = true.
Proof. vm_compute. reflexivity. Qed.

Lemma points_at_the_ends duration ends_at :
  1 ≤ duration ≤ 3600 →
  points_for duration ends_at ends_at = 1000
  ∧ points_for duration ends_at (ends_at - seconds duration) = 1500.
Proof.
  intros Hd. unfold points_for.
  rewrite (bonus_for_shift _ ends_at ends_at),
    (bonus_for_shift _ ends_at (ends_at - _)).
  replace (ends_at - ends_at) with 0 by lia.
  replace (ends_at - (ends_at - seconds duration)) with (seconds duration) by lia.
  pose proof points_at_the_ends_upto_3600 as H.
  rewrite forallb_forall in H.
  assert (Hin : In (Z.to_nat duration) (seq 1 3600)) by (apply in_seq; lia).
  apply H in Hin. cbv zeta in Hin. rewrite Z2Nat.id in Hin by lia.
  apply andb_prop in Hin as [H1 H2].
  unfold points_for in *. lia.
Qed.

Lemma with_players_twice ps ps' d :
  with_players ps (with_players ps' d) = with_players ps d.
Proof. done. Qed.

Lemma award_as_map correct duration e room_id now a d :
  bool_decide (a_option_index a = correct) = true →
  award (points_for duration e (a_answered_at a)) room_id (a_player_token a)
    now d
  = with_players (map (award_one correct duration e room_id now a) (players d)) d.
Proof.
  intros H. unfold award, sql_update, award_one. by rewrite H.
Qed.

Lemma score_answers_players correct duration e room_id now l d :
  score_answers correct duration (Some e) room_id now l d
  = (with_players
       (map (λ p, foldl (λ p a, award_one correct duration e room_id now a p) p l)
          (players d)) d, None).
Proof.
  revert d. induction l as [|a l IH]; intros d; simpl.
  - by rewrite map_id, with_players_same.
  - destruct (bool_decide (a_option_index a = correct)) eqn:E; simpl.
    + rewrite IH, (award_as_map correct) by done. simpl.
      by rewrite with_players_twice, map_map.
    + rewrite IH. do 2 f_equal. apply map_ext. intros p.
      unfold award_one at 3. by rewrite E.
Qed.

Lemma award_one_key correct duration e room_id now a p :
  p_room_id (award_one correct duration e room_id now a p) = p_room_id p
  ∧ p_player_token (award_one correct duration e room_id now a p)
    = p_player_token p.
Proof. unfold award_one. by destruct (_ && _). Qed.

Lemma gained_key correct duration e room_id l p p' :
  p_room_id p' = p_room_id p → p_player_token p' = p_player_token p →
  gained correct duration e room_id l p'
  = gained correct duration e room_id l p.
Proof. intros H1 H2. unfold gained. by rewrite H1, H2. Qed.

Lemma award_one_score correct duration e room_id now a p :
  p_score (award_one correct duration e room_id now a p)
  = p_score p
    + (if bool_decide (p_room_id p = room_id)
          && bool_decide (p_player_token p = a_player_token a)
       then answer_points correct duration e a else 0).
Proof.
  unfold award_one, answer_points.
  destruct (bool_decide (a_option_index a = correct)); simpl;
    destruct (_ && _); simpl; lia.
Qed.

Lemma awards_score correct duration e room_id now l p :
  p_score (foldl (λ p a, award_one correct duration e room_id now a p) p l)
  = p_score p + gained correct duration e room_id l p.
Proof.
  revert p. induction l as [|a l IH]; intros p; simpl; [lia|].
  rewrite IH, award_one_score.
  destruct (award_one_key correct duration e room_id now a p) as [H1 H2].
  rewrite (gained_key _ _ _ _ _ p) by done.
  fold (gained correct duration e room_id l p). lia.
Qed.

(** C2, as the code has it: the arithmetic is Python's, in binary64.  At
    finalization every player's score grows by what the stored answers of
    the question earn: an answer with the correct option earns
    [1000 + bonus_for], the bonus being
    [int((time_left / max(1, duration)) * 500)] with [time_left] the
    seconds from [answered_at] to [ends_at], neither below 0; any other
    answer, and no answer, earns 0.  For a duration of 1 to 3600 seconds a
    correct answer at the deadline earns 1000 and one a full duration before
    it earns 1500. *)
Theorem scoring_adds_points (pin : string) (now : Z) (locked : Room)
    (s : State) (q : Question) (e : Z) :
  question_at (r_current_question_index locked) = Some q →
  r_question_ends_at locked = Some e →
  let l := answers_for (r_id locked) (r_current_question_index locked) (db s) in
  let r := finish_locked pin now locked s in
  res_exn r = None
  ∧ map p_score (players (db (res_state r)))
    = map (λ p, p_score p
                + gained (q_correct_index q) (q_duration q) e (r_id locked) l p)
        (players (db s))
  ∧ (∀ a, a_option_index a = q_correct_index q →
          answer_points (q_correct_index q) (q_duration q) e a
          = 1000 + bonus_for (q_duration q) e (a_answered_at a)
          ∧ 0 ≤ bonus_for (q_duration q) e (a_answered_at a))
  ∧ (∀ a, a_option_index a ≠ q_correct_index q →
          answer_points (q_correct_index q) (q_duration q) e a = 0)
  ∧ (∀ p, gained (q_correct_index q) (q_duration q) e (r_id locked) [] p = 0)
  ∧ (∀ duration ends_at, 1 ≤ duration ≤ 3600 →
       points_for duration ends_at ends_at = 1000
       ∧ points_for duration ends_at (ends_at - seconds duration) = 1500).
Proof.
  intros Hq He l r. subst l r. unfold finish_locked. rewrite Hq, He.
  rewrite score_answers_players. simpl.
  split; [done|]. split; [|split; [|split; [|split]]].
  - rewrite map_map. apply map_ext. intros p. apply awards_score.
  - intros a Ha. unfold answer_points.
    rewrite bool_decide_eq_true_2 by done.
    split; [done | apply bonus_for_nonneg].
  - intros a Ha. unfold answer_points. by rewrite bool_decide_eq_false_2.
  - done.
  - intros. by apply points_at_the_ends.
Qed.

(** ** Handlers, one call at a time *)

Lemma insert_answer_answers room_id tok qi oi now d :
  ∃ new, answers (insert_answer room_id tok qi oi now d) = answers d ++ new
         ∧ (length new ≤ 1)%nat.
Proof.
  unfold insert_answer. simpl. destruct (negb _).
  - eexists. split; [done | simpl; lia].
  - exists []. split; [by rewrite app_nil_r | simpl; lia].
Qed.

Lemma update_room_answers id f d : answers (update_room id f d) = answers d.
Proof. done. Qed.

Lemma update_room_players id f d : players (update_room id f d) = players d.
Proof. done. Qed.

Section OneCall.

Variable uuid_str : string → option string.

(** What [submit_answer] stores: a call of [submit_answer] that
    changes the table of answers has read a room in QUESTION whose
    deadline is not before the process clock ([utc <= question_ends_at]:
    a call at the very deadline still stores), and it does no more than
    append one row. *)
Lemma submit_answer_stores sid t utc now data s :
  let r := submit_answer uuid_str sid t utc now data s in
  (∃ new, answers (db (res_state r)) = answers (db s) ++ new
          ∧ (length new ≤ 1)%nat)
  ∧ (answers (db (res_state r)) ≠ answers (db s) →
     ∃ pin room e,
       ad_pin data = Some pin
       ∧ get_room_by_pin pin (db s) = Some room
       ∧ r_state room = QUESTION
       ∧ r_question_ends_at room = Some e
       ∧ utc ≤ e).
Proof.
  unfold submit_answer.
  destruct (is_rate_limited _ _ _ _ _) as [limited rl].
  assert (Hnil : ∃ new : list Answer,
             answers (db s) = answers (db s) ++ new ∧ (length new ≤ 1)%nat).
  { exists []. split; [by rewrite app_nil_r | simpl; lia]. }
  repeat (split_match; simpl_res; try (split; [exact Hnil | done])).
  split.
  - apply insert_answer_answers.
  - intros _. eexists _, _, _. repeat split; try eassumption.
    + match goal with H : negb (require_room_state _ _) = false |- _ =>
        apply negb_false_iff in H; unfold require_room_state in H;
        apply bool_decide_eq_true in H;
        by apply list_elem_of_singleton in H
      end.
    + lia.
Qed.

Lemma verify_host_inl sid data s room :
  verify_host_and_get_room sid data s = inl room →
  ∃ pin tok meta,
    hd_pin data = Some pin ∧ hd_host_token data = Some tok
    ∧ get_room_by_pin pin (db s) = Some room
    ∧ r_host_token room = tok
    ∧ socket_index s !! sid = Some meta
    ∧ m_role meta = RoleHost ∧ m_pin meta = pin.
Proof.
  unfold verify_host_and_get_room.
  destruct (hd_pin data) as [pin|], (hd_host_token data) as [tok|];
    simpl; rewrite ?orb_true_r; try done.
  repeat (split_match; try done). intros [= <-].
  bool_facts. eexists pin, tok, _. by repeat split.
Qed.

Lemma state_not_allowed room st :
  r_state room ≠ st → negb (require_room_state room [st]) = true.
Proof.
  intros H. apply negb_true_iff, bool_decide_eq_false.
  by intros Heq%list_elem_of_singleton.
Qed.

Lemma start_game_guard sid now data s pin room :
  hd_pin data = Some pin →
  get_room_by_pin pin (db s) = Some room →
  r_state room ≠ LOBBY →
  ∃ message, start_game sid now data s = done s [(ToSid sid, EvError message)]
    ∧ (verify_host_and_get_room sid data s = inl room →
       message = "start_game allowed only in LOBBY").
Proof.
  intros Hpin Hroom Hst. unfold start_game.
  destruct (verify_host_and_get_room sid data s) as [room'|msg] eqn:E.
  - apply verify_host_inl in E as (pin' & tok & meta & Hp & _ & Hr & _).
    assert (room' = room) as -> by congruence.
    rewrite state_not_allowed by done. eauto.
  - by eexists.
Qed.

Lemma next_question_guard sid now data s pin room :
  hd_pin data = Some pin →
  get_room_by_pin pin (db s) = Some room →
  r_state room ≠ RESULTS →
  ∃ message,
    next_question sid now data s = done s [(ToSid sid, EvError message)]
    ∧ (verify_host_and_get_room sid data s = inl room →
       message = "next_question allowed only in RESULTS").
Proof.
  intros Hpin Hroom Hst. unfold next_question.
  destruct (verify_host_and_get_room sid data s) as [room'|msg] eqn:E.
  - apply verify_host_inl in E as (pin' & tok & meta & Hp & _ & Hr & _).
    assert (room' = room) as -> by congruence.
    rewrite state_not_allowed by done. eauto.
  - by eexists.
Qed.

Lemma submit_answer_guard sid t utc now data s pin room :
  ad_pin data = Some pin →
  get_room_by_pin pin (db s) = Some room →
  r_state room ≠ QUESTION →
  let r := submit_answer uuid_str sid t utc now data s in
  db (res_state r) = db s
  ∧ socket_index (res_state r) = socket_index s
  ∧ groups (res_state r) = groups s
  ∧ res_out r = [] ∧ res_exn r = None.
Proof.
  intros Hpin Hroom Hst. unfold submit_answer.
  destruct (is_rate_limited _ _ _ _ _) as [limited rl].
  rewrite Hpin. destruct limited; [done|].
  destruct (ad_option data); [|done].
  destruct (ad_player_token data); [|done].
  simpl_res. rewrite Hroom, state_not_allowed by done. done.
Qed.

(** C4, as the code has it.  [start_game] on a room that is not in LOBBY
    and [next_question] on a room that is not in RESULTS leave the whole
    state as it was and send the caller one [error] event, which for a
    verified host is the state-guard message.  [submit_answer] on a room
    that is not in QUESTION leaves the store, the registry and the groups
    as they were and sends nothing: it is dropped without a word (the
    attempt counts in the caller's rate-limit bucket). *)
Theorem guard_rejections :
  (∀ sid now data s pin room,
     hd_pin data = Some pin →
     get_room_by_pin pin (db s) = Some room →
     r_state room ≠ LOBBY →
     ∃ message,
       start_game sid now data s = done s [(ToSid sid, EvError message)]
       ∧ (verify_host_and_get_room sid data s = inl room →
          message = "start_game allowed only in LOBBY"))
  ∧ (∀ sid now data s pin room,
       hd_pin data = Some pin →
       get_room_by_pin pin (db s) = Some room →
       r_state room ≠ RESULTS →
       ∃ message,
         next_question sid now data s = done s [(ToSid sid, EvError message)]
         ∧ (verify_host_and_get_room sid data s = inl room →
            message = "next_question allowed only in RESULTS"))
  ∧ (∀ sid t utc now data s pin room,
       ad_pin data = Some pin →
       get_room_by_pin pin (db s) = Some room →
       r_state room ≠ QUESTION →
       let r := submit_answer uuid_str sid t utc now data s in
       db (res_state r) = db s
       ∧ socket_index (res_state r) = socket_index s
       ∧ groups (res_state r) = groups s
       ∧ res_out r = [] ∧ res_exn r = None).
Proof.
  split; [|split].
  - intros. by eapply start_game_guard.
  - intros. by eapply next_question_guard.
  - intros. by eapply submit_answer_guard.
Qed.

Lemma Forall2_sql_update {A} (R : A → A → Prop) cond (set : A → A) rows :
  (∀ r, R r r) → (∀ r, R r (set r)) →
  Forall2 R rows (sql_update cond set rows).
Proof.
  intros Hrefl Hset. induction rows as [|r rows IH]; simpl; constructor;
    [by destruct (cond r) | done].
Qed.

Lemma Forall2_same {A} (R : A → A → Prop) rows :
  (∀ r, R r r) → Forall2 R rows rows.
Proof. intros H. induction rows; by constructor. Qed.

Lemma reconnect_player_frame sid now data s :
  let r := reconnect_player uuid_str sid now data s in
  Forall2 touched_only (rooms (db s)) (rooms (db (res_state r)))
  ∧ Forall2 same_player (players (db s)) (players (db (res_state r)))
  ∧ answers (db (res_state r)) = answers (db s)
  ∧ rate_limits (res_state r) = rate_limits s.
Proof.
  unfold reconnect_player.
  assert (Hr : ∀ r, touched_only r r) by (by repeat split).
  assert (Hp : ∀ p, same_player p p) by (by repeat split).
  repeat (split_match; simpl_res;
          try (by repeat split; apply Forall2_same)).
  unfold touch_room_activity, update_room, register. simpl.
  repeat split.
  - by apply Forall2_sql_update.
  - by apply Forall2_sql_update.
Qed.

Lemma reconnect_host_frame sid now data s :
  let r := reconnect_host uuid_str sid now data s in
  Forall2 same_game (rooms (db s)) (rooms (db (res_state r)))
  ∧ players (db (res_state r)) = players (db s)
  ∧ answers (db (res_state r)) = answers (db s)
  ∧ rate_limits (res_state r) = rate_limits s.
Proof.
  unfold reconnect_host.
  assert (Hr : ∀ r, same_game r r) by (by repeat split).
  repeat (split_match; simpl_res;
          try (by repeat split; apply Forall2_same)).
  unfold update_room, register. simpl.
  repeat split. by apply Forall2_sql_update.
Qed.

(** A reconnection that is answered with the hydration payload has
    registered the connection and entered it into the room's group. *)
Lemma reconnect_player_registers sid now data s st score idx qv rv :
  (ToSid sid, EvReconnected st score idx qv rv)
    ∈ res_out (reconnect_player uuid_str sid now data s) →
  ∃ pin tok,
    pd_pin data = Some pin
    ∧ uuid_str (Py.or_empty (pd_player_token data)) = Some tok
    ∧ socket_index (res_state (reconnect_player uuid_str sid now data s))
        !! sid
      = Some {| m_pin := pin; m_role := RolePlayer; m_token := tok |}
    ∧ (sid, pin) ∈ groups (res_state (reconnect_player uuid_str sid now data s))
    ∧ ∃ p, p ∈ players (db (res_state (reconnect_player uuid_str sid now data s)))
           ∧ p_player_token p = tok ∧ p_connected p = true.
Proof.
  unfold reconnect_player.
  destruct (pd_pin data) as [pin|]; simpl;
    [|by intros [=]%list_elem_of_singleton].
  repeat (split_match; simpl_res; try by intros [=]%list_elem_of_singleton).
  intros _. exists pin, s0. repeat split.
  - unfold register. simpl. by rewrite lookup_insert_eq.
  - unfold register. simpl. set_solver.
  - apply find_some in E2 as [Hin Hc]. bool_facts.
    exists (set_connected true now p). repeat split; [|done].
    unfold touch_room_activity, update_room, register, sql_update. simpl.
    apply list_elem_of_In, in_map_iff. exists p. split; [|done].
    by rewrite bool_decide_eq_true_2.
Qed.

Lemma reconnect_host_registers sid now data s st idx ps qv rv :
  (ToSid sid, EvHostReconnected st idx ps qv rv)
    ∈ res_out (reconnect_host uuid_str sid now data s) →
  ∃ pin tok room,
    hd_pin data = Some pin
    ∧ uuid_str (Py.or_empty (hd_host_token data)) = Some tok
    ∧ get_room_by_pin pin (db s) = Some room
    ∧ socket_index (res_state (reconnect_host uuid_str sid now data s))
        !! sid
      = Some {| m_pin := pin; m_role := RoleHost; m_token := tok |}
    ∧ (sid, pin) ∈ groups (res_state (reconnect_host uuid_str sid now data s))
    ∧ rooms (db (res_state (reconnect_host uuid_str sid now data s)))
      = sql_update (λ r, bool_decide (r_id r = r_id room))
          (set_host_online now) (rooms (db s)).
Proof.
  unfold reconnect_host.
  destruct (hd_pin data) as [pin|]; simpl;
    [|by intros [=]%list_elem_of_singleton].
  repeat (split_match; simpl_res; try by intros [=]%list_elem_of_singleton).
  intros _. eexists pin, _, _. repeat split; try done.
  - unfold register. simpl. by rewrite lookup_insert_eq.
  - unfold register. simpl. set_solver.
Qed.

(** C6, as the code has it.  A reconnection never changes, in any room
    row, the id, pin, host token, state, question index,
    [question_started_at], [question_ends_at], [created_at] or
    [closed_at]; a player's reconnection changes in room rows nothing but
    [last_activity_at] (it calls [touch_room_activity]), and in player
    rows nothing but [connected] and [last_seen_at]; a host's reconnection
    changes [host_connected], [host_disconnected_at] and
    [last_activity_at] of its room and no player row.  Answers and
    rate-limit buckets stay.  When the hydration payload is sent, the
    connection is registered under its role, pin and token and is in the
    room's group. *)
Theorem reconnect_frame :
  (∀ sid now data s,
     let r := reconnect_player uuid_str sid now data s in
     Forall2 touched_only (rooms (db s)) (rooms (db (res_state r)))
     ∧ Forall2 same_player (players (db s)) (players (db (res_state r)))
     ∧ answers (db (res_state r)) = answers (db s)
     ∧ rate_limits (res_state r) = rate_limits s
     ∧ ∀ st score idx qv rv,
         (ToSid sid, EvReconnected st score idx qv rv) ∈ res_out r →
         ∃ pin tok,
           pd_pin data = Some pin
           ∧ uuid_str (Py.or_empty (pd_player_token data)) = Some tok
           ∧ socket_index (res_state r) !! sid
             = Some {| m_pin := pin; m_role := RolePlayer; m_token := tok |}
           ∧ (sid, pin) ∈ groups (res_state r)
           ∧ ∃ p, p ∈ players (db (res_state r))
                  ∧ p_player_token p = tok ∧ p_connected p = true)
  ∧ (∀ sid now data s,
       let r := reconnect_host uuid_str sid now data s in
       Forall2 same_game (rooms (db s)) (rooms (db (res_state r)))
       ∧ players (db (res_state r)) = players (db s)
       ∧ answers (db (res_state r)) = answers (db s)
       ∧ rate_limits (res_state r) = rate_limits s
       ∧ ∀ st idx ps qv rv,
           (ToSid sid, EvHostReconnected st idx ps qv rv) ∈ res_out r →
           ∃ pin tok room,
             hd_pin data = Some pin
             ∧ uuid_str (Py.or_empty (hd_host_token data)) = Some tok
             ∧ get_room_by_pin pin (db s) = Some room
             ∧ socket_index (res_state r) !! sid
               = Some {| m_pin := pin; m_role := RoleHost; m_token := tok |}
             ∧ (sid, pin) ∈ groups (res_state r)
             ∧ rooms (db (res_state r))
               = sql_update (λ r, bool_decide (r_id r = r_id room))
                   (set_host_online now) (rooms (db s))).
Proof.
  split.
  - intros sid now data s r.
    destruct (reconnect_player_frame sid now data s) as (H1 & H2 & H3 & H4).
    repeat split; try done. intros. by eapply reconnect_player_registers.
  - intros sid now data s r.
    destruct (reconnect_host_frame sid now data s) as (H1 & H2 & H3 & H4).
    repeat split; try done. intros. by eapply reconnect_host_registers.
Qed.

End OneCall.

(** ** What every reachable state satisfies *)

Lemma last_started_app pin log out :
  last_started pin (log ++ out)
  = match last_started pin out with
    | Some x => Some x
    | None => last_started pin log
    end.
Proof.
  induction log as [|[target event] log IH]; simpl.
  - by destruct (last_started pin out).
  - rewrite IH. by destruct (last_started pin out).
Qed.

Lemma get_room_by_pin_some pin d room :
  get_room_by_pin pin d = Some room →
  room ∈ rooms d ∧ r_pin room = pin ∧ r_closed_at room = None.
Proof.
  unfold get_room_by_pin, is_open. intros [Hin H]%find_some. bool_facts.
  by rewrite list_elem_of_In.
Qed.

Lemma NoDup_map_eq {A B} (f : A → B) (l : list A) x y :
  NoDup (map f l) → x ∈ l → y ∈ l → f x = f y → x = y.
Proof.
  induction l as [|a l IH]; simpl; [by intros _ ?%elem_of_nil|].
  intros [Hnot Hnd]%NoDup_cons Hx Hy Heq.
  apply elem_of_cons in Hx as [->|Hx], Hy as [->|Hy]; try done.
  - exfalso. apply Hnot. rewrite Heq. apply list_elem_of_In, in_map.
    by apply list_elem_of_In.
  - exfalso. apply Hnot. rewrite <- Heq. apply list_elem_of_In, in_map.
    by apply list_elem_of_In.
  - by apply IH.
Qed.

Lemma map_sql_update {A B} (g : A → B) cond (set : A → A) rows :
  (∀ r, g (set r) = g r) → map g (sql_update cond set rows) = map g rows.
Proof.
  intros H. unfold sql_update. rewrite map_map. apply map_ext.
  intros r. by destruct (cond r).
Qed.

Lemma elem_of_sql_update {A} (cond : A → bool) (set : A → A) rows r' :
  r' ∈ sql_update cond set rows →
  ∃ r, r ∈ rows ∧ r' = if cond r then set r else r.
Proof.
  unfold sql_update. rewrite list_elem_of_In, in_map_iff.
  intros (r & <- & Hin). exists r. by rewrite list_elem_of_In.
Qed.

Lemma elem_of_sql_update_2 {A} (cond : A → bool) (set : A → A) rows r :
  r ∈ rows → (if cond r then set r else r) ∈ sql_update cond set rows.
Proof.
  unfold sql_update. rewrite !list_elem_of_In. intros H.
  apply in_map_iff. by exists r.
Qed.

Section Invariant.

Variable uuid_str : string → option string.

Lemma inv_log s log out : Inv s log → quiet out → Inv s (log ++ out).
Proof.
  intros [] Hq. split; try done.
  intros r Hr Ho Hs. destruct (inv_question0 r Hr Ho Hs) as (e & q & ? & ? & ?).
  exists e, q. repeat split; try done. by rewrite last_started_app, Hq.
Qed.

(** The invariant reads the rooms, their sequence and the registry. *)
Lemma inv_view s s' log :
  Inv s log →
  rooms (db s') = rooms (db s) → rooms_seq (db s') = rooms_seq (db s) →
  socket_index s' = socket_index s →
  Inv s' log.
Proof. intros [] H1 H2 H3. split; rewrite ?H1, ?H2, ?H3; done. Qed.

Lemma inv_rooms_update s log cond f out :
  Inv s log →
  (∀ r, ident (f r) = ident r) →
  (∀ r, r ∈ rooms (db s) → cond r = true →
        r_closed_at (f r) ≠ None → r_state (f r) = FINISHED) →
  (∀ r, r ∈ rooms (db s) →
        let r' := if cond r then f r else r in
        r_closed_at r' = None → r_state r' = QUESTION →
        ∃ e q,
          r_question_ends_at r' = Some e
          ∧ question_at (r_current_question_index r') = Some q
          ∧ last_started (r_pin r) (log ++ out)
            = Some (r_current_question_index r', q_text q, q_options q,
                    Py.timestamp e)) →
  Inv (with_db (with_rooms (sql_update cond f (rooms (db s))) (db s)) s)
    (log ++ out).
Proof.
  intros [] Hid Hcl Hq.
  assert (Hi : ∀ r, r_id (f r) = r_id r) by (intros r; by injection (Hid r)).
  assert (Hp : ∀ r, r_pin (f r) = r_pin r) by (intros r; by injection (Hid r)).
  assert (Ht : ∀ r, r_host_token (f r) = r_host_token r)
    by (intros r; by injection (Hid r)).
  split; simpl.
  - by rewrite map_sql_update.
  - rewrite list.Forall_forall in *.
    intros r' (r & Hr & ->)%elem_of_sql_update.
    specialize (inv_seq0 r Hr). destruct (cond r); by rewrite ?Hi.
  - by rewrite map_sql_update.
  - intros r' (r & Hr & ->)%elem_of_sql_update Hc.
    destruct (cond r) eqn:E; [by apply Hcl | by apply inv_closed0].
  - intros sid m Hm Hrole.
    destruct (inv_hosts0 sid m Hm Hrole) as (r & Hr & H1 & H2).
    exists (if cond r then f r else r). split; [by apply elem_of_sql_update_2|].
    destruct (cond r); by rewrite ?Hp, ?Ht.
  - intros r' (r & Hr & ->)%elem_of_sql_update Hc Hs.
    destruct (Hq r Hr Hc Hs) as (e & q & ? & ? & ?). exists e, q.
    repeat split; try done. by destruct (cond r); rewrite ?Hp.
Qed.

Lemma neutral_last_activity now : neutral (set_last_activity now).
Proof. by intros r. Qed.

Lemma neutral_host_offline now : neutral (set_host_offline now).
Proof. by intros r. Qed.

Lemma neutral_host_online now : neutral (set_host_online now).
Proof. by intros r. Qed.

Lemma inv_neutral s log id f :
  neutral f → Inv s log → Inv (with_db (update_room id f (db s)) s) log.
Proof.
  intros Hf HI. rewrite <- (app_nil_r log). unfold update_room.
  apply inv_rooms_update; [done | intros r; apply Hf | |].
  - intros r Hr _ Hc. destruct (Hf r) as (_ & -> & _ & _ & Hcl).
    rewrite Hcl in Hc. by eapply inv_closed.
  - intros r Hr r' Hc Hs. rewrite app_nil_r.
    assert (r_state r' = r_state r ∧ r_closed_at r' = r_closed_at r
            ∧ r_current_question_index r' = r_current_question_index r
            ∧ r_question_ends_at r' = r_question_ends_at r)
      as (H1 & H2 & H3 & H4).
    { subst r'. destruct (bool_decide _); [|done].
      by destruct (Hf r) as (_ & -> & -> & -> & ->). }
    rewrite H1 in Hs. rewrite H2 in Hc. rewrite H3, H4.
    by eapply inv_question.
Qed.

Lemma inv_set_closed s log id now :
  Inv s log → Inv (with_db (update_room id (set_closed now) (db s)) s) log.
Proof.
  intros HI. rewrite <- (app_nil_r log). unfold update_room.
  apply inv_rooms_update; try done.
  intros r Hr r'. subst r'. rewrite app_nil_r.
  destruct (bool_decide _); [done|]. by eapply inv_question.
Qed.

Lemma inv_finalize_lock s log id now :
  Inv s log → Inv (with_db (snd (finalize_lock id now (db s))) s) log.
Proof.
  intros HI. rewrite <- (app_nil_r log). unfold finalize_lock. simpl.
  apply inv_rooms_update; try done.
  - intros r Hr Hc Hcl. unfold finalize_cond in Hc. bool_facts.
    simpl in Hcl. pose proof (inv_closed _ _ HI r Hr Hcl). congruence.
  - intros r Hr r'. subst r'. rewrite app_nil_r.
    destruct (finalize_cond id r); [done|]. by eapply inv_question.
Qed.

Lemma inv_set_index s log room i now :
  Inv s log → room ∈ rooms (db s) → r_state room ≠ QUESTION →
  Inv (with_db (update_room (r_id room) (set_question_index i now) (db s)) s)
    log.
Proof.
  intros HI Hroom Hst. rewrite <- (app_nil_r log). unfold update_room.
  apply inv_rooms_update; try done.
  - intros r Hr _ Hcl. simpl in *. by eapply inv_closed.
  - intros r Hr r'. subst r'. rewrite app_nil_r.
    destruct (bool_decide (r_id r = r_id room)) eqn:E;
      [|by eapply inv_question].
    bool_facts. intros _ Hs. simpl in Hs.
    assert (r = room) as -> by (eapply NoDup_map_eq; [apply HI|..]; done).
    done.
Qed.

Lemma inv_set_question s log room q now :
  Inv s log → room ∈ rooms (db s) → r_closed_at room = None →
  question_at (r_current_question_index room) = Some q →
  Inv (with_db (update_room (r_id room) (set_question (q_duration q) now)
                  (db s)) s)
    (log ++ [(ToRoom (r_pin room),
              EvQuestionStarted (r_current_question_index room) (q_text q)
                (q_options q)
                (Py.timestamp (now + seconds (q_duration q))))]).
Proof.
  intros HI Hroom Hopen Hq. unfold update_room.
  apply inv_rooms_update; try done.
  - intros r Hr Hc Hcl. bool_facts. simpl in Hcl.
    assert (r = room) as -> by (eapply NoDup_map_eq; [apply HI|..]; done).
    done.
  - intros r Hr r'. subst r'. rewrite last_started_app.
    destruct (bool_decide (r_id r = r_id room)) eqn:E; bool_facts.
    + assert (r = room) as -> by (eapply NoDup_map_eq; [apply HI|..]; done).
      intros _ _. eexists _, q. simpl. rewrite bool_decide_eq_true_2 by done.
      by repeat split.
    + intros Hc Hs. simpl.
      rewrite bool_decide_eq_false_2; [by eapply inv_question|].
      intros Hp. apply E. f_equal. symmetry.
      eapply (NoDup_map_eq r_pin); [apply HI|..]; done.
Qed.

Lemma inv_register s log sid meta :
  Inv s log →
  (m_role meta = RoleHost →
   ∃ r, r ∈ rooms (db s) ∧ r_pin r = m_pin meta
        ∧ r_host_token r = m_token meta) →
  Inv (register sid meta s) log.
Proof.
  intros [] H. split; try done.
  intros sid' m. unfold register. simpl.
  rewrite lookup_insert. case_decide as E.
  - intros [= <-]. apply H.
  - apply inv_hosts0.
Qed.

Lemma inv_unregister s log sid : Inv s log → Inv (unregister sid s) log.
Proof.
  intros []. split; try done.
  intros sid' m. unfold unregister. simpl.
  rewrite lookup_delete. case_decide; [done | apply inv_hosts0].
Qed.

Lemma inv_init : Inv init [].
Proof.
  split; simpl; try done; try constructor.
  - by intros r ?%elem_of_nil.
  - by intros r ?%elem_of_nil.
Qed.

(** The same, about a store that the handler has already written to. *)
Lemma inv_db_rooms s log d d' :
  rooms d' = rooms d → rooms_seq d' = rooms_seq d →
  Inv (with_db d s) log → Inv (with_db d' s) log.
Proof. intros H1 H2 HI. by eapply inv_view. Qed.

Lemma inv_with_db s log : Inv s log → Inv (with_db (db s) s) log.
Proof. by rewrite with_db_same. Qed.

Lemma inv_rate_limits s log rl : Inv s log → Inv (with_rate_limits rl s) log.
Proof. intros HI. by eapply inv_view. Qed.

Lemma inv_neutral_db s log id f d :
  neutral f → Inv (with_db d s) log →
  Inv (with_db (update_room id f d) s) log.
Proof. intros Hf HI. exact (inv_neutral (with_db d s) log id f Hf HI). Qed.

Lemma find_sql_update {A} (P cond : A → bool) (set : A → A) rows :
  (∀ r, P (set r) = P r) →
  List.find P (sql_update cond set rows)
  = (λ r, if cond r then set r else r) <$> List.find P rows.
Proof.
  intros H. induction rows as [|r rows IH]; simpl; [done|].
  destruct (cond r) eqn:E; rewrite ?H; destruct (P r); simpl;
    by rewrite ?E.
Qed.

Lemma get_room_by_pin_update pin id f d :
  (∀ r, r_pin (f r) = r_pin r ∧ r_closed_at (f r) = r_closed_at r) →
  get_room_by_pin pin (update_room id f d)
  = (λ r, if bool_decide (r_id r = id) then f r else r)
      <$> get_room_by_pin pin d.
Proof.
  intros H. unfold get_room_by_pin, update_room. simpl.
  apply find_sql_update. intros r. unfold is_open.
  by destruct (H r) as [-> ->].
Qed.

(** What [start_question] does when it has read an open room in LOBBY or
    RESULTS whose index names a question. *)
Lemma start_question_eq pin now s room q :
  get_room_by_pin pin (db s) = Some room →
  require_room_state room [LOBBY; RESULTS] = true →
  question_at (r_current_question_index room) = Some q →
  start_question pin now s
  = done (with_db (update_room (r_id room)
                     (set_question (q_duration q) now) (db s)) s)
      [(ToRoom pin,
        EvQuestionStarted (r_current_question_index room) (q_text q)
          (q_options q) (Py.timestamp (now + seconds (q_duration q))))].
Proof.
  intros Hroom Hst Hq. unfold start_question.
  rewrite Hroom, Hst, Hq. simpl_res.
  rewrite get_room_by_pin_update, Hroom by done. simpl.
  by rewrite bool_decide_eq_true_2.
Qed.

Lemma inv_start_question pin now s log :
  Inv s log →
  Inv (res_state (start_question pin now s))
    (log ++ res_out (start_question pin now s)).
Proof.
  intros HI.
  destruct (get_room_by_pin pin (db s)) as [room|] eqn:Hroom;
    [|unfold start_question; rewrite Hroom; simpl; by rewrite app_nil_r].
  destruct (require_room_state room [LOBBY; RESULTS]) eqn:Hst;
    [|unfold start_question; rewrite Hroom, Hst; simpl; by rewrite app_nil_r].
  destruct (question_at (r_current_question_index room)) as [q|] eqn:Hq;
    [|unfold start_question; rewrite Hroom, Hst, Hq; simpl;
      by rewrite app_nil_r].
  rewrite (start_question_eq _ _ _ _ _ Hroom Hst Hq). simpl_res.
  apply get_room_by_pin_some in Hroom as (Hin & <- & Hopen).
  by apply inv_set_question.
Qed.

Lemma inv_insert_room s log pin tok now d b :
  Inv s log → insert_room pin tok now (db s) = (d, b) →
  Inv (with_db d s) log
  ∧ (b = true → ∃ r, r ∈ rooms d ∧ r_pin r = pin ∧ r_host_token r = tok).
Proof.
  intros HI. unfold insert_room.
  destruct (existsb _ _) eqn:E; intros [= <- <-].
  - split; [|done]. destruct HI. split; simpl; try done.
    eapply Forall_impl; [done|]. simpl. lia.
  - split.
    + destruct HI. split; simpl.
      * rewrite map_app. simpl. apply NoDup_app. split; [done|].
        split; [|apply NoDup_singleton].
        intros x Hx ->%list_elem_of_singleton.
        apply list_elem_of_In, in_map_iff in Hx as (r & Hr & Hin).
        rewrite list.Forall_forall in inv_seq0.
        apply list_elem_of_In, inv_seq0 in Hin. lia.
      * apply Forall_app. split.
        -- eapply Forall_impl; [done|]. simpl. lia.
        -- constructor; [simpl; lia | constructor].
      * rewrite map_app. simpl. apply NoDup_app. split; [done|].
        split; [|apply NoDup_singleton].
        intros x Hx ->%list_elem_of_singleton.
        apply list_elem_of_In, in_map_iff in Hx as (r & Hr & Hin).
        assert (existsb (λ r, bool_decide (r_pin r = pin)) (rooms (db s))
                = true); [|congruence].
        apply existsb_exists. exists r. split; [done|].
        by apply bool_decide_eq_true.
      * intros r [Hr| ->%list_elem_of_singleton]%elem_of_app;
          [by apply inv_closed0 | done].
      * intros sid m Hm Hrole.
        destruct (inv_hosts0 sid m Hm Hrole) as (r & Hr & ?).
        exists r. split; [|done]. apply elem_of_app. by left.
      * intros r [Hr| ->%list_elem_of_singleton]%elem_of_app;
          [by apply inv_question0 | done].
    + intros _. eexists. split.
      { simpl. apply elem_of_app. right. by apply list_elem_of_singleton. }
      done.
Qed.

Lemma score_answers_with_players correct duration ends_at room_id now l d :
  ∃ ps, fst (score_answers correct duration ends_at room_id now l d)
        = with_players ps d.
Proof.
  revert d. induction l as [|a l IH]; intros d; simpl.
  - exists (players d). by rewrite with_players_same.
  - destruct (negb _); [apply IH|]. destruct ends_at as [e|].
    + destruct (IH (award (points_for duration e (a_answered_at a)) room_id
                      (a_player_token a) now d)) as [ps ->].
      by exists ps.
    + exists (players d). by rewrite with_players_same.
Qed.

Lemma finish_locked_view pin now locked s :
  let r := finish_locked pin now locked s in
  rooms (db (res_state r)) = rooms (db s)
  ∧ rooms_seq (db (res_state r)) = rooms_seq (db s)
  ∧ socket_index (res_state r) = socket_index s
  ∧ quiet (res_out r).
Proof.
  unfold finish_locked. destruct (question_at _) as [q|]; [|done].
  match goal with |- context [score_answers ?c ?du ?e ?i ?n ?l ?d] =>
    destruct (score_answers_with_players c du e i n l d) as [ps H];
    destruct (score_answers c du e i n l d) as [d' [x|]]
  end; simpl in H; subst d'; done.
Qed.

Lemma for_each_preserves {A} (f : A → State → Result) (l : list A) :
  (∀ x, preserves (f x)) → preserves (for_each f l).
Proof.
  intros Hf. induction l as [|x l IH]; intros s log HI; simpl.
  - by rewrite app_nil_r.
  - destruct (res_exn (f x s)); [by apply Hf|]. simpl.
    rewrite app_assoc. apply IH. by apply Hf.
Qed.

Lemma close_room_preserves pin reason now :
  preserves (close_room pin reason now).
Proof.
  intros s log HI. unfold close_room.
  destruct (get_room_by_pin pin (db s)); simpl_res.
  - apply inv_log; [by apply inv_set_closed | done].
  - by rewrite app_nil_r.
Qed.

Lemma cleanup_task_preserves now : preserves (cleanup_task now).
Proof.
  intros s log HI. unfold cleanup_task.
  apply for_each_preserves; [|done]. intros pin. apply close_room_preserves.
Qed.

Lemma finish_commit_preserves pin room_id now :
  preserves (finish_commit pin room_id now).
Proof.
  intros s log HI. unfold finish_commit.
  pose proof (inv_finalize_lock s log room_id now HI) as HI'.
  destruct (finalize_lock room_id now (db s)) as [[locked|] d]; simpl in HI'.
  - destruct (finish_locked_view pin now locked (with_db d s))
      as (H1 & H2 & H3 & H4).
    apply inv_log; [|done]. by eapply inv_view.
  - simpl_res. by rewrite app_nil_r.
Qed.

Lemma finish_question_if_due_preserves pin utc now :
  preserves (finish_question_if_due pin utc now).
Proof.
  intros s log HI. unfold finish_question_if_due.
  destruct (finish_due pin utc s).
  - by apply finish_commit_preserves.
  - simpl. by rewrite app_nil_r.
Qed.

Lemma watchdog_task_preserves utc now : preserves (watchdog_task utc now).
Proof.
  intros s log HI. unfold watchdog_task.
  apply for_each_preserves; [|done].
  intros pin. apply finish_question_if_due_preserves.
Qed.

Lemma on_disconnect_preserves sid now :
  preserves (on_disconnect uuid_str sid now).
Proof.
  intros s log HI. unfold on_disconnect.
  repeat (split_match; simpl_res); rewrite app_nil_r;
    try done; try by apply inv_unregister.
  - apply inv_neutral; [apply neutral_host_offline | by apply inv_unregister].
  - eapply inv_view; [by apply (inv_unregister s log sid)|done..].
Qed.

Lemma create_room_preserves sid t now pins host_token :
  preserves (create_room sid t now pins host_token).
Proof.
  intros s log HI. unfold create_room.
  destruct (is_rate_limited _ _ _ _ _) as [limited rl].
  apply (inv_rate_limits _ _ rl) in HI.
  destruct limited; simpl_res; [by apply inv_log|].
  destruct (generate_unique_pin _ _) as [pin|]; simpl_res;
    [|by rewrite app_nil_r].
  destruct (insert_room _ _ _ _) as [d b] eqn:E.
  destruct (inv_insert_room _ _ _ _ _ _ _ HI E) as [HI' Hr].
  destruct b; simpl_res; [|by rewrite app_nil_r].
  apply inv_log; [|done]. apply inv_register; [done|]. intros _. by apply Hr.
Qed.

Lemma insert_player_rooms room_id tok name now d :
  rooms (fst (insert_player room_id tok name now d)) = rooms d
  ∧ rooms_seq (fst (insert_player room_id tok name now d)) = rooms_seq d.
Proof. unfold insert_player. by destruct (existsb _ _). Qed.

Lemma join_game_preserves sid t now data player_token :
  preserves (join_game sid t now data player_token).
Proof.
  intros s log HI. unfold join_game.
  destruct (is_rate_limited _ _ _ _ _) as [limited rl].
  apply (inv_rate_limits _ _ rl) in HI.
  repeat (split_match; simpl_res; try by apply inv_log);
    try by rewrite app_nil_r.
  - apply inv_log; [|done]. apply inv_register; [|done].
    apply inv_neutral_db; [apply neutral_last_activity|].
    match goal with H : insert_player ?a ?b ?c ?d ?e = _ |- _ =>
      destruct (insert_player_rooms a b c d e) as [H1 H2];
      rewrite H in H1, H2
    end.
    eapply inv_db_rooms; [..|by apply inv_with_db]; done.
  - rewrite app_nil_r.
    match goal with H : insert_player ?a ?b ?c ?d ?e = _ |- _ =>
      destruct (insert_player_rooms a b c d e) as [H1 H2];
      rewrite H in H1, H2
    end.
    eapply inv_db_rooms; [..|by apply inv_with_db]; done.
Qed.

Lemma reconnect_player_preserves sid now data :
  preserves (reconnect_player uuid_str sid now data).
Proof.
  intros s log HI. unfold reconnect_player.
  repeat (split_match; simpl_res; try by apply inv_log).
  apply inv_log; [|done]. apply inv_register; [|done].
  apply inv_neutral_db; [apply neutral_last_activity|].
  eapply inv_db_rooms; [..|by apply inv_with_db]; done.
Qed.

Lemma reconnect_host_preserves sid now data :
  preserves (reconnect_host uuid_str sid now data).
Proof.
  intros s log HI. unfold reconnect_host.
  repeat (split_match; simpl_res; try by apply inv_log).
  apply inv_log; [|done]. bool_facts.
  match goal with H : get_room_by_pin _ _ = Some ?room |- _ =>
    apply get_room_by_pin_some in H as (Hin & Hpin & Hopen)
  end.
  apply inv_register;
    [apply inv_neutral; [apply neutral_host_online | done]|].
  intros _. simpl. eexists. split.
  { unfold update_room. simpl. by apply elem_of_sql_update_2. }
  rewrite bool_decide_eq_true_2 by done. simpl. done.
Qed.

Lemma start_game_preserves sid now data :
  preserves (start_game sid now data).
Proof.
  intros s log HI. unfold start_game.
  destruct (verify_host_and_get_room sid data s) as [room|msg] eqn:E;
    simpl_res; [|by apply inv_log].
  apply verify_host_inl in E as (pin & tok & meta & _ & _ & Hr & _).
  apply get_room_by_pin_some in Hr as (Hin & _ & _).
  destruct (negb _) eqn:Hst; simpl_res; [by apply inv_log|].
  apply inv_start_question, inv_set_index; try done.
  unfold require_room_state in Hst. bool_facts.
  apply list_elem_of_singleton in Hst. congruence.
Qed.

Lemma next_question_preserves sid now data :
  preserves (next_question sid now data).
Proof.
  intros s log HI. unfold next_question.
  destruct (verify_host_and_get_room sid data s) as [room|msg] eqn:E;
    simpl_res; [|by apply inv_log].
  apply verify_host_inl in E as (pin & tok & meta & _ & _ & Hr & _).
  apply get_room_by_pin_some in Hr as (Hin & _ & _).
  destruct (negb _) eqn:Hst; simpl_res; [by apply inv_log|].
  destruct (_ <=? _); simpl_res.
  - apply inv_log; [by apply inv_set_closed | done].
  - apply inv_start_question, inv_set_index; try done.
    unfold require_room_state in Hst. bool_facts.
    apply list_elem_of_singleton in Hst. congruence.
Qed.

Lemma insert_answer_rooms room_id tok qi oi now d :
  rooms (insert_answer room_id tok qi oi now d) = rooms d
  ∧ rooms_seq (insert_answer room_id tok qi oi now d) = rooms_seq d.
Proof. done. Qed.

Lemma submit_answer_preserves sid t utc now data :
  preserves (submit_answer uuid_str sid t utc now data).
Proof.
  intros s log HI. unfold submit_answer.
  destruct (is_rate_limited _ _ _ _ _) as [limited rl].
  apply (inv_rate_limits _ _ rl) in HI.
  repeat (split_match; simpl_res; try by rewrite app_nil_r).
  rewrite app_nil_r. apply inv_neutral_db; [apply neutral_last_activity|].
  eapply inv_db_rooms; [..|by apply inv_with_db]; done.
Qed.

Lemma startup_preserves : preserves startup.
Proof.
  intros s log []. rewrite app_nil_r. by split.
Qed.

Lemma step_preserves a : preserves (step uuid_str a).
Proof.
  destruct a; simpl.
  - apply on_disconnect_preserves.
  - apply create_room_preserves.
  - apply join_game_preserves.
  - apply reconnect_player_preserves.
  - apply reconnect_host_preserves.
  - apply start_game_preserves.
  - apply next_question_preserves.
  - apply submit_answer_preserves.
  - apply watchdog_task_preserves.
  - apply cleanup_task_preserves.
  - apply startup_preserves.
Qed.

Lemma reachable_inv s log : reachable uuid_str s log → Inv s log.
Proof.
  induction 1 as [|s log a _ IH]; [apply inv_init | by apply step_preserves].
Qed.

(** A call that [verify_host_and_get_room] lets through comes over a
    connection registered as host of that pin with that very token. *)
Lemma verified_host_is_registered s log sid data room :
  Inv s log →
  verify_host_and_get_room sid data s = inl room →
  ∃ pin tok,
    hd_pin data = Some pin ∧ hd_host_token data = Some tok
    ∧ socket_index s !! sid
      = Some {| m_pin := pin; m_role := RoleHost; m_token := tok |}.
Proof.
  intros HI (pin & tok & meta & Hp & Ht & Hr & Htok & Hm & Hrole & Hmp)
    %verify_host_inl.
  exists pin, tok. repeat split; try done.
  destruct (inv_hosts _ _ HI sid meta Hm Hrole) as (r & Hin & Hrp & Hrt).
  apply get_room_by_pin_some in Hr as (Hin' & Hpin' & _).
  assert (r = room) as ->.
  { eapply (NoDup_map_eq r_pin); [apply HI|..]; congruence. }
  rewrite Hm. destruct meta; simpl in *. congruence.
Qed.

(** C5.  In every state the server reaches, a [start_game] or
    [next_question] whose caller's connection is not registered as host
    with exactly the pin and the host token it presents is answered with
    one [error] event and changes nothing; so a call that changes the
    state, or emits anything else, comes from a connection registered with
    that exact triple. *)
Theorem host_actions_need_registration (s : State) (log : list Emit)
    (sid : string) (now : Z) (data : HostData) :
  reachable uuid_str s log →
  (∀ pin tok,
     hd_pin data = Some pin → hd_host_token data = Some tok →
     socket_index s !! sid
     ≠ Some {| m_pin := pin; m_role := RoleHost; m_token := tok |}) →
  (∃ message,
     start_game sid now data s = done s [(ToSid sid, EvError message)])
  ∧ (∃ message,
       next_question sid now data s = done s [(ToSid sid, EvError message)]).
Proof.
  intros HI%reachable_inv Hnot.
  assert (∃ message, verify_host_and_get_room sid data s = inr message)
    as [message E].
  { destruct (verify_host_and_get_room sid data s) as [room|m] eqn:E;
      [|by eexists].
    destruct (verified_host_is_registered _ _ _ _ _ HI E)
      as (pin & tok & Hp & Ht & Hm).
    by destruct (Hnot pin tok Hp Ht). }
  unfold start_game, next_question. rewrite E. split; by eexists.
Qed.

Lemma hydrate_question_started s log room :
  Inv s log → room ∈ rooms (db s) → r_closed_at room = None →
  r_state room = QUESTION →
  ∃ qv, hydrate_question room = Some qv
        ∧ last_started (r_pin room) log
          = Some (r_current_question_index room, qv_text qv, qv_options qv,
                  qv_ends_at qv).
Proof.
  intros HI Hin Hopen Hst.
  destruct (inv_question _ _ HI room Hin Hopen Hst) as (e & q & He & Hq & Hl).
  unfold hydrate_question. rewrite bool_decide_eq_true_2, He, Hq by done.
  eexists. split; [done|]. by rewrite Hl.
Qed.

(** C7.  In every state the server reaches, a [reconnect_player] that is
    answered with the hydration payload has read an open room under the
    pin it was given, and when that room is in QUESTION the payload
    carries the question, with the index, text, options and [ends_at] of
    the latest [question_started] that was broadcast to the room. *)
Theorem hydration_matches_broadcast (s : State) (log : list Emit)
    (sid : string) (now : Z) (data : PlayerData) (st : RoomState)
    (score idx : Z) (question : option QuestionView)
    (results : option ResultsView) :
  reachable uuid_str s log →
  (ToSid sid, EvReconnected st score idx question results)
    ∈ res_out (reconnect_player uuid_str sid now data s) →
  ∃ pin room,
    pd_pin data = Some pin
    ∧ get_room_by_pin pin (db s) = Some room
    ∧ st = r_state room
    ∧ (st = QUESTION →
       ∃ qv, question = Some qv
             ∧ last_started pin log
               = Some (idx, qv_text qv, qv_options qv, qv_ends_at qv)).
Proof.
  intros HI%reachable_inv. unfold reconnect_player.
  destruct (pd_pin data) as [pin|]; simpl;
    [|by intros [=]%list_elem_of_singleton].
  repeat (split_match; simpl_res; try by intros [=]%list_elem_of_singleton).
  intros [= -> -> -> -> ->]%list_elem_of_singleton.
  eexists pin, _. repeat split; try done. intros Hst.
  match goal with H : get_room_by_pin _ _ = Some ?room |- _ =>
    apply get_room_by_pin_some in H as (Hin & <- & Hopen)
  end.
  by eapply hydrate_question_started.
Qed.

End Invariant.

(** ** Stored answers stay *)

Section Answers.

Variable uuid_str : string → option string.

Lemma for_each_answers {A} (f : A → State → Result) (l : list A) s :
  (∀ x s, answers (db (res_state (f x s))) = answers (db s)) →
  answers (db (res_state (for_each f l s))) = answers (db s).
Proof.
  intros Hf. revert s. induction l as [|x l IH]; intros s; simpl; [done|].
  destruct (res_exn (f x s)); [apply Hf|]. simpl. by rewrite IH, Hf.
Qed.

Lemma close_room_answers pin reason now s :
  answers (db (res_state (close_room pin reason now s))) = answers (db s).
Proof. unfold close_room. by destruct (get_room_by_pin _ _). Qed.

Lemma finish_locked_answers pin now locked s :
  answers (db (res_state (finish_locked pin now locked s))) = answers (db s).
Proof.
  unfold finish_locked. destruct (question_at _) as [q|]; [|done].
  match goal with |- context [score_answers ?c ?du ?e ?i ?n ?l ?d] =>
    destruct (score_answers_with_players c du e i n l d) as [ps H];
    destruct (score_answers c du e i n l d) as [d' [x|]]
  end; simpl in H; subst d'; done.
Qed.

Lemma finish_question_if_due_answers pin utc now s :
  answers (db (res_state (finish_question_if_due pin utc now s)))
  = answers (db s).
Proof.
  unfold finish_question_if_due, finish_commit.
  destruct (finish_due _ _ _); [|done].
  unfold finalize_lock. destruct (List.find _ _); simpl; [|done].
  by rewrite finish_locked_answers.
Qed.

Lemma start_question_answers pin now s :
  answers (db (res_state (start_question pin now s))) = answers (db s).
Proof. unfold start_question. by repeat (split_match; simpl_res). Qed.

Lemma insert_room_answers pin tok now d :
  answers (fst (insert_room pin tok now d)) = answers d.
Proof. unfold insert_room. by destruct (existsb _ _). Qed.

Lemma insert_player_answers room_id tok name now d :
  answers (fst (insert_player room_id tok name now d)) = answers d.
Proof. unfold insert_player. by destruct (existsb _ _). Qed.

(** No handler changes or removes a stored answer; [submit_answer] alone
    adds one. *)
Lemma step_keeps_answers a s :
  answers (db s) `prefix_of` answers (db (res_state (step uuid_str a s))).
Proof.
  assert (Heq : ∀ l : list Answer, l `prefix_of` l) by done.
  destruct a; simpl.
  - unfold on_disconnect. repeat (split_match; simpl_res); by apply Heq.
  - unfold create_room. destruct (is_rate_limited _ _ _ _ _) as [limited rl].
    repeat (split_match; simpl_res); try (by apply Heq);
      match goal with H : insert_room ?a ?b ?c ?d = _ |- _ =>
        pose proof (insert_room_answers a b c d) as Ha; rewrite H in Ha;
        unfold register; simpl in *; rewrite Ha; by apply Heq
      end.
  - unfold join_game. destruct (is_rate_limited _ _ _ _ _) as [limited rl].
    repeat (split_match; simpl_res); try (by apply Heq);
      match goal with H : insert_player ?a ?b ?c ?d ?e = _ |- _ =>
        pose proof (insert_player_answers a b c d e) as Ha; rewrite H in Ha;
        unfold register; simpl in *; rewrite Ha; by apply Heq
      end.
  - unfold reconnect_player. repeat (split_match; simpl_res); by apply Heq.
  - unfold reconnect_host. repeat (split_match; simpl_res); by apply Heq.
  - unfold start_game. repeat (split_match; simpl_res); try (by apply Heq).
    all: by rewrite start_question_answers.
  - unfold next_question. repeat (split_match; simpl_res); try (by apply Heq).
    all: by rewrite start_question_answers.
  - destruct (submit_answer_stores uuid_str sid t utc now data s)
      as [[new [-> _]] _].
    by exists new.
  - unfold watchdog_task. rewrite for_each_answers; [by apply Heq|].
    intros. apply finish_question_if_due_answers.
  - unfold cleanup_task. rewrite for_each_answers; [by apply Heq|].
    intros. apply close_room_answers.
  - apply Heq.
Qed.

(** C3, as the code has it.  A call of [submit_answer] stores at most one
    new row, after the rows there are, and stores one only when the room
    it has read is in QUESTION and the process clock is not past the
    stored deadline, [utc <= question_ends_at]: a submission at the very
    deadline is stored, one after it is not.  No handler changes or
    removes a stored answer. *)
Theorem answers_stored_in_time :
  (∀ sid t utc now data s,
     let r := submit_answer uuid_str sid t utc now data s in
     (∃ new, answers (db (res_state r)) = answers (db s) ++ new
             ∧ (length new ≤ 1)%nat)
     ∧ (answers (db (res_state r)) ≠ answers (db s) →
        ∃ pin room e,
          ad_pin data = Some pin
          ∧ get_room_by_pin pin (db s) = Some room
          ∧ r_state room = QUESTION
          ∧ r_question_ends_at room = Some e
          ∧ utc ≤ e))
  ∧ (∀ a s,
       answers (db s) `prefix_of` answers (db (res_state (step uuid_str a s)))).
Proof.
  split.
  - intros. apply submit_answer_stores.
  - apply step_keeps_answers.
Qed.

End Answers.

(** ** Only the host's two actions start a question *)

Lemma existsb_sql_update_false {A} (p cond : A → bool) (set : A → A) rows :
  (∀ r, p (set r) = true → p r = true) →
  existsb p rows = false → existsb p (sql_update cond set rows) = false.
Proof.
  intros H. induction rows as [|r rows IH]; simpl; [done|].
  intros [Hr Hrows]%orb_false_elim. rewrite IH by done.
  destruct (cond r); [|by rewrite Hr].
  destruct (p (set r)) eqn:E; [|done]. apply H in E. congruence.
Qed.

Lemma finalize_cond_kept id f r :
  r_id (f r) = r_id r →
  (r_state (f r) = QUESTION → r_state r = QUESTION) →
  finalize_cond id (f r) = true → finalize_cond id r = true.
Proof.
  intros Hid Hst. unfold finalize_cond. intros H. bool_facts.
  rewrite !bool_decide_eq_true_2; [done | by apply Hst | congruence].
Qed.

Lemma question_open_update id x f d :
  (∀ r, r_id (f r) = r_id r) →
  (∀ r, r_state (f r) = QUESTION → r_state r = QUESTION) →
  question_open id d = false → question_open id (update_room x f d) = false.
Proof.
  intros Hid Hst. unfold question_open, update_room. simpl.
  apply existsb_sql_update_false. intros r.
  apply finalize_cond_kept; [apply Hid | apply Hst].
Qed.

Lemma for_each_question_open {A} id (f : A → State → Result) (l : list A) s :
  (∀ x s, question_open id (db s) = false →
          question_open id (db (res_state (f x s))) = false) →
  question_open id (db s) = false →
  question_open id (db (res_state (for_each f l s))) = false.
Proof.
  intros Hf. revert s. induction l as [|x l IH]; intros s Hs; simpl; [done|].
  destruct (res_exn (f x s)); [by apply Hf|]. simpl. apply IH. by apply Hf.
Qed.

Lemma insert_room_question_open id pin tok now d :
  question_open id (fst (insert_room pin tok now d)) = question_open id d.
Proof.
  unfold insert_room, question_open.
  destruct (existsb (λ r, bool_decide (r_pin r = pin)) (rooms d)); simpl;
    [done|].
  rewrite existsb_app. simpl. unfold finalize_cond at 2. simpl.
  by rewrite andb_false_r, !orb_false_r.
Qed.

Lemma finish_commit_question_open id pin room_id now s :
  question_open id (db s) = false →
  question_open id (db (res_state (finish_commit pin room_id now s))) = false.
Proof.
  intros Hs. unfold finish_commit, finalize_lock.
  assert (H : existsb (finalize_cond id)
                (sql_update (finalize_cond room_id) (set_results now)
                   (rooms (db s))) = false).
  { apply existsb_sql_update_false; [|done]. intros r.
    by apply finalize_cond_kept. }
  destruct (List.find _ _); simpl; [|done].
  unfold question_open. by rewrite finish_locked_rooms.
Qed.

Section Starting.

Variable uuid_str : string → option string.

(** A step that is neither [start_game] nor [next_question] puts no room
    into QUESTION. *)
Lemma step_starts_no_question a s id :
  starts_question a = false →
  question_open id (db s) = false →
  question_open id (db (res_state (step uuid_str a s))) = false.
Proof.
  intros Ha Hs.
  assert (Hu : ∀ x f d,
             (∀ r, r_id (f r) = r_id r) →
             (∀ r, r_state (f r) = QUESTION → r_state r = QUESTION) →
             rooms d = rooms (db s) →
             question_open id (update_room x f d) = false).
  { intros x f d H1 H2 H3. apply question_open_update; try done.
    unfold question_open in *. by rewrite H3. }
  destruct a; try done; simpl.
  - unfold on_disconnect. repeat (split_match; simpl_res); try done.
    by apply Hu.
  - unfold create_room. destruct (is_rate_limited _ _ _ _ _) as [limited rl].
    repeat (split_match; simpl_res); try done;
      match goal with H : insert_room ?a ?b ?c ?d = _ |- _ =>
        pose proof (insert_room_question_open id a b c d) as H1;
        rewrite H in H1; simpl in H1; unfold register; simpl; congruence
      end.
  - unfold join_game. destruct (is_rate_limited _ _ _ _ _) as [limited rl].
    repeat (split_match; simpl_res); try done;
      match goal with H : insert_player ?a ?b ?c ?d ?e = _ |- _ =>
        destruct (insert_player_rooms a b c d e) as [H1 _];
        rewrite H in H1; simpl in H1
      end.
    + by apply Hu.
    + unfold question_open in *. by rewrite H1.
  - unfold reconnect_player. repeat (split_match; simpl_res); try done.
    by apply Hu.
  - unfold reconnect_host. repeat (split_match; simpl_res); try done.
    by apply Hu.
  - unfold submit_answer. destruct (is_rate_limited _ _ _ _ _) as [limited rl].
    repeat (split_match; simpl_res); try done. by apply Hu.
  - unfold watchdog_task. apply for_each_question_open; [|done].
    intros pin s' Hs'. unfold finish_question_if_due.
    destruct (finish_due _ _ _); [|done].
    by apply finish_commit_question_open.
  - unfold cleanup_task. apply for_each_question_open; [|done].
    intros pin s' Hs'. unfold close_room.
    destruct (get_room_by_pin _ _); simpl_res; [|done].
    by apply question_open_update.
Qed.

End Starting.

(** ** Closing a room *)

Lemma find_none_all {A} (P : A → bool) (l : list A) :
  (∀ x, x ∈ l → P x = false) → List.find P l = None.
Proof.
  induction l as [|x l IH]; intros H; simpl; [done|].
  rewrite (H x) by left. apply IH. intros y Hy. apply H. by right.
Qed.

Lemma for_each_players {A} (f : A → State → Result) (l : list A) s :
  (∀ x s, players (db (res_state (f x s))) = players (db s)) →
  players (db (res_state (for_each f l s))) = players (db s).
Proof.
  intros Hf. revert s. induction l as [|x l IH]; intros s; simpl; [done|].
  destruct (res_exn (f x s)); [apply Hf|]. simpl. by rewrite IH, Hf.
Qed.

Lemma for_each_out {A} (P : Emit → Prop) (f : A → State → Result)
    (l : list A) s :
  (∀ x s, Forall P (res_out (f x s))) → Forall P (res_out (for_each f l s)).
Proof.
  intros Hf. revert s. induction l as [|x l IH]; intros s; simpl;
    [constructor|].
  destruct (res_exn (f x s)); [apply Hf|]. simpl.
  apply Forall_app. split; [apply Hf | apply IH].
Qed.

(** ** Closed rooms stay as they are *)

Lemma kept_rows (rs : list Room) (c room : Room) (f : Room → Room) :
  NoDup (map r_id rs) → c ∈ rs → room ∈ rs →
  r_closed_at c ≠ None → r_closed_at room = None →
  c ∈ sql_update (λ r, bool_decide (r_id r = r_id room)) f rs.
Proof.
  intros Hnd Hc Hroom Hclosed Hopen.
  pose proof (elem_of_sql_update_2
    (λ r, bool_decide (r_id r = r_id room)) f rs c Hc) as H.
  cbv beta in H. rewrite bool_decide_eq_false_2 in H; [done|].
  intros Heq. assert (c = room) by (by eapply (NoDup_map_eq r_id)).
  congruence.
Qed.

Lemma scores_sql_update (cid : Z) (cond : Player → bool) (f : Player → Player)
    (ps : list Player) :
  (∀ p, cond p = true → p_room_id p = cid →
        p_room_id (f p) = cid ∧ p_score (f p) = p_score p) →
  (∀ p, cond p = true → p_room_id p ≠ cid → p_room_id (f p) ≠ cid) →
  map p_score (List.filter (λ p, bool_decide (p_room_id p = cid))
                 (sql_update cond f ps))
  = map p_score (List.filter (λ p, bool_decide (p_room_id p = cid)) ps).
Proof.
  intros Hin Hout. induction ps as [|p ps IH]; simpl; [done|].
  destruct (cond p) eqn:E; [|by destruct (bool_decide _); simpl; rewrite IH].
  destruct (decide (p_room_id p = cid)) as [Hp|Hp].
  - destruct (Hin p E Hp) as [H1 H2].
    rewrite !bool_decide_eq_true_2 by done. simpl. by rewrite IH, H2.
  - rewrite !bool_decide_eq_false_2; [done | done | by apply Hout].
Qed.

Lemma scores_with_players_update cid cond f d :
  (∀ p, p_room_id (f p) = p_room_id p ∧ p_score (f p) = p_score p) →
  scores_of cid (with_players (sql_update cond f (players d)) d)
  = scores_of cid d.
Proof.
  intros H. unfold scores_of. simpl. apply scores_sql_update.
  - intros p _ Hp. destruct (H p) as [-> ->]. done.
  - intros p _ Hp. by destruct (H p) as [-> _].
Qed.

Lemma scores_award cid points room_id tok now d :
  room_id ≠ cid →
  scores_of cid (award points room_id tok now d) = scores_of cid d.
Proof.
  intros Hne. unfold scores_of, award. simpl. apply scores_sql_update.
  - intros p Hc Hp. bool_facts. congruence.
  - intros p _ Hp. done.
Qed.

Lemma scores_score_answers cid correct duration ends_at room_id now l d :
  room_id ≠ cid →
  scores_of cid (fst (score_answers correct duration ends_at room_id now l d))
  = scores_of cid d.
Proof.
  intros Hne. revert d. induction l as [|a l IH]; intros d; simpl; [done|].
  destruct (negb _); [apply IH|]. destruct ends_at; [|done].
  by rewrite IH, scores_award.
Qed.

Lemma scores_insert_player cid room_id tok name now d :
  room_id ≠ cid →
  scores_of cid (fst (insert_player room_id tok name now d)) = scores_of cid d.
Proof.
  intros Hne. unfold scores_of, insert_player.
  destruct (existsb _ _); simpl; [done|].
  rewrite List.filter_app, map_app. simpl.
  rewrite bool_decide_eq_false_2 by done. simpl. by rewrite app_nil_r.
Qed.

Lemma is_results_for_other pin e :
  (∀ correct board, e ≠ (ToRoom pin, EvQuestionResults correct board)) →
  is_results_for pin e = false.
Proof.
  intros H. destruct e as [[sid|p] ev]; [done|].
  destruct ev; try done. simpl. apply bool_decide_eq_false. intros ->.
  by eapply H.
Qed.

Lemma for_each_leaves_closed {A} c (f : A → State → Result) (l : list A) :
  (∀ x, preserves (f x)) → (∀ x, leaves_closed c (f x)) →
  leaves_closed c (for_each f l).
Proof.
  intros Hp Hf. induction l as [|x l IH]; intros s log HI Hc Hcl; simpl.
  - by repeat split.
  - destruct (Hf x s log HI Hc Hcl) as (H1 & H2 & H3).
    destruct (res_exn (f x s)); [done|]. simpl.
    destruct (IH (res_state (f x s)) (log ++ res_out (f x s)))
      as (H1' & H2' & H3'); [by apply Hp|done..|].
    repeat split; [done | congruence | by apply Forall_app].
Qed.

Section Closing.

Variable uuid_str : string → option string.

Variable c : Room.

Lemma close_room_leaves_closed pin reason now :
  leaves_closed c (close_room pin reason now).
Proof.
  intros s log HI Hc Hcl. unfold close_room.
  destruct (get_room_by_pin pin (db s)) as [room|] eqn:E; simpl_res;
    [|by repeat split].
  apply get_room_by_pin_some in E as (Hin & Hpin & Hopen).
  repeat split; [|by repeat constructor].
  unfold update_room. simpl. apply kept_rows; try done. apply HI.
Qed.

Lemma finish_due_some pin utc s id :
  finish_due pin utc s = Some id →
  ∃ room, get_room_by_pin pin (db s) = Some room ∧ id = r_id room.
Proof.
  unfold finish_due. destruct (get_room_by_pin pin (db s)) as [room|]; [|done].
  repeat (split_match; try done). intros [= <-]. by exists room.
Qed.

Lemma finish_question_if_due_leaves_closed pin utc now :
  leaves_closed c (finish_question_if_due pin utc now).
Proof.
  intros s log HI Hc Hcl. unfold finish_question_if_due.
  destruct (finish_due pin utc s) as [id|] eqn:E; [|by repeat split].
  apply finish_due_some in E as (room & E & ->).
  apply get_room_by_pin_some in E as (Hin & Hpin & Hopen).
  assert (Hne : r_id room ≠ r_id c).
  { intros Heq. assert (room = c) by (by eapply (NoDup_map_eq r_id);
      [apply HI|..]). congruence. }
  assert (Hpne : pin ≠ r_pin c).
  { intros Heq. assert (room = c) by (eapply (NoDup_map_eq r_pin);
      [apply HI|..]; congruence). congruence. }
  assert (Hkept : c ∈ sql_update (finalize_cond (r_id room)) (set_results now)
                        (rooms (db s))).
  { pose proof (elem_of_sql_update_2 (finalize_cond (r_id room))
      (set_results now) _ c Hc) as H.
    unfold finalize_cond in H at 1.
    rewrite (bool_decide_eq_false_2 (r_id c = r_id room)) in H; [exact H|].
    intros Heq. by apply Hne. }
  unfold finish_commit, finalize_lock.
  destruct (List.find _ _) as [row|] eqn:Ef;
    cbn [res_state res_out done db with_db rooms players with_rooms fst snd
         fmap option_fmap option_map];
    [|by repeat split].
  apply find_some in Ef as [_ Ef]. unfold finalize_cond in Ef. bool_facts.
  unfold finish_locked.
  cbn [r_id r_current_question_index r_question_ends_at set_results].
  destruct (question_at _) as [q|]; simpl_res; [|by repeat split].
  match goal with |- context [score_answers ?co ?du ?e ?i ?n ?l ?d] =>
    pose proof (score_answers_rooms co du e i n l d) as Hr;
    pose proof (scores_score_answers (r_id c) co du e i n l d) as Hs;
    destruct (score_answers co du e i n l d) as [d' [x|]]
  end; cbn [fst] in Hr, Hs; simpl_res; rewrite Hr;
    (repeat split; [exact Hkept | by rewrite Hs by congruence |]).
  - constructor.
  - constructor; [|constructor]. simpl. by apply bool_decide_eq_false.
Qed.

Lemma open_room_other s log pin room :
  Inv s log → c ∈ rooms (db s) → r_closed_at c ≠ None →
  get_room_by_pin pin (db s) = Some room →
  room ∈ rooms (db s) ∧ r_closed_at room = None
  ∧ r_id room ≠ r_id c ∧ pin ≠ r_pin c.
Proof.
  intros HI Hc Hcl (Hin & Hpin & Hopen)%get_room_by_pin_some.
  repeat split; try done.
  - intros Heq. assert (room = c) by (by eapply (NoDup_map_eq r_id);
      [apply HI|..]). congruence.
  - intros Heq. assert (room = c) by (eapply (NoDup_map_eq r_pin);
      [apply HI|..]; congruence). congruence.
Qed.

Lemma kept_update_room s log pin room f :
  Inv s log → c ∈ rooms (db s) → r_closed_at c ≠ None →
  get_room_by_pin pin (db s) = Some room →
  c ∈ sql_update (λ r, bool_decide (r_id r = r_id room)) f (rooms (db s)).
Proof.
  intros HI Hc Hcl Hroom.
  destruct (open_room_other s log pin room HI Hc Hcl Hroom) as (? & ? & _).
  apply kept_rows; try done. apply HI.
Qed.

Lemma no_results_nil pin : Forall (λ e, is_results_for pin e = false) [].
Proof. constructor. Qed.

Lemma no_results_one pin e :
  is_results_for pin e = false →
  Forall (λ e, is_results_for pin e = false) [e].
Proof. by repeat constructor. Qed.

Lemma start_question_leaves_closed pin now :
  leaves_closed c (start_question pin now).
Proof.
  intros s log HI Hc Hcl.
  destruct (get_room_by_pin pin (db s)) as [room|] eqn:Hroom;
    [|unfold start_question; rewrite Hroom; by repeat split].
  destruct (require_room_state room [LOBBY; RESULTS]) eqn:Hst;
    [|unfold start_question; rewrite Hroom, Hst; by repeat split].
  destruct (question_at (r_current_question_index room)) as [q|] eqn:Hq;
    [|unfold start_question; rewrite Hroom, Hst, Hq; by repeat split].
  rewrite (start_question_eq _ _ _ _ _ Hroom Hst Hq). simpl_res.
  repeat split; [|by apply no_results_one].
  unfold update_room. simpl. by eapply kept_update_room.
Qed.

Lemma set_index_leaves_closed s log pin room i now :
  Inv s log → c ∈ rooms (db s) → r_closed_at c ≠ None →
  get_room_by_pin pin (db s) = Some room →
  c ∈ rooms (db (with_db (update_room (r_id room) (set_question_index i now)
                            (db s)) s)).
Proof. intros. unfold update_room. simpl. by eapply kept_update_room. Qed.

Lemma start_game_leaves_closed sid now data :
  leaves_closed c (start_game sid now data).
Proof.
  intros s log HI Hc Hcl. unfold start_game.
  destruct (verify_host_and_get_room sid data s) as [room|msg] eqn:E;
    simpl_res; [|repeat split; try done; by apply no_results_one].
  apply verify_host_inl in E as (pin & tok & meta & _ & _ & Hr & _).
  destruct (negb _) eqn:Hst; simpl_res;
    [repeat split; try done; by apply no_results_one|].
  pose proof Hr as (Hin & _ & _)%get_room_by_pin_some.
  destruct (start_question_leaves_closed (r_pin room) now
              (with_db (update_room (r_id room) (set_question_index 0 now)
                          (db s)) s) log)
    as (H1 & H2 & H3);
    [|by eapply set_index_leaves_closed|done|by repeat split].
  apply inv_set_index; try done.
  unfold require_room_state in Hst. bool_facts.
  apply list_elem_of_singleton in Hst. congruence.
Qed.

Lemma next_question_leaves_closed sid now data :
  leaves_closed c (next_question sid now data).
Proof.
  intros s log HI Hc Hcl. unfold next_question.
  destruct (verify_host_and_get_room sid data s) as [room|msg] eqn:E;
    simpl_res; [|repeat split; try done; by apply no_results_one].
  apply verify_host_inl in E as (pin & tok & meta & _ & _ & Hr & _).
  destruct (negb _) eqn:Hst; simpl_res;
    [repeat split; try done; by apply no_results_one|].
  pose proof Hr as (Hin & _ & _)%get_room_by_pin_some.
  destruct (_ <=? _); simpl_res.
  - repeat split; [|by apply no_results_one].
    unfold update_room. simpl. by eapply kept_update_room.
  - destruct (start_question_leaves_closed (r_pin room) now
                (with_db (update_room (r_id room)
                            (set_question_index
                               (r_current_question_index room + 1) now)
                            (db s)) s) log)
      as (H1 & H2 & H3);
      [|by eapply set_index_leaves_closed|done|by repeat split].
    apply inv_set_index; try done.
    unfold require_room_state in Hst. bool_facts.
    apply list_elem_of_singleton in Hst. congruence.
Qed.

Lemma on_disconnect_leaves_closed sid now :
  leaves_closed c (on_disconnect uuid_str sid now).
Proof.
  intros s log HI Hc Hcl. unfold on_disconnect.
  destruct (socket_index s !! sid) as [meta|]; simpl_res; [|by repeat split].
  destruct (bool_decide (m_pin meta = "")); simpl_res; [by repeat split|].
  change (db (unregister sid s)) with (db s).
  destruct (get_room_by_pin (m_pin meta) (db s)) as [room|] eqn:Hr; simpl_res;
    [|by repeat split].
  destruct (open_room_other s log _ room HI Hc Hcl Hr) as (? & ? & Hne & _).
  repeat (split_match; simpl_res; try by repeat split).
  - split; [|split; [done | constructor]].
    unfold update_room. simpl. by eapply kept_update_room.
  - split; [done|]. split; [|constructor].
    apply (scores_with_players_update (r_id c) _ (set_connected false now)
             (db s)).
    by intros p.
Qed.

Lemma create_room_leaves_closed sid t now pins host_token :
  leaves_closed c (create_room sid t now pins host_token).
Proof.
  intros s log HI Hc Hcl. unfold create_room.
  destruct (is_rate_limited _ _ _ _ _) as [limited rl].
  destruct limited; simpl_res;
    [repeat split; try done; by apply no_results_one|].
  destruct (generate_unique_pin _ _) as [pin|]; simpl_res; [|by repeat split].
  unfold insert_room. simpl_res.
  destruct (existsb _ _); simpl_res; [by repeat split|].
  repeat split; [|by apply no_results_one].
  unfold register. simpl. apply elem_of_app. by left.
Qed.

Lemma join_game_leaves_closed sid t now data player_token :
  leaves_closed c (join_game sid t now data player_token).
Proof.
  intros s log HI Hc Hcl. unfold join_game.
  destruct (is_rate_limited _ _ _ _ _) as [limited rl].
  repeat (split_match; simpl_res;
          try (repeat split; try done; by apply no_results_one)).
  - match goal with H : get_room_by_pin _ _ = Some ?room |- _ =>
      destruct (open_room_other s log _ room HI Hc Hcl H) as (? & ? & Hne & _);
      pose proof (kept_update_room s log _ room (set_last_activity now)
                    HI Hc Hcl H) as Hk
    end.
    match goal with H : insert_player ?a ?b ?n ?t ?d = _ |- _ =>
      destruct (insert_player_rooms a b n t d) as [H1 _];
      pose proof (scores_insert_player (r_id c) a b n t d Hne) as H2;
      rewrite H in H1, H2; simpl in H1, H2
    end.
    repeat split.
    + unfold register, touch_room_activity, update_room. simpl. by rewrite H1.
    + unfold register, touch_room_activity, update_room, scores_of in *.
      simpl in *. done.
    + repeat constructor.
  - match goal with H : get_room_by_pin _ _ = Some ?room |- _ =>
      destruct (open_room_other s log _ room HI Hc Hcl H) as (? & ? & Hne & _)
    end.
    match goal with H : insert_player ?a ?b ?n ?t ?d = _ |- _ =>
      destruct (insert_player_rooms a b n t d) as [H1 _];
      pose proof (scores_insert_player (r_id c) a b n t d Hne) as H2;
      rewrite H in H1, H2; simpl in H1, H2
    end.
    repeat split; [by rewrite H1 | done | constructor].
Qed.

Lemma reconnect_player_leaves_closed sid now data :
  leaves_closed c (reconnect_player uuid_str sid now data).
Proof.
  intros s log HI Hc Hcl. unfold reconnect_player.
  repeat (split_match; simpl_res;
          try (repeat split; try done; by apply no_results_one)).
  match goal with H : get_room_by_pin _ _ = Some ?room |- _ =>
    pose proof (kept_update_room s log _ room (set_last_activity now)
                  HI Hc Hcl H) as Hk
  end.
  repeat split; [done | | by apply no_results_one].
  unfold register, touch_room_activity, update_room. simpl.
  apply (scores_with_players_update (r_id c) _ (set_connected true now) (db s)).
  by intros x.
Qed.

Lemma reconnect_host_leaves_closed sid now data :
  leaves_closed c (reconnect_host uuid_str sid now data).
Proof.
  intros s log HI Hc Hcl. unfold reconnect_host.
  repeat (split_match; simpl_res;
          try (repeat split; try done; by apply no_results_one)).
  match goal with H : get_room_by_pin _ _ = Some ?room |- _ =>
    pose proof (kept_update_room s log _ room (set_host_online now)
                  HI Hc Hcl H) as Hk
  end.
  repeat split; [done | by apply no_results_one].
Qed.

Lemma submit_answer_leaves_closed sid t utc now data :
  leaves_closed c (submit_answer uuid_str sid t utc now data).
Proof.
  intros s log HI Hc Hcl. unfold submit_answer.
  destruct (is_rate_limited _ _ _ _ _) as [limited rl].
  repeat (split_match; simpl_res; try by repeat split).
  match goal with H : get_room_by_pin _ _ = Some ?room |- _ =>
    pose proof (kept_update_room s log _ room (set_last_activity now)
                  HI Hc Hcl H) as Hk
  end.
  by repeat split.
Qed.

Lemma step_leaves_closed a : leaves_closed c (step uuid_str a).
Proof.
  destruct a; simpl.
  - apply on_disconnect_leaves_closed.
  - apply create_room_leaves_closed.
  - apply join_game_leaves_closed.
  - apply reconnect_player_leaves_closed.
  - apply reconnect_host_leaves_closed.
  - apply start_game_leaves_closed.
  - apply next_question_leaves_closed.
  - apply submit_answer_leaves_closed.
  - intros s log HI Hc Hcl.
    exact (for_each_leaves_closed c
             (λ pin, finish_question_if_due pin utc now) (rooms_due now (db s))
             (λ pin, finish_question_if_due_preserves pin utc now)
             (λ pin, finish_question_if_due_leaves_closed pin utc now)
             s log HI Hc Hcl).
  - intros s log HI Hc Hcl.
    exact (for_each_leaves_closed c
             (λ pin, close_room pin "host_timeout" now)
             (rooms_abandoned now (db s))
             (λ pin, close_room_preserves pin "host_timeout" now)
             (λ pin, close_room_leaves_closed pin "host_timeout" now)
             s log HI Hc Hcl).
  - intros s log HI Hc Hcl. by repeat split.
Qed.

(** From a closed room on, whatever the server does: the row stays, the
    scores of its players stay, and the events that follow hold no
    [question_results] for its pin. *)
Lemma run_leaves_closed acts s log :
  Inv s log → c ∈ rooms (db s) → r_closed_at c ≠ None →
  c ∈ rooms (db (fst (run uuid_str acts s log)))
  ∧ scores_of (r_id c) (db (fst (run uuid_str acts s log)))
    = scores_of (r_id c) (db s)
  ∧ ∃ out, snd (run uuid_str acts s log) = log ++ out
           ∧ Forall (λ e, is_results_for (r_pin c) e = false) out.
Proof.
  revert s log. induction acts as [|a acts IH]; intros s log HI Hc Hcl; simpl.
  - repeat split; try done. exists []. by rewrite app_nil_r.
  - destruct (step_leaves_closed a s log HI Hc Hcl) as (H1 & H2 & H3).
    destruct (IH (res_state (step uuid_str a s))
                (log ++ res_out (step uuid_str a s)))
      as (H1' & H2' & out & H3' & H4'); [by apply step_preserves|done..|].
    repeat split; [done | congruence |].
    exists (res_out (step uuid_str a s) ++ out).
    rewrite H3', <- app_assoc. split; [done | by apply Forall_app].
Qed.

End Closing.

Section CloseRoom.

Variable uuid_str : string → option string.

Lemma close_room_players pin reason now s :
  players (db (res_state (close_room pin reason now s))) = players (db s).
Proof. unfold close_room. by destruct (get_room_by_pin _ _). Qed.

Lemma closed_room_not_found s log pin room now :
  Inv s log → get_room_by_pin pin (db s) = Some room →
  get_room_by_pin pin (update_room (r_id room) (set_closed now) (db s))
  = None.
Proof.
  intros HI (Hin & Hpin & Hopen)%get_room_by_pin_some.
  unfold get_room_by_pin, update_room. simpl. apply find_none_all.
  intros r' (r & Hr & ->)%elem_of_sql_update.
  destruct (bool_decide (r_id r = r_id room)) eqn:E; [apply andb_false_r|].
  apply andb_false_iff. left. apply bool_decide_eq_false. intros Hp.
  bool_facts. apply E. f_equal.
  eapply (NoDup_map_eq r_pin); [apply HI|..]; congruence.
Qed.

(** C10.  In every state the server reaches, [close_room] on the pin of
    an open room, whatever the state of the room, QUESTION included:
    emits [room_closed] and nothing else; writes FINISHED and [closed_at]
    into the row of that room and leaves every other row alone; changes
    no player row, so no score, and no answer.  From then on no open room
    is found under the pin: [finish_question_if_due] on it does nothing
    whenever it is called, and the watchdog's query does not list it.  A
    pass of the cleanup sweeper emits [room_closed] events with the reason
    host_timeout only and changes no player row and no answer.  And whatever
    the server does after the closing: the closed row stays as it is, the
    scores of the room's players stay as they were before the closing, and
    no [question_results] is sent to the pin. *)
Theorem close_room_skips_scoring (s : State) (log : list Emit)
    (pin reason : string) (now : Z) (room : Room) :
  reachable uuid_str s log →
  get_room_by_pin pin (db s) = Some room →
  let r := close_room pin reason now s in
  res_out r = [(ToRoom pin, EvRoomClosed reason)]
  ∧ rooms (db (res_state r))
    = sql_update (λ x, bool_decide (r_id x = r_id room)) (set_closed now)
        (rooms (db s))
  ∧ set_closed now room ∈ rooms (db (res_state r))
  ∧ r_state (set_closed now room) = FINISHED
  ∧ r_closed_at (set_closed now room) = Some now
  ∧ (∀ x, x ∈ rooms (db s) → x ≠ room → x ∈ rooms (db (res_state r)))
  ∧ players (db (res_state r)) = players (db s)
  ∧ answers (db (res_state r)) = answers (db s)
  ∧ get_room_by_pin pin (db (res_state r)) = None
  ∧ (∀ utc now',
       finish_question_if_due pin utc now' (res_state r)
       = done (res_state r) [])
  ∧ (∀ now', pin ∉ rooms_due now' (db (res_state r)))
  ∧ (∀ now',
       Forall (λ e, ∃ p, e = (ToRoom p, EvRoomClosed "host_timeout"))
         (res_out (cleanup_task now' s))
       ∧ players (db (res_state (cleanup_task now' s))) = players (db s)
       ∧ answers (db (res_state (cleanup_task now' s))) = answers (db s))
  ∧ (∀ acts,
       let end_ := run uuid_str acts (res_state r) (log ++ res_out r) in
       set_closed now room ∈ rooms (db (fst end_))
       ∧ scores_of (r_id room) (db (fst end_)) = scores_of (r_id room) (db s)
       ∧ ∃ out, snd end_ = (log ++ res_out r) ++ out
                ∧ Forall (λ e, is_results_for pin e = false) out).
Proof.
  intros HI%reachable_inv Hroom r.
  pose proof (close_room_preserves pin reason now s log HI) as HI'.
  subst r. unfold close_room in *.
  rewrite Hroom in *. simpl_res. simpl_res in HI'.
  pose proof (closed_room_not_found s log pin room now HI Hroom) as Hnone.
  pose proof Hroom as (Hin & Hpin & Hopen)%get_room_by_pin_some.
  assert (Hclosed : set_closed now room
                    ∈ rooms (update_room (r_id room) (set_closed now) (db s))).
  { unfold update_room. simpl.
    pose proof (elem_of_sql_update_2
      (λ x, bool_decide (r_id x = r_id room)) (set_closed now) _ _ Hin) as H.
    cbv beta in H. by rewrite bool_decide_eq_true_2 in H. }
  pose proof (λ acts, run_leaves_closed uuid_str (set_closed now room) acts
                        _ _ HI' Hclosed ltac:(done)) as Hrun.
  repeat split; try done.
  - intros x Hx Hne. unfold update_room. simpl.
    pose proof (elem_of_sql_update_2
      (λ x, bool_decide (r_id x = r_id room)) (set_closed now) _ _ Hx) as H.
    cbv beta in H. rewrite bool_decide_eq_false_2 in H; [done|].
    intros Heq. apply Hne. eapply (NoDup_map_eq r_id); [apply HI|..]; done.
  - intros utc now'. unfold finish_question_if_due, finish_due. simpl_res.
    by rewrite Hnone.
  - intros now' Hdue. unfold rooms_due in Hdue.
    apply list_elem_of_In, in_map_iff in Hdue as (x & Hx & Hf).
    apply filter_In in Hf as [Hf Hc]. bool_facts.
    unfold get_room_by_pin in Hnone.
    eapply find_none in Hnone; [|exact Hf].
    rewrite Hx in Hnone. rewrite bool_decide_eq_true_2 in Hnone by done.
    simpl in Hnone. congruence.
  - unfold cleanup_task. apply for_each_out. intros p s'.
    unfold close_room. destruct (get_room_by_pin p (db s')); simpl;
      repeat constructor. by exists p.
  - unfold cleanup_task. apply for_each_players. intros.
    apply close_room_players.
  - unfold cleanup_task. apply for_each_answers. intros.
    apply close_room_answers.
  - by destruct (Hrun acts) as (? & _).
  - destruct (Hrun acts) as (_ & H & _). exact H.
  - destruct (Hrun acts) as (_ & _ & out & H1 & H2). exists out.
    split; [exact H1|]. simpl in H2. by rewrite <- Hpin.
Qed.

End CloseRoom.

(** ** Creating a room *)

(** C9, where the code goes wrong.  [generate_unique_pin] looks for the pin
    among the open rooms only, so it hands out the pin of a closed room;
    the table declares [pin] UNIQUE over all its rows, so the INSERT of
    [create_room] then fails: the handler ends in the store's uniqueness
    error, with no room created, no event and no registration. *)
Theorem create_room_closed_pin_fails (sid : string) (t : Q) (now : Z)
    (pins : nat → string) (host_token : string) (s : State) (old : Room) :
  fst (is_rate_limited ("create:" +:+ sid) CREATE_ROOM_LIMIT CREATE_ROOM_WINDOW
         t (rate_limits s)) = false →
  old ∈ rooms (db s) → r_closed_at old ≠ None → r_pin old = pins 0%nat →
  get_room_by_pin (pins 0%nat) (db s) = None →
  generate_unique_pin pins (db s) = Some (pins 0%nat)
  ∧ let r := create_room sid t now pins host_token s in
    res_exn r = Some (UniqueViolation "rooms")
    ∧ res_out r = []
    ∧ rooms (db (res_state r)) = rooms (db s)
    ∧ socket_index (res_state r) = socket_index s.
Proof.
  intros Hlim Hold Hclosed Hpin Hnone.
  assert (Hgen : generate_unique_pin pins (db s) = Some (pins 0%nat)).
  { unfold generate_unique_pin. simpl. by rewrite Hnone. }
  split; [done|]. unfold create_room.
  destruct (is_rate_limited _ _ _ _ _) as [limited rl]. simpl in Hlim.
  subst limited. simpl_res. rewrite Hgen. unfold insert_room. simpl_res.
  assert (existsb (λ r, bool_decide (r_pin r = pins 0%nat)) (rooms (db s))
          = true) as ->.
  { apply existsb_exists. exists old. split; [by apply list_elem_of_In|].
    by apply bool_decide_eq_true. }
  done.
Qed.

(** X29.  A room that [create_room] reports with [room_created]
    has a pin that no other row of the table holds, open or closed; its
    row goes in after the rows there are, open, in LOBBY, with the index
    -1. *)
Lemma create_room_pin_fresh sid t now pins host_token s pin tok :
  (ToSid sid, EvRoomCreated pin tok)
    ∈ res_out (create_room sid t now pins host_token s) →
  (∀ r, r ∈ rooms (db s) → r_pin r ≠ pin)
  ∧ ∃ new, rooms (db (res_state (create_room sid t now pins host_token s)))
           = rooms (db s) ++ [new]
           ∧ r_pin new = pin ∧ r_state new = LOBBY
           ∧ r_current_question_index new = -1 ∧ r_closed_at new = None.
Proof.
  unfold create_room. destruct (is_rate_limited _ _ _ _ _) as [limited rl].
  destruct limited; simpl_res; [by intros [=]%list_elem_of_singleton|].
  destruct (generate_unique_pin _ _) as [pin'|]; simpl_res;
    [|by intros ?%elem_of_nil].
  unfold insert_room. simpl_res.
  destruct (existsb _ _) eqn:E; simpl_res; [by intros ?%elem_of_nil|].
  intros [= -> ->]%list_elem_of_singleton. split.
  - intros r Hr Hp.
    assert (existsb (λ r, bool_decide (r_pin r = pin')) (rooms (db s)) = true);
      [|congruence].
    apply existsb_exists. exists r. split; [by apply list_elem_of_In|].
    by apply bool_decide_eq_true.
  - eexists. by repeat split.
Qed.

Lemma generate_unique_pin_from_exhausted pins d n k0 :
  (∀ k, (k0 ≤ k < k0 + n)%nat → is_Some (get_room_by_pin (pins k) d)) →
  generate_unique_pin_from n pins k0 d = None.
Proof.
  revert k0. induction n as [|n IH]; intros k0 H; simpl; [done|].
  destruct (H k0) as [r ->]; [lia|]. apply IH. intros k Hk. apply H. lia.
Qed.

(** X30.  Twenty draws that all name open rooms end [create_room] in
    [RuntimeError], with the store as it was. *)
Lemma create_room_exhausted sid t now pins host_token s :
  fst (is_rate_limited ("create:" +:+ sid) CREATE_ROOM_LIMIT CREATE_ROOM_WINDOW
         t (rate_limits s)) = false →
  (∀ k, (k < 20)%nat → is_Some (get_room_by_pin (pins k) (db s))) →
  res_exn (create_room sid t now pins host_token s)
  = Some (RuntimeError "Failed to generate unique PIN")
  ∧ db (res_state (create_room sid t now pins host_token s)) = db s.
Proof.
  intros Hlim H. unfold create_room.
  destruct (is_rate_limited _ _ _ _ _) as [limited rl]. simpl in Hlim.
  subst limited. simpl_res. unfold generate_unique_pin.
  rewrite generate_unique_pin_from_exhausted; [done|].
  intros k Hk. apply H. lia.
Qed.

(** ** The examples *)

Lemma run_reachable uuid_str acts s log :
  reachable uuid_str s log →
  reachable uuid_str (fst (run uuid_str acts s log))
    (snd (run uuid_str acts s log)).
Proof.
  revert s log. induction acts as [|a acts IH]; intros s log H; simpl; [done|].
  apply IH. by constructor.
Qed.

Lemma after_reachable acts :
  reachable uuid_canonical (after acts) (log_after acts).
Proof. apply run_reachable. constructor. Defined.

(** Two attempts on the first question meet at the store, and Alice's
    connection drops between them. *)
Lemma finalize_at_most_once_witness :
  (length
     (List.filter at_locked
        (run_ops 1
           [ Finalize "123456" 15000001;
             Other (λ s, res_state
                           (step uuid_canonical (Disconnect "p" 15000001) s));
             Finalize "123456" 15000002 ]
           (after first_question))) ≤ 1)%nat.
Proof.
  apply (finalize_at_most_once 1
           [ Finalize "123456" 15000001;
             Other (λ s, res_state
                           (step uuid_canonical (Disconnect "p" 15000001) s));
             Finalize "123456" 15000002 ]
           (after first_question)).
  intros f Hf s' Hs'.
  apply elem_of_cons in Hf as [Hf|Hf]; [discriminate|].
  apply elem_of_cons in Hf as [Hf|Hf].
  - injection Hf as ->.
    by apply (step_starts_no_question uuid_canonical
                (Disconnect "p" 15000001)).
  - apply elem_of_cons in Hf as [Hf|Hf]; [discriminate|].
    by apply elem_of_nil in Hf.
Defined.

(** C2, against the rule read over the rationals.  Alice answers the first
    question (15 s, ending at 15 s) correctly at 12.99 s, 2.01 s ahead of
    the deadline.  The rule gives [1000 + floor(2.01 / 15 * 500) = 1067];
    the code computes in binary64, where [2.01 / 15 * 500] is
    66.99999999999999, and adds 1066. *)
Lemma scoring_counterexample :
  let s := after (first_question ++ [answer_at 12990000]) in
  let s' := res_state (step uuid_canonical (WatchdogTick 15000001 15000001) s) in
  map r_question_ends_at (rooms (db s)) = [Some 15000000]
  ∧ map (λ a, (a_option_index a, a_answered_at a)) (answers (db s))
    = [(1, 12990000)]
  ∧ map p_score (players (db s)) = [0]
  ∧ map p_score (players (db s')) = [1066]
  ∧ spec_points 15 15000000 12990000 = 1067
  ∧ points_for 15 15000000 12990000 ≠ spec_points 15 15000000 12990000.
Proof. vm_compute. by repeat split. Qed.

Lemma scoring_adds_points_witness :
  match get_room_by_pin "123456"
          (db (after (first_question ++ [answer_at 12990000]))) with
  | Some locked =>
      let s := after (first_question ++ [answer_at 12990000]) in
      res_exn (finish_locked "123456" 15000001 locked s) = None
      ∧ map p_score
          (players (db (res_state (finish_locked "123456" 15000001 locked s))))
        = [1066]
  | None => False
  end.
Proof.
  destruct (get_room_by_pin "123456"
              (db (after (first_question ++ [answer_at 12990000]))))
    as [locked|] eqn:E; [|vm_compute in E; discriminate].
  vm_compute in E. injection E as <-.
  cbv zeta.
  match goal with |- context [finish_locked _ _ ?l ?s] =>
    edestruct (scoring_adds_points "123456" 15000001 l s) as (H1 & H2 & _);
      [vm_compute; reflexivity | vm_compute; reflexivity |]
  end.
  split; [exact H1|]. etransitivity; [exact H2|]. vm_compute. reflexivity.
Defined.

(** C3, at the deadline.  The first question ends at 15 s; an answer
    submitted when both clocks read exactly 15 s is stored. *)
Lemma answer_at_deadline_counterexample :
  let s := after first_question in
  let r := step uuid_canonical (answer_at 15000000) s in
  map r_question_ends_at (rooms (db s)) = [Some 15000000]
  ∧ answers (db s) = []
  ∧ map (λ a, (a_player_token a, a_question_index a, a_answered_at a))
      (answers (db (res_state r)))
    = [(ALICE, 0, 15000000)].
Proof. vm_compute. by repeat split. Qed.

Lemma answers_stored_in_time_witness :
  ∃ pin room e,
    ad_pin answer_data = Some pin
    ∧ get_room_by_pin pin (db (after first_question)) = Some room
    ∧ r_state room = QUESTION
    ∧ r_question_ends_at room = Some e
    ∧ 15000000 ≤ e.
Proof.
  apply (proj1 (answers_stored_in_time uuid_canonical) "p" 1%Q 15000000 15000000
           answer_data (after first_question)).
  vm_compute. discriminate.
Defined.

(** C4, for answers.  In LOBBY Alice's answer is dropped and she is told
    nothing: no event at all leaves the handler. *)
Lemma answer_in_lobby_counterexample :
  let s := after opening in
  let r := step uuid_canonical (answer_at 1000000) s in
  map r_state (rooms (db s)) = [LOBBY]
  ∧ res_out r = []
  ∧ res_exn r = None
  ∧ db (res_state r) = db s.
Proof. vm_compute. by repeat split. Qed.

Lemma guard_rejections_witness :
  ∃ message,
    start_game "h" 1000000 host_data (after first_question)
    = done (after first_question) [(ToSid "h", EvError message)].
Proof.
  destruct (get_room_by_pin "123456" (db (after first_question)))
    as [room|] eqn:E; [|vm_compute in E; discriminate].
  destruct (proj1 (guard_rejections uuid_canonical) "h" 1000000 host_data
              (after first_question) "123456" room) as [message [H _]].
  - reflexivity.
  - exact E.
  - vm_compute in E. injection E as <-. discriminate.
  - by exists message.
Defined.

(** A connection that never registered presents the right pin and the right
    host token, and is turned away. *)
Lemma host_actions_need_registration_witness :
  (∃ message,
     start_game "x" 1000000 host_data (after first_question)
     = done (after first_question) [(ToSid "x", EvError message)])
  ∧ (∃ message,
       next_question "x" 1000000 host_data (after first_question)
       = done (after first_question) [(ToSid "x", EvError message)]).
Proof.
  apply (host_actions_need_registration uuid_canonical (after first_question)
           (log_after first_question)).
  - apply after_reachable.
  - intros pin tok _ _. vm_compute. discriminate.
Defined.

(** C6, for the room's activity stamp.  Alice reconnects at 6 s: the room
    row's [last_activity_at] goes from 0 to 6 s. *)
Lemma reconnect_counterexample :
  let s := after (first_question ++ [Disconnect "p" 5000000]) in
  let r := reconnect_player uuid_canonical "p2" 6000000 alice_data s in
  map r_last_activity_at (rooms (db s)) = [0]
  ∧ map r_last_activity_at (rooms (db (res_state r))) = [6000000]
  ∧ rooms (db (res_state r)) ≠ rooms (db s)
  ∧ ∃ payload, res_out r = [(ToSid "p2", payload)].
Proof.
  vm_compute. repeat split; [discriminate|]. by eexists.
Qed.

Lemma reconnect_frame_witness :
  ∃ pin tok,
    pd_pin alice_data = Some pin
    ∧ uuid_canonical (Py.or_empty (pd_player_token alice_data)) = Some tok
    ∧ socket_index
        (res_state
           (reconnect_player uuid_canonical "p2" 6000000 alice_data
              (after (first_question ++ [Disconnect "p" 5000000]))))
        !! "p2"
      = Some {| m_pin := pin; m_role := RolePlayer; m_token := tok |}.
Proof.
  destruct (proj1 (reconnect_frame uuid_canonical) "p2" 6000000 alice_data
              (after (first_question ++ [Disconnect "p" 5000000])))
    as (_ & _ & _ & _ & H).
  edestruct H as (pin & tok & H1 & H2 & H3 & _).
  - assert (res_out
              (reconnect_player uuid_canonical "p2" 6000000 alice_data
                 (after (first_question ++ [Disconnect "p" 5000000])))
            = [(ToSid "p2",
                EvReconnected QUESTION 0 0
                  (Some {| qv_text := "Скільки буде 2 + 2 ?";
                           qv_options := ["3"; "4"; "5"; "6"];
                           qv_ends_at := Py.timestamp 15000000 |})
                  None)]) as -> by (vm_compute; reflexivity).
    by apply list_elem_of_singleton.
  - by exists pin, tok.
Defined.

(** Alice loses her connection at 5 s and comes back at 6 s: the payload
    shows the deadline that [question_started] announced. *)
Lemma hydration_matches_broadcast_witness :
  ∃ pin room,
    pd_pin alice_data = Some pin
    ∧ get_room_by_pin pin
        (db (after (first_question ++ [Disconnect "p" 5000000]))) = Some room
    ∧ QUESTION = r_state room
    ∧ (QUESTION = QUESTION →
       ∃ qv,
         Some {| qv_text := "Скільки буде 2 + 2 ?";
                 qv_options := ["3"; "4"; "5"; "6"];
                 qv_ends_at := Py.timestamp 15000000 |} = Some qv
         ∧ last_started pin
             (log_after (first_question ++ [Disconnect "p" 5000000]))
           = Some (0, qv_text qv, qv_options qv, qv_ends_at qv)).
Proof.
  apply (hydration_matches_broadcast uuid_canonical
           (after (first_question ++ [Disconnect "p" 5000000]))
           (log_after (first_question ++ [Disconnect "p" 5000000]))
           "p2" 6000000 alice_data QUESTION 0 0
           (Some {| qv_text := "Скільки буде 2 + 2 ?";
                    qv_options := ["3"; "4"; "5"; "6"];
                    qv_ends_at := Py.timestamp 15000000 |})
           None).
  - apply after_reachable.
  - assert (res_out
              (reconnect_player uuid_canonical "p2" 6000000 alice_data
                 (after (first_question ++ [Disconnect "p" 5000000])))
            = [(ToSid "p2",
                EvReconnected QUESTION 0 0
                  (Some {| qv_text := "Скільки буде 2 + 2 ?";
                           qv_options := ["3"; "4"; "5"; "6"];
                           qv_ends_at := Py.timestamp 15000000 |})
                  None)]) as -> by (vm_compute; reflexivity).
    by apply list_elem_of_singleton.
Defined.

(** C9, the failing input.  The game in room 123456 is over and the room is
    closed; a new host's first draw is 123456.  No open room holds it, so
    [generate_unique_pin] returns it, and the INSERT fails. *)
Lemma create_room_closed_pin_fails_witness :
  generate_unique_pin (λ _, "123456") (db (after whole_game)) = Some "123456"
  ∧ let r := create_room "h2" 100%Q 40000000 (λ _, "123456") HOST
               (after whole_game) in
    res_exn r = Some (UniqueViolation "rooms")
    ∧ res_out r = []
    ∧ rooms (db (res_state r)) = rooms (db (after whole_game))
    ∧ socket_index (res_state r) = socket_index (after whole_game).
Proof.
  assert (∃ old rest, rooms (db (after whole_game)) = old :: rest)
    as (old & rest & E) by (vm_compute; by eexists _, _).
  apply (create_room_closed_pin_fails "h2" 100%Q 40000000 (λ _, "123456") HOST
           (after whole_game) old).
  - vm_compute. reflexivity.
  - rewrite E. by left.
  - vm_compute in E. injection E as <- _. discriminate.
  - vm_compute in E. injection E as <- _. reflexivity.
  - vm_compute. reflexivity.
Defined.

(** The host leaves during the first question and does not return; the room
    is closed: one [room_closed], Alice's row and her answer untouched, and
    the finalizer finds nothing to do afterwards. *)
Lemma close_room_skips_scoring_witness :
  let s := after (first_question ++ [answer_at 5000000; Disconnect "h" 6000000]) in
  let r := close_room "123456" "host_timeout" 700000000 s in
  res_out r = [(ToRoom "123456", EvRoomClosed "host_timeout")]
  ∧ players (db (res_state r)) = players (db s)
  ∧ answers (db (res_state r)) = answers (db s)
  ∧ get_room_by_pin "123456" (db (res_state r)) = None
  ∧ (∀ utc now',
       finish_question_if_due "123456" utc now' (res_state r)
       = done (res_state r) []).
Proof.
  destruct (get_room_by_pin "123456"
              (db (after (first_question
                          ++ [answer_at 5000000; Disconnect "h" 6000000]))))
    as [room|] eqn:E; [|vm_compute in E; discriminate].
  destruct (close_room_skips_scoring uuid_canonical _
              (log_after (first_question
                          ++ [answer_at 5000000; Disconnect "h" 6000000]))
              "123456" "host_timeout" 700000000 room (after_reachable _) E)
    as (H1 & _ & _ & _ & _ & _ & H2 & H3 & H4 & H5 & _).
  cbv zeta. split; [exact H1|]. split; [exact H2|]. split; [exact H3|].
  split; [exact H4 | exact H5].
Defined.

(** * Further properties *)

(** ** The leaderboard *)

Lemma ranks_before_spec p q : ranks_before p q = true ↔ ordered_before p q.
Proof.
  unfold ranks_before, ordered_before.
  rewrite orb_true_iff, andb_true_iff, Z.ltb_lt, Z.eqb_eq, Z.leb_le. done.
Qed.

Lemma ranks_before_total p q : ranks_before p q = false → ordered_before q p.
Proof.
  unfold ranks_before, ordered_before.
  rewrite orb_false_iff, andb_false_iff, Z.ltb_ge, Z.eqb_neq, Z.leb_gt. lia.
Qed.

Lemma ordered_before_trans p q r :
  ordered_before p q → ordered_before q r → ordered_before p r.
Proof. unfold ordered_before. lia. Qed.

Lemma insert_ranked_perm p l : insert_ranked p l ≡ₚ p :: l.
Proof.
  induction l as [|q l IH]; simpl; [done|].
  destruct (ranks_before p q); [done|]. rewrite IH. apply Permutation_swap.
Qed.

Lemma insert_ranked_sorted p l :
  StronglySorted ordered_before l →
  StronglySorted ordered_before (insert_ranked p l).
Proof.
  induction 1 as [|q l Hl IH Hq]; simpl.
  - repeat constructor.
  - destruct (ranks_before p q) eqn:E.
    + apply ranks_before_spec in E. constructor; [by constructor|].
      constructor; [done|]. eapply Forall_impl; [exact Hq|].
      intros r. by apply ordered_before_trans.
    + apply ranks_before_total in E. constructor; [done|].
      rewrite insert_ranked_perm. by constructor.
Qed.

Lemma ranked_perm (l : list Player) : foldr insert_ranked [] l ≡ₚ l.
Proof.
  induction l as [|p l IH]; simpl; [done|].
  by rewrite insert_ranked_perm, IH.
Qed.

Lemma ranked_sorted (l : list Player) :
  StronglySorted ordered_before (foldr insert_ranked [] l).
Proof.
  induction l as [|p l IH]; simpl; [constructor | by apply insert_ranked_sorted].
Qed.

Lemma sorted_scores (ps : list Player) :
  StronglySorted ordered_before ps →
  StronglySorted (λ a b, lb_score b ≤ lb_score a) (map leader_row ps).
Proof.
  induction 1 as [|p ps Hps IH Hp]; simpl; constructor; [done|].
  apply Forall_map. eapply Forall_impl; [exact Hp|].
  intros q. unfold ordered_before. simpl. lia.
Qed.

(** X1.  The leaderboard of a room lists the players of that room and no
    one else, each once, by score from the highest down, and among equal
    scores the player that joined earlier first. *)
Theorem leaderboard_ranked (room_id : Z) (d : DB) :
  ∃ ps,
    leaderboard_for_room_id room_id d = map leader_row ps
    ∧ ps ≡ₚ List.filter (λ p, bool_decide (p_room_id p = room_id)) (players d)
    ∧ StronglySorted ordered_before ps
    ∧ StronglySorted (λ a b, lb_score b ≤ lb_score a)
        (leaderboard_for_room_id room_id d).
Proof.
  exists (foldr insert_ranked []
            (List.filter (λ p, bool_decide (p_room_id p = room_id)) (players d))).
  split; [done|]. split; [apply ranked_perm|]. split; [apply ranked_sorted|].
  apply (sorted_scores _ (ranked_sorted _)).
Qed.

(** ** Drawing a pin *)

Lemma generate_unique_pin_from_spec pins d n k0 :
  match generate_unique_pin_from n pins k0 d with
  | Some pin =>
      ∃ k, (k0 ≤ k < k0 + n)%nat ∧ pin = pins k
           ∧ get_room_by_pin pin d = None
           ∧ ∀ j, (k0 ≤ j < k)%nat → is_Some (get_room_by_pin (pins j) d)
  | None => ∀ k, (k0 ≤ k < k0 + n)%nat → is_Some (get_room_by_pin (pins k) d)
  end.
Proof.
  revert k0. induction n as [|n IH]; intros k0; simpl; [intros k; lia|].
  destruct (get_room_by_pin (pins k0) d) as [room|] eqn:E.
  - specialize (IH (S k0)).
    destruct (generate_unique_pin_from n pins (S k0) d) as [pin|].
    + destruct IH as (k & Hk & -> & Hnone & Hbefore).
      exists k. repeat split; [lia | lia | done |].
      intros j Hj. destruct (decide (j = k0)) as [->|]; [by rewrite E|].
      apply Hbefore. lia.
    + intros k Hk. destruct (decide (k = k0)) as [->|]; [by rewrite E|].
      apply IH. lia.
  - exists k0. repeat split; [lia | lia | done |]. intros j Hj. lia.
Qed.

(** X2.  [generate_unique_pin] returns the first of its twenty draws that
    no open room holds, and fails when every one of the twenty names an
    open room. *)
Theorem generate_unique_pin_first_free (pins : nat → string) (d : DB) :
  match generate_unique_pin pins d with
  | Some pin =>
      ∃ k, (k < 20)%nat ∧ pin = pins k ∧ get_room_by_pin pin d = None
           ∧ ∀ j, (j < k)%nat → is_Some (get_room_by_pin (pins j) d)
  | None => ∀ k, (k < 20)%nat → is_Some (get_room_by_pin (pins k) d)
  end.
Proof.
  unfold generate_unique_pin.
  pose proof (generate_unique_pin_from_spec pins d 20 0) as H.
  destruct (generate_unique_pin_from 20 pins 0 d) as [pin|].
  - destruct H as (k & Hk & -> & Hnone & Hbefore). exists k.
    repeat split; [lia | done |]. intros j Hj. apply Hbefore. lia.
  - intros k Hk. apply H. lia.
Qed.

Section MoreCalls.

Variable uuid_str : string → option string.

(** ** Losing a connection *)

(** X3.  [on_disconnect] sends nothing and never fails; it removes the
    connection from the registry and leaves every other entry, the groups,
    the rate-limit buckets and the answers alone; in the rooms it changes
    nothing but the host's liveness and [last_activity_at], in the players
    nothing but [connected] and [last_seen_at]: no state, no question, no
    deadline and no score moves.  A connection that is not registered
    leaves the whole state as it was; the connection of a host marks the
    host of its open room disconnected at the store's clock; the
    connection of a player marks that player of its open room
    disconnected. *)
Theorem on_disconnect_frame (sid : string) (now : Z) (s : State) :
  let r := on_disconnect uuid_str sid now s in
  res_out r = [] ∧ res_exn r = None
  ∧ socket_index (res_state r) = delete sid (socket_index s)
  ∧ groups (res_state r) = groups s
  ∧ rate_limits (res_state r) = rate_limits s
  ∧ answers (db (res_state r)) = answers (db s)
  ∧ Forall2 same_game (rooms (db s)) (rooms (db (res_state r)))
  ∧ Forall2 same_player (players (db s)) (players (db (res_state r)))
  ∧ (socket_index s !! sid = None → res_state r = s)
  ∧ (∀ meta room,
       socket_index s !! sid = Some meta → m_role meta = RoleHost →
       m_pin meta ≠ "" → get_room_by_pin (m_pin meta) (db s) = Some room →
       db (res_state r) = update_room (r_id room) (set_host_offline now) (db s))
  ∧ (∀ meta room player_token,
       socket_index s !! sid = Some meta → m_role meta = RolePlayer →
       m_pin meta ≠ "" → get_room_by_pin (m_pin meta) (db s) = Some room →
       m_token meta ≠ "" → uuid_str (m_token meta) = Some player_token →
       db (res_state r)
       = with_players
           (sql_update
              (λ p, bool_decide (p_room_id p = r_id room)
                    && bool_decide (p_player_token p = player_token))
              (set_connected false now) (players (db s))) (db s)).
Proof.
  unfold on_disconnect.
  assert (Hr : ∀ r, same_game r r) by (by repeat split).
  assert (Hp : ∀ p, same_player p p) by (by repeat split).
  destruct (socket_index s !! sid) as [meta|] eqn:Hm; simpl_res.
  - do 8 (split;
          [repeat (split_match; simpl_res); try done;
           try (by apply Forall2_same);
           (unfold update_room; simpl; by apply Forall2_sql_update)|]).
    split; [done|]. split.
    + intros meta' room [= <-] Hrole Hpin Hroom.
      rewrite (bool_decide_eq_false_2 (m_pin meta = "")) by done.
      unfold unregister at 1. simpl_res. rewrite Hroom, Hrole. done.
    + intros meta' room player_token [= <-] Hrole Hpin Hroom Htok Huuid.
      rewrite (bool_decide_eq_false_2 (m_pin meta = "")) by done.
      unfold unregister at 1. simpl_res. rewrite Hroom, Hrole.
      rewrite (bool_decide_eq_false_2 (m_token meta = "")) by done.
      by rewrite Huuid.
  - repeat split; try done; try (by apply Forall2_same).
    by rewrite delete_id.
Qed.

End MoreCalls.

Section Refusals.

Variable uuid_str : string → option string.

Lemma start_question_no_error pin now s :
  Forall (λ e, is_error (snd e) = false) (res_out (start_question pin now s)).
Proof.
  unfold start_question. repeat (split_match; simpl_res); repeat constructor.
Qed.

Lemma finish_question_if_due_no_error pin utc now s :
  Forall (λ e, is_error (snd e) = false)
    (res_out (finish_question_if_due pin utc now s)).
Proof.
  unfold finish_question_if_due, finish_commit, finish_locked.
  repeat (split_match; simpl_res); repeat constructor.
Qed.

Lemma close_room_no_error pin reason now s :
  Forall (λ e, is_error (snd e) = false) (res_out (close_room pin reason now s)).
Proof.
  unfold close_room. repeat (split_match; simpl_res); repeat constructor.
Qed.

(** X4.  A request that is answered with an error event ([error],
    [join_error], [reconnect_error]) has changed neither the store nor the
    registry nor the groups, and that event, sent to the caller alone, is
    all that it emitted. *)
Theorem error_replies_change_nothing (a : Action) (s : State)
    (target : Target) (e : Event) :
  (target, e) ∈ res_out (step uuid_str a s) → is_error e = true →
  db (res_state (step uuid_str a s)) = db s
  ∧ socket_index (res_state (step uuid_str a s)) = socket_index s
  ∧ groups (res_state (step uuid_str a s)) = groups s
  ∧ res_out (step uuid_str a s) = [(target, e)]
  ∧ res_exn (step uuid_str a s) = None
  ∧ ∃ sid, target = ToSid sid.
Proof.
  assert (Hno : ∀ out, Forall (λ e, is_error (snd e) = false) out →
            (target, e) ∈ out → is_error e = true → False).
  { intros out Hall Hin He. rewrite list.Forall_forall in Hall.
    apply Hall in Hin. simpl in Hin. congruence. }
  destruct a; simpl.
  - unfold on_disconnect.
    repeat (split_match; simpl_res); by intros ?%elem_of_nil.
  - unfold create_room. destruct (is_rate_limited _ _ _ _ _) as [limited rl].
    repeat (split_match; simpl_res);
      try (by intros ?%elem_of_nil);
      intros [= -> ->]%list_elem_of_singleton; try done.
    intros _. repeat split; try done. by eexists.
  - unfold join_game. destruct (is_rate_limited _ _ _ _ _) as [limited rl].
    repeat (split_match; simpl_res);
      try (by intros ?%elem_of_nil);
      try (intros [= -> ->]%list_elem_of_singleton; intros _;
           repeat split; try done; by eexists).
    intros [[= -> ->]|[= -> ->]%list_elem_of_singleton]%elem_of_cons; done.
  - unfold reconnect_player.
    repeat (split_match; simpl_res);
      intros [= -> ->]%list_elem_of_singleton; try done;
      intros _; repeat split; try done; by eexists.
  - unfold reconnect_host.
    repeat (split_match; simpl_res);
      intros [= -> ->]%list_elem_of_singleton; try done;
      intros _; repeat split; try done; by eexists.
  - unfold start_game.
    repeat (split_match; simpl_res);
      try (intros [= -> ->]%list_elem_of_singleton; intros _;
           repeat split; try done; by eexists).
    intros Hin He. destruct (Hno _ (start_question_no_error _ _ _) Hin He).
  - unfold next_question.
    repeat (split_match; simpl_res);
      try (intros [= -> ->]%list_elem_of_singleton; try done; intros _;
           repeat split; try done; by eexists).
    intros Hin He. destruct (Hno _ (start_question_no_error _ _ _) Hin He).
  - unfold submit_answer. destruct (is_rate_limited _ _ _ _ _) as [limited rl].
    repeat (split_match; simpl_res); by intros ?%elem_of_nil.
  - unfold watchdog_task. intros Hin He. exfalso.
    eapply Hno; [|exact Hin|exact He]. apply for_each_out.
    intros. apply finish_question_if_due_no_error.
  - unfold cleanup_task. intros Hin He. exfalso.
    eapply Hno; [|exact Hin|exact He]. apply for_each_out.
    intros. apply close_room_no_error.
  - by intros ?%elem_of_nil.
Qed.

End Refusals.

Lemma find_app_none {A} (P : A → bool) (l l' : list A) :
  existsb P l = false → List.find P (l ++ l') = List.find P l'.
Proof.
  induction l as [|x l IH]; simpl; [done|].
  intros [-> H]%orb_false_elim. by apply IH.
Qed.

(** What a [join_room] request that is answered with [joined] has read and
    written. *)
Lemma join_game_joined sid t now data player_token s tok :
  let r := join_game sid t now data player_token s in
  (ToSid sid, EvJoined tok) ∈ res_out r →
  ∃ pin room,
    jd_pin data = Some pin ∧ String.length pin = 6%nat
    ∧ get_room_by_pin pin (db s) = Some room
    ∧ r_state room ≠ FINISHED
    ∧ Z.of_nat (length (List.filter (λ p, bool_decide (p_room_id p = r_id room))
                          (players (db s)))) < MAX_PLAYERS_PER_ROOM
    ∧ (∀ p, p ∈ players (db s) →
            ¬ (p_room_id p = r_id room ∧ p_player_token p = tok))
    ∧ tok = player_token
    ∧ let name := Py.strip (Py.or_empty (jd_name data)) in
      name ≠ "" ∧ (String.length name ≤ 40)%nat
      ∧ players (db (res_state r))
        = players (db s)
          ++ [ {| p_id := players_seq (db s) + 1; p_room_id := r_id room;
                  p_player_token := tok; p_name := name; p_score := 0;
                  p_connected := true; p_created_at := now;
                  p_last_seen_at := now |} ]
      ∧ res_out r = [(ToSid sid, EvJoined tok); (ToRoom pin, EvPlayerJoined name)]
      ∧ res_exn r = None
      ∧ socket_index (res_state r) !! sid
        = Some {| m_pin := pin; m_role := RolePlayer; m_token := tok |}
      ∧ (sid, pin) ∈ groups (res_state r)
      ∧ Forall2 touched_only (rooms (db s)) (rooms (db (res_state r)))
      ∧ answers (db (res_state r)) = answers (db s).
Proof.
  intros r. subst r. unfold join_game.
  destruct (is_rate_limited _ _ _ _ _) as [limited rl].
  destruct limited; simpl_res; [by intros [=]%list_elem_of_singleton|].
  destruct (jd_pin data) as [pin|]; simpl;
    [|by intros [=]%list_elem_of_singleton].
  repeat (split_match; simpl_res; try by intros [=]%list_elem_of_singleton);
    [|by intros ?%elem_of_nil].
  intros [[= <-]|[=]%list_elem_of_singleton]%elem_of_cons.
  bool_facts.
  match goal with H : insert_player _ _ _ _ _ = _ |- _ =>
    unfold insert_player in H; simpl_res in H;
    destruct (existsb _ _) eqn:Eex in H; [done|]; injection H as <-
  end.
  exists pin, r. repeat split; try done.
  - by apply Nat.eqb_eq.
  - lia.
  - intros p Hp [Hroomid Htoken].
    assert (existsb (λ p, bool_decide (p_room_id p = r_id r)
                          && bool_decide (p_player_token p = tok))
              (players (db s)) = true); [|congruence].
    apply existsb_exists. exists p. split; [by apply list_elem_of_In|].
    by rewrite !bool_decide_eq_true_2.
  - match goal with H : (40 <? _)%nat = false |- _ =>
      apply Nat.ltb_ge in H; exact H end.
  - unfold register. simpl. by rewrite lookup_insert_eq.
  - unfold register. simpl. set_solver.
  - unfold touch_room_activity, update_room, register. simpl.
    apply Forall2_sql_update; by repeat split.
Qed.


Section Joining.

Variable uuid_str : string → option string.

(** X6.  A player that has just joined is let back in: [reconnect_player]
    with the pin and the token that [joined] reported, over any
    connection, is answered with [reconnected], the state of the room and
    the score 0. *)
Theorem joined_player_can_reconnect (sid : string) (t : Q) (now : Z)
    (data : JoinData) (tok : string) (s : State)
    (sid' : string) (now' : Z) (pin : string) :
  let r := join_game sid t now data tok s in
  (ToSid sid, EvJoined tok) ∈ res_out r →
  jd_pin data = Some pin → tok ≠ "" → uuid_str tok = Some tok →
  ∃ room question results,
    get_room_by_pin pin (db s) = Some room
    ∧ res_out (reconnect_player uuid_str sid' now'
                 {| pd_pin := Some pin; pd_player_token := Some tok |}
                 (res_state r))
      = [(ToSid sid',
          EvReconnected (r_state room) 0 (r_current_question_index room)
            question results)].
Proof.
  intros r Hin Hpin Htok Huuid.
  destruct (join_game_joined sid t now data tok s tok Hin)
    as (pin' & room & Hp & Hlen & Hroom & _ & _ & Hfresh & _ & Hname & _
        & Hplayers & _ & _ & _ & _ & Hrooms & _).
  assert (pin' = pin) as -> by congruence.
  exists room. fold r in Hplayers, Hrooms.
  assert (Hpne : pin ≠ "") by (intros ->; done).
  assert (Hroom' : ∃ room', get_room_by_pin pin (db (res_state r)) = Some room'
                            ∧ touched_only room room').
  { clear -Hroom Hrooms. unfold get_room_by_pin in *.
    induction Hrooms as [|x y l l' Hxy _ IH]; simpl in *; [done|].
    destruct Hxy as ((H1 & H2 & H3 & H4 & H5 & H6 & H7 & H8 & H9) & H10 & H11).
    unfold is_open in *. rewrite H2, H9.
    destruct (bool_decide (r_pin x = pin) && bool_decide (r_closed_at x = None)).
    - injection Hroom as <-. exists y. by repeat split.
    - by apply IH. }
  destruct Hroom' as (room' & Hroom' & (Hg & _)).
  destruct Hg as (Hid & _ & _ & Hst & Hidx & _ & He & _).
  unfold reconnect_player. simpl.
  rewrite (bool_decide_eq_false_2 (pin = "")), (bool_decide_eq_false_2 (tok = ""))
    by done.
  simpl. rewrite Hroom', Huuid. rewrite Hplayers, find_app_none.
  - simpl. rewrite Hid, !bool_decide_eq_true_2 by done. simpl.
    rewrite Hst, Hidx. by eexists _, _.
  - rewrite Hid. apply not_true_is_false. intros Hex.
    apply existsb_exists in Hex as (p & Hp' & Hc). bool_facts.
    by apply (Hfresh p); [apply list_elem_of_In|].
Qed.

End Joining.

(** ** Answers and scores *)

Lemma grows_refl p : grows p p.
Proof. unfold grows. repeat split; lia. Qed.

Lemma grows_trans p q r : grows p q → grows q r → grows p r.
Proof.
  unfold grows. intros (? & ? & ? & ? & ? & ?) (? & ? & ? & ? & ? & ?).
  repeat split; try congruence. lia.
Qed.

Lemma Forall2_grows_trans ps qs rs :
  Forall2 grows ps qs → Forall2 grows qs rs → Forall2 grows ps rs.
Proof.
  intros H. revert rs. induction H as [|p q ps qs Hpq _ IH]; intros rs Hr.
  - by inversion Hr.
  - inversion Hr as [|? r ? rs' Hqr Hrest]; subst. constructor.
    + by eapply grows_trans.
    + by apply IH.
Qed.

Lemma points_for_nonneg duration ends_at answered_at :
  0 ≤ points_for duration ends_at answered_at.
Proof.
  unfold points_for, base_points.
  pose proof (bonus_for_nonneg duration ends_at answered_at). lia.
Qed.

Lemma award_grows points room_id tok now d :
  0 ≤ points →
  Forall2 grows (players d) (players (award points room_id tok now d)).
Proof.
  intros Hp. unfold award. simpl. apply Forall2_sql_update.
  - apply grows_refl.
  - intros p. unfold grows. simpl. repeat split; lia.
Qed.

Lemma score_answers_grows correct duration ends_at room_id now l d :
  Forall2 grows (players d)
    (players (fst (score_answers correct duration ends_at room_id now l d))).
Proof.
  revert d. induction l as [|a l IH]; intros d; simpl.
  - apply Forall2_same, grows_refl.
  - destruct (negb _); [apply IH|]. destruct ends_at as [e|]; simpl.
    + eapply Forall2_grows_trans; [|apply IH].
      apply award_grows, points_for_nonneg.
    + apply Forall2_same, grows_refl.
Qed.

Lemma finish_question_if_due_grows pin utc now s :
  Forall2 grows (players (db s))
    (players (db (res_state (finish_question_if_due pin utc now s)))).
Proof.
  unfold finish_question_if_due, finish_commit, finalize_lock.
  destruct (finish_due _ _ _); simpl_res; [|apply Forall2_same, grows_refl].
  destruct (List.find _ _) as [locked|]; simpl;
    [|apply Forall2_same, grows_refl].
  unfold finish_locked.
  destruct (question_at _) as [q|]; simpl_res;
    [|apply Forall2_same, grows_refl].
  match goal with |- context [score_answers ?c ?du ?e ?i ?n ?l ?d] =>
    pose proof (score_answers_grows c du e i n l d) as H;
    destruct (score_answers c du e i n l d) as [d' [x|]]
  end; exact H.
Qed.

Lemma for_each_grows {A} (f : A → State → Result) (l : list A) s :
  (∀ x s, Forall2 grows (players (db s)) (players (db (res_state (f x s))))) →
  Forall2 grows (players (db s)) (players (db (res_state (for_each f l s)))).
Proof.
  intros Hf. revert s. induction l as [|x l IH]; intros s; simpl.
  - apply Forall2_same, grows_refl.
  - destruct (res_exn (f x s)); [apply Hf|]. simpl.
    eapply Forall2_grows_trans; [apply Hf | apply IH].
Qed.

Lemma start_question_players pin now s :
  players (db (res_state (start_question pin now s))) = players (db s).
Proof. unfold start_question. by repeat (split_match; simpl_res). Qed.

Lemma insert_room_players pin tok now d :
  players (fst (insert_room pin tok now d)) = players d.
Proof. unfold insert_room. by destruct (existsb _ _). Qed.

(** ** The sweeper *)

Lemma sql_update_ext_in {A} (c1 c2 : A → bool) (f g : A → A) rows :
  (∀ r, r ∈ rows → (if c1 r then f r else r) = (if c2 r then g r else r)) →
  sql_update c1 f rows = sql_update c2 g rows.
Proof.
  intros H. unfold sql_update. apply map_ext_in. intros r Hr.
  apply H. by apply list_elem_of_In.
Qed.

Lemma sql_update_twice {A} (c1 c2 c3 : A → bool) (f : A → A) rows :
  (∀ r, r ∈ rows →
        (let r1 := if c1 r then f r else r in if c2 r1 then f r1 else r1)
        = (if c3 r then f r else r)) →
  sql_update c2 f (sql_update c1 f rows) = sql_update c3 f rows.
Proof.
  intros H. unfold sql_update. rewrite map_map. apply map_ext_in. intros r Hr.
  apply H. by apply list_elem_of_In.
Qed.

Lemma get_room_by_pin_none pin d r :
  get_room_by_pin pin d = None → r ∈ rooms d →
  is_open r && bool_decide (r_pin r = pin) = false.
Proof.
  unfold get_room_by_pin. intros Hnone Hr.
  eapply find_none in Hnone; [|by apply list_elem_of_In].
  by rewrite andb_comm.
Qed.

Lemma get_room_by_pin_is_Some pin d r :
  r ∈ rooms d → r_pin r = pin → r_closed_at r = None →
  is_Some (get_room_by_pin pin d).
Proof.
  intros Hr Hp Hc. unfold get_room_by_pin. apply find_some_existsb.
  apply existsb_exists. exists r. split; [by apply list_elem_of_In|].
  unfold is_open. by rewrite !bool_decide_eq_true_2.
Qed.

(** Under unique ids and pins, the one row that [close_room] writes to is
    the open row with the pin. *)
Lemma close_room_eq pin reason now s :
  NoDup (map r_id (rooms (db s))) → NoDup (map r_pin (rooms (db s))) →
  res_state (close_room pin reason now s)
  = with_db
      (with_rooms
         (sql_update (λ r, is_open r && bool_decide (r_pin r = pin))
            (set_closed now) (rooms (db s))) (db s)) s.
Proof.
  intros Hid Hpin. unfold close_room.
  destruct (get_room_by_pin pin (db s)) as [room|] eqn:E; simpl_res.
  - unfold update_room. do 2 f_equal. apply sql_update_ext_in. intros r Hr.
    apply get_room_by_pin_some in E as (Hin & Hp & Ho).
    destruct (bool_decide (r_id r = r_id room)) eqn:E1; bool_facts.
    + assert (r = room) as -> by (by eapply (NoDup_map_eq r_id)).
      unfold is_open. by rewrite !bool_decide_eq_true_2.
    + destruct (is_open r && bool_decide (r_pin r = pin)) eqn:E2; [|done].
      bool_facts. destruct E1. f_equal.
      eapply (NoDup_map_eq r_pin); [done..|congruence].
  - rewrite sql_update_none, with_rooms_same, with_db_same; [done|].
    apply not_true_is_false. intros (r & Hr & Hc)%existsb_exists.
    by rewrite (get_room_by_pin_none pin (db s) r E) in Hc;
      [|apply list_elem_of_In].
Qed.

Lemma for_each_close_eq reason now (l : list string) s :
  NoDup (map r_id (rooms (db s))) → NoDup (map r_pin (rooms (db s))) →
  res_state (for_each (λ pin, close_room pin reason now) l s)
  = with_db
      (with_rooms
         (sql_update (λ r, is_open r && bool_decide (r_pin r ∈ l))
            (set_closed now) (rooms (db s))) (db s)) s
  ∧ res_exn (for_each (λ pin, close_room pin reason now) l s) = None.
Proof.
  revert s. induction l as [|pin l IH]; intros s Hid Hpin; simpl.
  - split; [|done]. rewrite sql_update_none, with_rooms_same, with_db_same;
      [done|].
    apply not_true_is_false. intros (r & Hr & Hc)%existsb_exists.
    by bool_facts.
  - assert (res_exn (close_room pin reason now s) = None) as ->
      by (unfold close_room; by destruct (get_room_by_pin _ _)).
    rewrite (close_room_eq pin reason now s Hid Hpin). simpl.
    match goal with |- context [for_each _ l ?s1] =>
      destruct (IH s1) as [-> ->]
    end.
    + simpl. by rewrite map_sql_update.
    + simpl. by rewrite map_sql_update.
    + split; [|done]. unfold with_db, with_rooms. simpl. do 2 f_equal.
      apply sql_update_twice. intros r Hr. cbv zeta.
      destruct (is_open r && bool_decide (r_pin r = pin)) eqn:E1.
      * bool_facts. unfold is_open at 1. simpl.
        rewrite (bool_decide_eq_true_2 (r_pin r ∈ pin :: l)) by (subst; left).
        by rewrite H, andb_true_r.
      * destruct (is_open r) eqn:E2; simpl in *; [|done].
        bool_facts.
        destruct (decide (r_pin r ∈ l)).
        -- rewrite !bool_decide_eq_true_2; [done | by right | done].
        -- rewrite !bool_decide_eq_false_2; [done| |done].
           intros [?|?]%elem_of_cons; done.
Qed.

Lemma for_each_close_out reason now (l : list string) s :
  NoDup (map r_id (rooms (db s))) → NoDup (map r_pin (rooms (db s))) →
  NoDup l → (∀ pin, pin ∈ l → is_Some (get_room_by_pin pin (db s))) →
  res_out (for_each (λ pin, close_room pin reason now) l s)
  = map (λ pin, (ToRoom pin, EvRoomClosed reason)) l.
Proof.
  revert s. induction l as [|pin l IH]; intros s Hid Hpin Hnd Hopen; simpl;
    [done|].
  assert (res_exn (close_room pin reason now s) = None) as ->
    by (unfold close_room; by destruct (get_room_by_pin _ _)).
  simpl. apply NoDup_cons in Hnd as [Hnotin Hnd].
  rewrite IH; try done.
  - unfold close_room. destruct (Hopen pin) as [room ->]; [by left|]. done.
  - rewrite close_room_eq by done. simpl. by rewrite map_sql_update.
  - rewrite close_room_eq by done. simpl. by rewrite map_sql_update.
  - intros pin' Hin'. rewrite close_room_eq by done. simpl.
    destruct (Hopen pin') as [room' Hroom']; [by right|].
    apply get_room_by_pin_some in Hroom' as (Hr & Hp & Ho).
    eapply (get_room_by_pin_is_Some _ _ room'); [|done..]. simpl.
    pose proof (elem_of_sql_update_2
      (λ r, is_open r && bool_decide (r_pin r = pin)) (set_closed now) _ _ Hr)
      as H.
    cbv beta in H. rewrite (bool_decide_eq_false_2 (r_pin room' = pin)) in H;
      [by rewrite andb_false_r in H|].
    intros Heq. apply Hnotin. congruence.
Qed.

Lemma rooms_abandoned_eq now d :
  rooms_abandoned now d = map r_pin (List.filter (abandoned now) (rooms d)).
Proof. done. Qed.

Lemma NoDup_map_filter {A B} (f : A → B) (P : A → bool) (l : list A) :
  NoDup (map f l) → NoDup (map f (List.filter P l)).
Proof.
  induction l as [|x l IH]; simpl; [done|].
  intros [Hx Hl]%NoDup_cons. destruct (P x); simpl; [|by apply IH].
  apply NoDup_cons. split; [|by apply IH].
  intros Hin. apply Hx. apply list_elem_of_In, in_map_iff in Hin as (y & Hy & Hin).
  apply filter_In in Hin as [Hin _]. apply list_elem_of_In, in_map_iff.
  by exists y.
Qed.

Lemma cleanup_task_eq now s log :
  Inv s log →
  res_state (cleanup_task now s)
  = with_db
      (with_rooms
         (sql_update (abandoned now) (set_closed now) (rooms (db s))) (db s)) s
  ∧ res_out (cleanup_task now s)
    = map (λ pin, (ToRoom pin, EvRoomClosed "host_timeout"))
        (rooms_abandoned now (db s))
  ∧ res_exn (cleanup_task now s) = None.
Proof.
  intros HI. unfold cleanup_task.
  destruct (for_each_close_eq "host_timeout" now (rooms_abandoned now (db s)) s)
    as [-> ->]; [apply HI..|].
  split; [|split; [|done]].
  - do 2 f_equal. apply sql_update_ext_in. intros r Hr.
    destruct (abandoned now r) eqn:E.
    + assert (is_open r = true) as ->.
      { unfold abandoned in E. by bool_facts. }
      rewrite bool_decide_eq_true_2; [done|].
      rewrite rooms_abandoned_eq. apply list_elem_of_In, in_map.
      apply filter_In. split; [by apply list_elem_of_In | done].
    + destruct (is_open r && _) eqn:E2; [|done]. bool_facts.
      rewrite rooms_abandoned_eq in *.
      match goal with H : r_pin r ∈ _ |- _ =>
        apply list_elem_of_In, in_map_iff in H as (r' & Hp & Hin) end.
      apply filter_In in Hin as [Hin Hab].
      assert (r' = r) as ->.
      { eapply (NoDup_map_eq r_pin); [apply HI|..]; try done.
        by apply list_elem_of_In. }
      congruence.
  - apply for_each_close_out; [apply HI..| |].
    + rewrite rooms_abandoned_eq. apply NoDup_map_filter, HI.
    + intros pin Hin. rewrite rooms_abandoned_eq in Hin.
      apply list_elem_of_In, in_map_iff in Hin as (r & Hp & Hin).
      apply filter_In in Hin as [Hin Hab].
      apply (get_room_by_pin_is_Some pin (db s) r);
        [by apply list_elem_of_In | done |].
      unfold abandoned, is_open in Hab. by bool_facts.
Qed.

Section Sweeper.

Variable uuid_str : string → option string.

(** X9.  In every state the server reaches, a pass of the cleanup sweeper
    closes exactly the open rooms whose host is marked disconnected since
    more than [ROOM_TTL_SECONDS] before the store's clock: it writes
    FINISHED and [closed_at] into those rows and into no other, tells each
    of those rooms [room_closed] with the reason host_timeout, in table
    order, and changes nothing else.  A room whose host is connected, or
    was marked disconnected [ROOM_TTL_SECONDS] ago or less, is left as it
    is; a room past that time is not found under its pin afterwards. *)
Theorem cleanup_closes_abandoned_rooms (s : State) (log : list Emit) (now : Z) :
  reachable uuid_str s log →
  let r := cleanup_task now s in
  res_state r
  = with_db
      (with_rooms
         (sql_update (abandoned now) (set_closed now) (rooms (db s))) (db s)) s
  ∧ res_out r
    = map (λ room, (ToRoom (r_pin room), EvRoomClosed "host_timeout"))
        (List.filter (abandoned now) (rooms (db s)))
  ∧ res_exn r = None
  ∧ (∀ room, room ∈ rooms (db s) → r_host_connected room = true →
       room ∈ rooms (db (res_state r)))
  ∧ (∀ room t, room ∈ rooms (db s) → r_host_disconnected_at room = Some t →
       now - seconds ROOM_TTL_SECONDS ≤ t → room ∈ rooms (db (res_state r)))
  ∧ (∀ room t, room ∈ rooms (db s) → r_closed_at room = None →
       r_host_connected room = false → r_host_disconnected_at room = Some t →
       t < now - seconds ROOM_TTL_SECONDS →
       set_closed now room ∈ rooms (db (res_state r))
       ∧ get_room_by_pin (r_pin room) (db (res_state r)) = None
       ∧ (ToRoom (r_pin room), EvRoomClosed "host_timeout") ∈ res_out r).
Proof.
  intros HI%reachable_inv r. subst r.
  destruct (cleanup_task_eq now s log HI) as (-> & -> & ->).
  assert (Hkeep : ∀ room, room ∈ rooms (db s) → abandoned now room = false →
            room ∈ sql_update (abandoned now) (set_closed now) (rooms (db s))).
  { intros room Hr Hab.
    pose proof (elem_of_sql_update_2 (abandoned now) (set_closed now) _ _ Hr)
      as H. by rewrite Hab in H. }
  split; [done|]. split; [by rewrite rooms_abandoned_eq, map_map|].
  split; [done|]. simpl. split; [|split].
  - intros room Hr Hc. apply Hkeep; [done|]. unfold abandoned.
    by rewrite Hc, andb_false_r.
  - intros room t Hr Ht Hle. apply Hkeep; [done|]. unfold abandoned.
    rewrite Ht. apply andb_false_iff. right. lia.
  - intros room t Hr Ho Hc Ht Hlt.
    assert (Hab : abandoned now room = true).
    { unfold abandoned, is_open. rewrite Ho, Hc, Ht. simpl. lia. }
    split; [|split].
    + pose proof (elem_of_sql_update_2 (abandoned now) (set_closed now) _ _ Hr)
        as H. by rewrite Hab in H.
    + unfold get_room_by_pin. simpl. apply find_none_all.
      intros r' (r0 & Hr0 & ->)%elem_of_sql_update.
      destruct (abandoned now r0) eqn:E0; [apply andb_false_r|].
      apply andb_false_iff. left. apply bool_decide_eq_false. intros Hp.
      assert (r0 = room) as -> by (by eapply (NoDup_map_eq r_pin); [apply HI|..]).
      congruence.
    + apply list_elem_of_In, in_map_iff. exists (r_pin room). split; [done|].
      rewrite rooms_abandoned_eq. apply in_map, filter_In.
      split; [by apply list_elem_of_In | done].
Qed.

End Sweeper.

(** ** The watchdog *)

Lemma find_unique {A} (P : A → bool) (l : list A) x :
  x ∈ l → P x = true → (∀ y, y ∈ l → P y = true → y = x) →
  List.find P l = Some x.
Proof.
  intros Hx HP Huniq.
  destruct (List.find P l) as [y|] eqn:E.
  - apply find_some in E as [Hy HPy]. f_equal.
    apply Huniq; [by apply list_elem_of_In | done].
  - eapply find_none in E; [|by apply list_elem_of_In]. congruence.
Qed.

Lemma finish_due_None pin utc s r :
  NoDup (map r_pin (rooms (db s))) →
  finish_due pin utc s = None → r ∈ rooms (db s) →
  finalizable utc pin r = false.
Proof.
  intros Hpin Hd Hr. unfold finish_due in Hd.
  destruct (get_room_by_pin pin (db s)) as [room|] eqn:E.
  - apply get_room_by_pin_some in E as (Hin & Hp & Ho).
    destruct (finalizable utc pin r) eqn:Ef; [|done]. exfalso.
    unfold finalizable, is_open, past_deadline in Ef. bool_facts.
    assert (r = room) as ->
      by (eapply (NoDup_map_eq r_pin); [done..|congruence]).
    unfold require_room_state in Hd.
    rewrite bool_decide_eq_true_2 in Hd
      by (by apply list_elem_of_singleton).
    simpl in Hd. destruct (r_question_ends_at room) as [e|]; [|done].
    destruct (utc <=? e) eqn:E1; [|done]. lia.
  - pose proof (get_room_by_pin_none pin (db s) r E Hr) as H.
    unfold finalizable. by rewrite H.
Qed.

Lemma finish_due_Some pin utc s id :
  finish_due pin utc s = Some id →
  ∃ room e, get_room_by_pin pin (db s) = Some room ∧ id = r_id room
            ∧ r_state room = QUESTION ∧ r_question_ends_at room = Some e
            ∧ e < utc.
Proof.
  unfold finish_due.
  destruct (get_room_by_pin pin (db s)) as [room|]; [|done].
  destruct (negb _) eqn:E1; [done|].
  destruct (r_question_ends_at room) as [e|] eqn:E2; [|done].
  destruct (utc <=? e) eqn:E3; [done|]. intros [= <-].
  exists room, e. repeat split; try done; [|lia].
  unfold require_room_state in E1. bool_facts.
  by apply list_elem_of_singleton in E1.
Qed.

(** What one call of [finish_question_if_due] does, in a state the
    invariant holds of. *)
Lemma finish_question_if_due_eq pin utc now s log :
  Inv s log →
  let r := finish_question_if_due pin utc now s in
  rooms (db (res_state r))
  = sql_update (finalizable utc pin) (set_results now) (rooms (db s))
  ∧ res_exn r = None
  ∧ answers (db (res_state r)) = answers (db s)
  ∧ socket_index (res_state r) = socket_index s
  ∧ groups (res_state r) = groups s
  ∧ rate_limits (res_state r) = rate_limits s
  ∧ match finish_due pin utc s with
    | None => res_state r = s ∧ res_out r = []
    | Some id =>
        ∃ room q e,
          get_room_by_pin pin (db s) = Some room ∧ id = r_id room
          ∧ r_state room = QUESTION
          ∧ r_question_ends_at room = Some e ∧ e < utc
          ∧ question_at (r_current_question_index room) = Some q
          ∧ res_state r
            = res_state (finish_locked pin now (set_results now room)
                           (with_db
                              (with_rooms
                                 (sql_update (finalizable utc pin)
                                    (set_results now) (rooms (db s)))
                                 (db s)) s))
          ∧ res_out r
            = [(ToRoom pin,
                EvQuestionResults (q_correct_index q)
                  (leaderboard_for_room_id (r_id room) (db (res_state r))))]
    end.
Proof.
  intros HI r. subst r. unfold finish_question_if_due.
  destruct (finish_due pin utc s) as [id|] eqn:Ed.
  - apply finish_due_Some in Ed as (room & e & Hroom & -> & Hst & He & Hlt).
    pose proof Hroom as (Hin & Hp & Ho)%get_room_by_pin_some.
    destruct (inv_question _ _ HI room Hin Ho Hst) as (e' & q & He' & Hq & _).
    assert (Hfind : List.find (finalize_cond (r_id room)) (rooms (db s))
                    = Some room).
    { apply find_unique; [done| |].
      - unfold finalize_cond. by rewrite !bool_decide_eq_true_2.
      - intros y Hy Hc. unfold finalize_cond in Hc. bool_facts.
        by eapply (NoDup_map_eq r_id); [apply HI|..]. }
    assert (Hupd : sql_update (finalize_cond (r_id room)) (set_results now)
                     (rooms (db s))
                   = sql_update (finalizable utc pin) (set_results now)
                       (rooms (db s))).
    { apply sql_update_ext_in. intros x Hx.
      destruct (finalize_cond (r_id room) x) eqn:E1.
      - unfold finalize_cond in E1. bool_facts.
        assert (x = room) as -> by (by eapply (NoDup_map_eq r_id); [apply HI|..]).
        unfold finalizable, is_open, past_deadline.
        rewrite He, !bool_decide_eq_true_2 by done. simpl.
        by rewrite (proj2 (Z.ltb_lt e utc)).
      - destruct (finalizable utc pin x) eqn:E2; [|done]. exfalso.
        unfold finalizable, is_open in E2. bool_facts.
        assert (x = room) as ->
          by (eapply (NoDup_map_eq r_pin); [apply HI|..]; congruence).
        unfold finalize_cond in E1. by rewrite !bool_decide_eq_true_2 in E1. }
    unfold finish_commit, finalize_lock. rewrite Hfind, Hupd.
    cbn [fmap option_fmap option_map].
    match goal with |- context [finish_locked pin now ?l ?s1] =>
      set (s1' := s1); set (locked := l) end.
    assert (Hl : finish_locked pin now locked s1'
                 = done (with_db
                    (fst (score_answers (q_correct_index q) (q_duration q)
                            (Some e) (r_id room) now
                            (answers_for (r_id room)
                               (r_current_question_index room) (db s1'))
                            (db s1'))) s1')
                     [(ToRoom pin,
                       EvQuestionResults (q_correct_index q)
                         (leaderboard_for_room_id (r_id room)
                            (fst (score_answers (q_correct_index q)
                                    (q_duration q) (Some e) (r_id room) now
                                    (answers_for (r_id room)
                                       (r_current_question_index room)
                                       (db s1'))
                                    (db s1')))))]).
    { unfold finish_locked, locked.
      cbn [r_id r_current_question_index r_question_ends_at set_results].
      rewrite Hq, He. by rewrite score_answers_players. }
    rewrite Hl. simpl_res.
    split; [by rewrite score_answers_players|].
    split; [done|]. split; [by rewrite score_answers_players|].
    do 3 (split; [done|]).
    exists room, q, e. do 6 (split; [done|]). fold locked. by rewrite Hl.
  - simpl_res. repeat split; try done.
    symmetry. apply sql_update_none. apply not_true_is_false.
    intros (x & Hx & Hc)%existsb_exists.
    rewrite (finish_due_None pin utc s x) in Hc; [done|apply HI|done|].
    by apply list_elem_of_In.
Qed.

Lemma finalizable_found pin utc s room e :
  get_room_by_pin pin (db s) = Some room → r_state room = QUESTION →
  r_question_ends_at room = Some e → e < utc →
  room ∈ rooms (db s) ∧ finalizable utc pin room = true.
Proof.
  intros (Hin & Hp & Ho)%get_room_by_pin_some Hst He Hlt. split; [done|].
  unfold finalizable, is_open, past_deadline.
  rewrite He, !bool_decide_eq_true_2 by done. simpl. lia.
Qed.

Lemma finish_due_is_Some pin utc s :
  NoDup (map r_pin (rooms (db s))) →
  existsb (finalizable utc pin) (rooms (db s))
  = bool_decide (is_Some (finish_due pin utc s)).
Proof.
  intros Hpin. destruct (finish_due pin utc s) as [id|] eqn:E.
  - rewrite bool_decide_eq_true_2 by done.
    apply finish_due_Some in E as (room & e & Hroom & _ & Hst & He & Hlt).
    destruct (finalizable_found pin utc s room e) as [Hin Hf]; try done.
    apply existsb_exists. exists room. split; [by apply list_elem_of_In|done].
  - rewrite bool_decide_eq_false_2 by (by intros [? ?]).
    apply not_true_is_false. intros (x & Hx & Hc)%existsb_exists.
    rewrite (finish_due_None pin utc s x) in Hc; [done..|].
    by apply list_elem_of_In.
Qed.

Lemma existsb_ext_in {A} (P Q : A → bool) (l : list A) :
  (∀ x, x ∈ l → P x = Q x) → existsb P l = existsb Q l.
Proof.
  induction l as [|x l IH]; intros H; simpl; [done|].
  rewrite (H x) by left. f_equal. apply IH. intros y Hy. apply H. by right.
Qed.

Lemma existsb_map {A B} (P : B → bool) (g : A → B) (l : list A) :
  existsb P (map g l) = existsb (λ x, P (g x)) l.
Proof. induction l as [|x l IH]; simpl; [done|]. by rewrite IH. Qed.

Lemma filter_ext_elem {A} (P Q : A → bool) (l : list A) :
  (∀ x, x ∈ l → P x = Q x) → List.filter P l = List.filter Q l.
Proof.
  intros H. apply List.filter_ext_in. intros x Hx. apply H.
  by apply list_elem_of_In.
Qed.

Lemma finalizable_results utc pin now r :
  finalizable utc pin (set_results now r) = false.
Proof. unfold finalizable. simpl. by rewrite andb_false_r. Qed.

Lemma finalizable_pin utc pin r :
  finalizable utc pin r = true → r_pin r = pin.
Proof. unfold finalizable. intros H. by bool_facts. Qed.

(** A run of [finish_question_if_due] over pins that differ. *)
Lemma for_each_finish_eq utc now (l : list string) s log :
  Inv s log → NoDup l →
  let r := for_each (λ pin, finish_question_if_due pin utc now) l s in
  rooms (db (res_state r))
  = sql_update (λ x, bool_decide (r_pin x ∈ l) && finalizable utc (r_pin x) x)
      (set_results now) (rooms (db s))
  ∧ res_exn r = None
  ∧ answers (db (res_state r)) = answers (db s)
  ∧ socket_index (res_state r) = socket_index s
  ∧ groups (res_state r) = groups s
  ∧ rate_limits (res_state r) = rate_limits s
  ∧ map fst (res_out r)
    = map ToRoom
        (List.filter (λ pin, existsb (finalizable utc pin) (rooms (db s))) l)
  ∧ Forall (λ e, is_question_results (snd e) = true) (res_out r).
Proof.
  revert s log. induction l as [|pin l IH]; intros s log HI Hnd; simpl.
  - repeat split; try done; try (by constructor).
    symmetry. apply sql_update_none. apply not_true_is_false.
    by intros (x & Hx & Hc)%existsb_exists.
  - apply NoDup_cons in Hnd as [Hnotin Hnd].
    pose proof (finish_question_if_due_preserves pin utc now s log HI) as HI1.
    destruct (finish_question_if_due_eq pin utc now s log HI)
      as (Hr1 & He1 & Ha1 & Hs1 & Hg1 & Hl1 & Hout1).
    rewrite He1.
    destruct (IH _ _ HI1 Hnd) as (Hr & He & Ha & Hs & Hg & Hl & Hout & Hall).
    cbn [res_state res_out res_exn].
    rewrite Hr, He, Ha, Hs, Hg, Hl, Hr1, Ha1, Hs1, Hg1, Hl1.
    split; [|split; [done|]; do 4 (split; [done|])].
    + apply sql_update_twice. intros x Hx. cbv zeta.
      destruct (finalizable utc pin x) eqn:E1.
      * rewrite finalizable_results, andb_false_r.
        rewrite (finalizable_pin _ _ _ E1), E1.
        by rewrite bool_decide_eq_true_2 by left.
      * destruct (decide (r_pin x = pin)) as [->|Hne].
        { by rewrite E1, !andb_false_r. }
        destruct (decide (r_pin x ∈ l)).
        -- rewrite !bool_decide_eq_true_2; [done | by right | done].
        -- rewrite !bool_decide_eq_false_2; [done| |done].
           intros [?|?]%elem_of_cons; done.
    + rewrite List.map_app.
      rewrite (finish_due_is_Some pin utc s) by apply HI.
      split.
      * etransitivity; [exact (f_equal (app _) Hout)|]. rewrite Hr1.
        destruct (finish_due pin utc s) as [id|] eqn:Ed.
        -- destruct Hout1 as (room & q & e & _ & _ & _ & _ & _ & _ & _ & ->).
           rewrite bool_decide_eq_true_2 by done. simpl. do 2 f_equal.
           apply filter_ext_elem. intros pin' Hin'.
           unfold sql_update. rewrite existsb_map. apply existsb_ext_in.
           intros x Hx. destruct (finalizable utc pin x) eqn:E1; [|done].
           rewrite finalizable_results. symmetry. apply not_true_is_false.
           intros E2. apply finalizable_pin in E1, E2. congruence.
        -- destruct Hout1 as [_ ->].
           rewrite bool_decide_eq_false_2 by (by intros [? ?]). simpl.
           f_equal. apply filter_ext_elem. intros pin' Hin'.
           by rewrite sql_update_none
             by (apply not_true_is_false;
                 intros (x & Hx & Hc)%existsb_exists;
                 rewrite (finish_due_None pin utc s x) in Hc;
                 [done|apply HI|done|by apply list_elem_of_In]).
      * apply Forall_app. split; [|done].
        destruct (finish_due pin utc s) as [id|] eqn:Ed.
        -- destruct Hout1 as (room & q & e & _ & _ & _ & _ & _ & _ & _ & ->).
           by repeat constructor.
        -- destruct Hout1 as [_ ->]. constructor.
Qed.

Lemma rooms_due_eq now d :
  rooms_due now d = map r_pin (List.filter (due now) (rooms d)).
Proof. done. Qed.

Lemma filter_map_comm {A B} (P : B → bool) (f : A → B) (l : list A) :
  List.filter P (map f l) = map f (List.filter (λ x, P (f x)) l).
Proof.
  induction l as [|x l IH]; simpl; [done|].
  destruct (P (f x)); simpl; by rewrite IH.
Qed.

Lemma filter_filter {A} (P Q : A → bool) (l : list A) :
  List.filter P (List.filter Q l) = List.filter (λ x, Q x && P x) l.
Proof.
  induction l as [|x l IH]; simpl; [done|].
  destruct (Q x); simpl; [|done]. destruct (P x); by rewrite IH.
Qed.

Lemma due_finalizable now utc s log x :
  Inv s log → x ∈ rooms (db s) → due now x = true →
  existsb (finalizable utc (r_pin x)) (rooms (db s)) = past_deadline utc x.
Proof.
  intros HI Hx Hd. unfold due, is_open in Hd. bool_facts.
  destruct (past_deadline utc x) eqn:E.
  - apply existsb_exists. exists x. split; [by apply list_elem_of_In|].
    unfold finalizable, is_open. by rewrite E, !bool_decide_eq_true_2.
  - apply not_true_is_false. intros (y & Hy & Hc)%existsb_exists.
    pose proof (finalizable_pin _ _ _ Hc) as Hp.
    assert (y = x) as ->.
    { eapply (NoDup_map_eq r_pin); [apply HI|by apply list_elem_of_In|..];
        done. }
    unfold finalizable in Hc. bool_facts. congruence.
Qed.

Lemma watchdog_task_eq utc now s log :
  Inv s log →
  let r := watchdog_task utc now s in
  rooms (db (res_state r))
  = sql_update (λ x, due now x && past_deadline utc x) (set_results now)
      (rooms (db s))
  ∧ res_exn r = None
  ∧ answers (db (res_state r)) = answers (db s)
  ∧ socket_index (res_state r) = socket_index s
  ∧ groups (res_state r) = groups s
  ∧ rate_limits (res_state r) = rate_limits s
  ∧ map fst (res_out r)
    = map (λ x, ToRoom (r_pin x))
        (List.filter (λ x, due now x && past_deadline utc x) (rooms (db s)))
  ∧ Forall (λ e, is_question_results (snd e) = true) (res_out r).
Proof.
  intros HI r. subst r. unfold watchdog_task.
  destruct (for_each_finish_eq utc now (rooms_due now (db s)) s log HI)
    as (Hr & He & Ha & Hs & Hg & Hl & Hout & Hall).
  { rewrite rooms_due_eq. apply NoDup_map_filter, HI. }
  rewrite Hr, He, Ha, Hs, Hg, Hl, Hout.
  split; [|do 5 (split; [done|]); split; [|done]].
  - apply sql_update_ext_in. intros x Hx.
    assert (bool_decide (r_pin x ∈ rooms_due now (db s)) = due now x) as ->.
    { destruct (due now x) eqn:E.
      - apply bool_decide_eq_true. rewrite rooms_due_eq.
        apply list_elem_of_In, in_map, filter_In.
        split; [by apply list_elem_of_In | done].
      - apply bool_decide_eq_false. rewrite rooms_due_eq.
        intros (y & Hp & Hin)%list_elem_of_In%in_map_iff.
        apply filter_In in Hin as [Hin Hd].
        assert (y = x) as ->.
        { eapply (NoDup_map_eq r_pin); [apply HI|by apply list_elem_of_In|..];
            done. }
        congruence. }
    destruct (due now x) eqn:E; [|done]. simpl.
    unfold due, is_open in E. bool_facts.
    unfold finalizable, is_open. by rewrite !bool_decide_eq_true_2.
  - rewrite rooms_due_eq, filter_map_comm, filter_filter, map_map.
    f_equal. apply filter_ext_elem. intros x Hx.
    destruct (due now x) eqn:E; [|done]. simpl.
    by eapply due_finalizable.
Qed.

Section Watchdog.

Variable uuid_str : string → option string.

(** X10.  In every state the server reaches, [finish_question_if_due]
    never fails; it moves to RESULTS the open room with the pin when that
    room is in QUESTION and the process clock is past its deadline, and
    then sends the room one [question_results] with the correct index of
    its question and its leaderboard as the store holds it after the
    scoring; for any other room, and when there is none, it returns with
    the whole state as it was and sends nothing.  No other room row, no
    answer, and nothing of the registry moves. *)
Theorem finish_question_if_due_finalizes (s : State) (log : list Emit)
    (pin : string) (utc now : Z) :
  reachable uuid_str s log →
  let r := finish_question_if_due pin utc now s in
  res_exn r = None
  ∧ rooms (db (res_state r))
    = sql_update (finalizable utc pin) (set_results now) (rooms (db s))
  ∧ answers (db (res_state r)) = answers (db s)
  ∧ socket_index (res_state r) = socket_index s
  ∧ groups (res_state r) = groups s
  ∧ ((∀ x, x ∈ rooms (db s) → finalizable utc pin x = false) →
     r = done s [])
  ∧ (∀ room, room ∈ rooms (db s) → finalizable utc pin room = true →
     ∃ q, question_at (r_current_question_index room) = Some q
          ∧ res_out r
            = [(ToRoom pin,
                EvQuestionResults (q_correct_index q)
                  (leaderboard_for_room_id (r_id room) (db (res_state r))))]
          ∧ set_results now room ∈ rooms (db (res_state r))).
Proof.
  intros HI%reachable_inv r. subst r.
  destruct (finish_question_if_due_eq pin utc now s log HI)
    as (Hr & He & Ha & Hs & Hg & Hl & Hout).
  do 5 (split; [done|]). split.
  - intros Hnone. destruct (finish_due pin utc s) as [id|] eqn:Ed.
    + apply finish_due_Some in Ed as (room & e & Hroom & _ & Hst & Hq & Hlt).
      destruct (finalizable_found pin utc s room e) as [Hin Hf]; try done.
      rewrite Hnone in Hf; done.
    + unfold finish_question_if_due. by rewrite Ed.
  - intros room Hin Hf. destruct (finish_due pin utc s) as [id|] eqn:Ed.
    + destruct Hout as (room' & q & e & Hroom & _ & _ & _ & _ & Hq & _ & Hout).
      apply get_room_by_pin_some in Hroom as (Hin' & Hp & _).
      assert (room' = room) as ->.
      { eapply (NoDup_map_eq r_pin); [apply HI|..]; try done.
        apply finalizable_pin in Hf. congruence. }
      exists q. split; [done|]. split; [done|]. rewrite Hr.
      pose proof (elem_of_sql_update_2 (finalizable utc pin) (set_results now)
                    _ _ Hin) as H.
      by rewrite Hf in H.
    + rewrite (finish_due_None pin utc s room) in Hf; [done|apply HI|done..].
Qed.

(** X11.  In every state the server reaches, a pass of the watchdog never
    fails; it moves to RESULTS exactly the open rooms in QUESTION whose
    deadline is before both clocks, the store's and the process's, and
    sends each of them one [question_results], in table order, and
    nothing else; no answer and nothing of the registry moves.  When the
    process clock is not behind the store's, no room is left overdue. *)
Theorem watchdog_finalizes_overdue (s : State) (log : list Emit)
    (utc now : Z) :
  reachable uuid_str s log →
  let r := watchdog_task utc now s in
  res_exn r = None
  ∧ rooms (db (res_state r))
    = sql_update (λ x, due now x && past_deadline utc x) (set_results now)
        (rooms (db s))
  ∧ map fst (res_out r)
    = map (λ x, ToRoom (r_pin x))
        (List.filter (λ x, due now x && past_deadline utc x) (rooms (db s)))
  ∧ Forall (λ e, is_question_results (snd e) = true) (res_out r)
  ∧ answers (db (res_state r)) = answers (db s)
  ∧ socket_index (res_state r) = socket_index s
  ∧ groups (res_state r) = groups s
  ∧ (now ≤ utc → rooms_due now (db (res_state r)) = []).
Proof.
  intros HI%reachable_inv r. subst r.
  destruct (watchdog_task_eq utc now s log HI)
    as (Hr & He & Ha & Hs & Hg & Hl & Hout & Hall).
  do 7 (split; [done|]). intros Hclock.
  rewrite rooms_due_eq, Hr. rewrite filter_none; [done|].
  rewrite list.Forall_forall. intros x' (x & Hx & ->)%elem_of_sql_update.
  destruct (due now x) eqn:Ed; simpl.
  - assert (past_deadline utc x = true) as ->.
    { unfold due, past_deadline in *.
      destruct (r_question_ends_at x); bool_facts; [lia|done]. }
    unfold due. simpl. by rewrite andb_false_r.
  - done.
Qed.

End Watchdog.

(** ** The host's two actions *)

Lemma verify_host_found sid data s room :
  verify_host_and_get_room sid data s = inl room →
  get_room_by_pin (r_pin room) (db s) = Some room.
Proof.
  intros (pin & tok & meta & _ & _ & Hr & _)%verify_host_inl.
  pose proof Hr as (_ & <- & _)%get_room_by_pin_some. done.
Qed.

(** What [start_question] does to a room whose index has just been set. *)
Lemma start_question_after_index room i now s q :
  get_room_by_pin (r_pin room) (db s) = Some room →
  require_room_state room [LOBBY; RESULTS] = true →
  question_at i = Some q →
  start_question (r_pin room) now
    (with_db (update_room (r_id room) (set_question_index i now) (db s)) s)
  = done
      (with_db
         (update_room (r_id room)
            (λ r, set_question (q_duration q) now (set_question_index i now r))
            (db s)) s)
      [(ToRoom (r_pin room),
        EvQuestionStarted i (q_text q) (q_options q)
          (Py.timestamp (now + seconds (q_duration q))))].
Proof.
  intros Hroom Hst Hq.
  rewrite (start_question_eq _ _ _ (set_question_index i now room) q).
  - simpl. unfold update_room, with_db, with_rooms. simpl. do 3 f_equal.
    unfold sql_update. rewrite map_map. apply map_ext. intros r.
    destruct (bool_decide (r_id r = r_id room)) eqn:E; simpl; by rewrite E.
  - simpl. rewrite get_room_by_pin_update, Hroom by done. simpl.
    by rewrite bool_decide_eq_true_2.
  - done.
  - done.
Qed.

Section HostActions.

Variable uuid_str : string → option string.

(** What [start_game] does when the host is verified and the room is
    in LOBBY. *)
Lemma start_game_eq sid now data s room :
  verify_host_and_get_room sid data s = inl room →
  r_state room = LOBBY →
  ∃ q,
    QUESTIONS !! 0%nat = Some q
    ∧ start_game sid now data s
      = done
          (with_db
             (update_room (r_id room)
                (λ r, set_question (q_duration q) now
                        (set_question_index 0 now r)) (db s)) s)
          [(ToRoom (r_pin room),
            EvQuestionStarted 0 (q_text q) (q_options q)
              (Py.timestamp (now + seconds (q_duration q))))]
    ∧ get_room_by_pin (r_pin room) (db (res_state (start_game sid now data s)))
      = Some (set_question (q_duration q) now (set_question_index 0 now room))
    ∧ r_state (set_question (q_duration q) now (set_question_index 0 now room))
      = QUESTION
    ∧ r_question_ends_at
        (set_question (q_duration q) now (set_question_index 0 now room))
      = Some (now + seconds (q_duration q)).
Proof.
  intros Hv Hst. pose proof (verify_host_found _ _ _ _ Hv) as Hroom.
  destruct (question_at 0) as [q|] eqn:Hq; [|done]. exists q.
  assert (Heq : start_game sid now data s
          = done
              (with_db
                 (update_room (r_id room)
                    (λ r, set_question (q_duration q) now
                            (set_question_index 0 now r)) (db s)) s)
              [(ToRoom (r_pin room),
                EvQuestionStarted 0 (q_text q) (q_options q)
                  (Py.timestamp (now + seconds (q_duration q))))]).
  { unfold start_game. rewrite Hv.
    unfold require_room_state at 1. rewrite Hst. simpl.
    apply start_question_after_index; [done| |done].
    unfold require_room_state. rewrite Hst. done. }
  split; [done|]. split; [done|]. rewrite Heq. simpl_res.
  repeat split.
  rewrite get_room_by_pin_update, Hroom by done. simpl.
  by rewrite bool_decide_eq_true_2.
Qed.

(** X12.  [start_game] by the verified host of a room in LOBBY puts the
    room into QUESTION at the first question: the index becomes 0, the
    question starts at the store's clock and ends its duration later, and
    the room is sent [question_started] with the index 0, the text and
    options of the first question and that deadline.  No other room row,
    no player and no answer moves. *)
Theorem start_game_starts_first_question (sid : string) (now : Z)
    (data : HostData) (s : State) (room : Room) :
  verify_host_and_get_room sid data s = inl room →
  r_state room = LOBBY →
  ∃ q,
    QUESTIONS !! 0%nat = Some q
    ∧ start_game sid now data s
      = done
          (with_db
             (update_room (r_id room)
                (λ r, set_question (q_duration q) now
                        (set_question_index 0 now r)) (db s)) s)
          [(ToRoom (r_pin room),
            EvQuestionStarted 0 (q_text q) (q_options q)
              (Py.timestamp (now + seconds (q_duration q))))]
    ∧ get_room_by_pin (r_pin room) (db (res_state (start_game sid now data s)))
      = Some (set_question (q_duration q) now (set_question_index 0 now room))
    ∧ r_state (set_question (q_duration q) now (set_question_index 0 now room))
      = QUESTION
    ∧ r_question_ends_at
        (set_question (q_duration q) now (set_question_index 0 now room))
      = Some (now + seconds (q_duration q)).
Proof. apply start_game_eq. Qed.

(** What [next_question] does when the host is verified and the room is
    in RESULTS. *)
Lemma next_question_eq sid now data s room :
  verify_host_and_get_room sid data s = inl room →
  r_state room = RESULTS →
  let i := r_current_question_index room + 1 in
  (∀ q, question_at i = Some q →
     next_question sid now data s
     = done
         (with_db
            (update_room (r_id room)
               (λ r, set_question (q_duration q) now
                       (set_question_index i now r)) (db s)) s)
         [(ToRoom (r_pin room),
           EvQuestionStarted i (q_text q) (q_options q)
             (Py.timestamp (now + seconds (q_duration q))))]
     ∧ get_room_by_pin (r_pin room)
         (db (res_state (next_question sid now data s)))
       = Some (set_question (q_duration q) now (set_question_index i now room)))
  ∧ (Z.of_nat (length QUESTIONS) ≤ i →
     next_question sid now data s
     = done (with_db (update_room (r_id room) (set_closed now) (db s)) s)
         [(ToRoom (r_pin room),
           EvGameFinished (leaderboard_for_room_id (r_id room) (db s)))]).
Proof.
  intros Hv Hst i. pose proof (verify_host_found _ _ _ _ Hv) as Hroom.
  split.
  - intros q Hq.
    assert (Hlt : (Z.of_nat (length QUESTIONS) <=? i) = false).
    { unfold question_at in Hq. destruct (_ && _) eqn:E; [|done].
      bool_facts. lia. }
    assert (Heq : next_question sid now data s
            = done
                (with_db
                   (update_room (r_id room)
                      (λ r, set_question (q_duration q) now
                              (set_question_index i now r)) (db s)) s)
                [(ToRoom (r_pin room),
                  EvQuestionStarted i (q_text q) (q_options q)
                    (Py.timestamp (now + seconds (q_duration q))))]).
    { unfold next_question. rewrite Hv.
      unfold require_room_state at 1. rewrite Hst. simpl negb. cbv iota.
      fold i. rewrite Hlt.
      apply start_question_after_index; [done| |done].
      unfold require_room_state. rewrite Hst. done. }
    split; [done|]. rewrite Heq. simpl_res.
    rewrite get_room_by_pin_update, Hroom by done. simpl.
    by rewrite bool_decide_eq_true_2.
  - intros Hge. unfold next_question. rewrite Hv.
    unfold require_room_state at 1. rewrite Hst. simpl negb. cbv iota.
    fold i. by rewrite (proj2 (Z.leb_le _ _) Hge).
Qed.

(** X13.  [next_question] by the verified host of a room in RESULTS: when
    a question follows the current one, the room goes to QUESTION at the
    next index, with a deadline one duration after the store's clock, and
    is sent [question_started] for it; when none follows, the room is
    closed, FINISHED, and is sent [game_finished] with its leaderboard,
    and no player and no answer moves. *)
Theorem next_question_moves_on (sid : string) (now : Z)
    (data : HostData) (s : State) (room : Room) :
  verify_host_and_get_room sid data s = inl room →
  r_state room = RESULTS →
  let i := r_current_question_index room + 1 in
  (∀ q, question_at i = Some q →
     next_question sid now data s
     = done
         (with_db
            (update_room (r_id room)
               (λ r, set_question (q_duration q) now
                       (set_question_index i now r)) (db s)) s)
         [(ToRoom (r_pin room),
           EvQuestionStarted i (q_text q) (q_options q)
             (Py.timestamp (now + seconds (q_duration q))))]
     ∧ get_room_by_pin (r_pin room)
         (db (res_state (next_question sid now data s)))
       = Some (set_question (q_duration q) now (set_question_index i now room)))
  ∧ (Z.of_nat (length QUESTIONS) ≤ i →
     next_question sid now data s
     = done (with_db (update_room (r_id room) (set_closed now) (db s)) s)
         [(ToRoom (r_pin room),
           EvGameFinished (leaderboard_for_room_id (r_id room) (db s)))]).
Proof. apply next_question_eq. Qed.

End HostActions.

Section RoundTrips.

Variable uuid_str : string → option string.

(** X14.  A host that has just created a room can start the game at
    once: after [room_created], [start_game] over the same connection
    with the pin and the token that were reported is let through, and the
    room is sent [question_started] for the first question. *)
Theorem created_room_can_start (sid : string) (t : Q) (now : Z)
    (pins : nat → string) (host_token : string) (s : State)
    (pin tok : string) (now' : Z) :
  let s' := res_state (create_room sid t now pins host_token s) in
  (ToSid sid, EvRoomCreated pin tok)
    ∈ res_out (create_room sid t now pins host_token s) →
  pin ≠ "" → tok ≠ "" →
  ∃ new q,
    verify_host_and_get_room sid
      {| hd_pin := Some pin; hd_host_token := Some tok |} s' = inl new
    ∧ r_pin new = pin ∧ r_host_token new = tok ∧ r_state new = LOBBY
    ∧ QUESTIONS !! 0%nat = Some q
    ∧ res_out (start_game sid now'
                 {| hd_pin := Some pin; hd_host_token := Some tok |} s')
      = [(ToRoom pin,
          EvQuestionStarted 0 (q_text q) (q_options q)
            (Py.timestamp (now' + seconds (q_duration q))))].
Proof.
  intros s' Hin Hpin Htok. subst s'. revert Hin. unfold create_room.
  destruct (is_rate_limited _ _ _ _ _) as [limited rl].
  destruct limited; simpl_res; [by intros [=]%list_elem_of_singleton|].
  destruct (generate_unique_pin _ _) as [pin'|]; simpl_res;
    [|by intros ?%elem_of_nil].
  unfold insert_room. simpl_res.
  destruct (existsb _ _) eqn:E; simpl_res; [by intros ?%elem_of_nil|].
  intros [= -> ->]%list_elem_of_singleton.
  set (new := {| r_id := rooms_seq (db s) + 1; r_pin := pin';
                 r_host_token := host_token; r_state := LOBBY;
                 r_current_question_index := -1;
                 r_question_started_at := None; r_question_ends_at := None;
                 r_host_connected := true; r_host_disconnected_at := None;
                 r_created_at := now; r_last_activity_at := now;
                 r_closed_at := None |}).
  remember (register sid
              {| m_pin := pin'; m_role := RoleHost; m_token := host_token |}
              (with_db
                 (with_rooms (rooms (db s) ++ [new])
                    {| rooms := rooms (db s); players := players (db s);
                       answers := answers (db s);
                       rooms_seq := rooms_seq (db s) + 1;
                       players_seq := players_seq (db s);
                       answers_seq := answers_seq (db s) |})
                 (with_rate_limits rl s))) as s' eqn:Hs'.
  assert (Hg : get_room_by_pin pin' (db s') = Some new).
  { subst s'. unfold get_room_by_pin, register. simpl.
    rewrite find_app_none.
    - simpl. unfold is_open. simpl. by rewrite !bool_decide_eq_true_2.
    - apply not_true_is_false. intros (r & Hr & Hc)%existsb_exists.
      bool_facts.
      assert (existsb (λ r, bool_decide (r_pin r = pin')) (rooms (db s))
              = true); [|congruence].
      apply existsb_exists. exists r. split; [done|].
      by apply bool_decide_eq_true. }
  assert (Hm : socket_index s' !! sid
               = Some {| m_pin := pin'; m_role := RoleHost;
                         m_token := host_token |}).
  { subst s'. unfold register. simpl. by rewrite lookup_insert_eq. }
  assert (Hv : verify_host_and_get_room sid
                 {| hd_pin := Some pin'; hd_host_token := Some host_token |} s'
               = inl new).
  { unfold verify_host_and_get_room.
    cbn [hd_pin hd_host_token Py.falsy Py.or_empty default from_option id].
    rewrite (bool_decide_eq_false_2 (pin' = "")),
      (bool_decide_eq_false_2 (host_token = "")) by done.
    cbn [orb]. rewrite Hg, Hm. subst new. simpl.
    by rewrite !bool_decide_eq_true_2. }
  destruct (start_game_eq sid now'
              {| hd_pin := Some pin'; hd_host_token := Some host_token |}
              s' new Hv eq_refl) as (q & Hq & Heq & _).
  exists new, q. split; [exact Hv|]. do 3 (split; [done|]).
  split; [exact Hq|]. by rewrite Heq.
Qed.

(** X15.  A host that has reconnected is let through: after
    [host_reconnected], the host's actions over the same connection with
    the pin and the token as the store holds it pass the verification,
    whatever the registry held before. *)
Theorem reconnected_host_is_verified (sid : string) (now : Z)
    (data : HostData) (s : State) (st : RoomState) (idx : Z)
    (ps : list LeaderRow) (qv : option QuestionView)
    (rv : option ResultsView) :
  let s' := res_state (reconnect_host uuid_str sid now data s) in
  (ToSid sid, EvHostReconnected st idx ps qv rv)
    ∈ res_out (reconnect_host uuid_str sid now data s) →
  ∃ pin room,
    hd_pin data = Some pin
    ∧ get_room_by_pin pin (db s) = Some room
    ∧ uuid_str (Py.or_empty (hd_host_token data)) = Some (r_host_token room)
    ∧ (r_host_token room ≠ "" →
       verify_host_and_get_room sid
         {| hd_pin := Some pin; hd_host_token := Some (r_host_token room) |} s'
       = inl (set_host_online now room)).
Proof.
  intros s'. subst s'. unfold reconnect_host.
  destruct (hd_pin data) as [pin|]; simpl;
    [|by intros [=]%list_elem_of_singleton].
  repeat (split_match; simpl_res; try by intros [=]%list_elem_of_singleton).
  intros _. bool_facts.
  match goal with H : get_room_by_pin pin _ = Some ?r |- _ =>
    exists pin, r; rename H into Hroom end.
  split; [done|]. split; [done|]. split; [congruence|].
  intros Hne. unfold verify_host_and_get_room. simpl.
  rewrite (bool_decide_eq_false_2 (pin = "")) by done.
  rewrite (bool_decide_eq_false_2 (_ = "")) by done. simpl.
  unfold register. simpl.
  rewrite get_room_by_pin_update, Hroom by done.
  cbn [fmap option_fmap option_map]. rewrite lookup_insert_eq.
  rewrite (bool_decide_eq_true_2 (r_id _ = r_id _)) by done.
  cbn [set_host_online r_host_token m_role m_pin].
  by rewrite !bool_decide_eq_true_2.
Qed.

End RoundTrips.

(** ** The life of a room *)

Lemma Forall2_update {A} (R : A → A → Prop) cond (f : A → A) rows :
  (∀ r, r ∈ rows → R r r) →
  (∀ r, r ∈ rows → cond r = true → R r (f r)) →
  Forall2 R rows (sql_update cond f rows).
Proof.
  intros Hrefl Hset. induction rows as [|r rows IH]; simpl; constructor.
  - destruct (cond r) eqn:E; [apply Hset; [left|done] | apply Hrefl; left].
  - apply IH; intros; [apply Hrefl | apply Hset]; try done; by right.
Qed.

Lemma Forall2_Move_same rows : Forall2 Move rows rows.
Proof. apply Forall2_same. constructor. Qed.

(** A write to the row of the room that was read under a pin is a write to
    that row alone. *)
Lemma moves_update_found s log pin room f d :
  Inv s log → get_room_by_pin pin (db s) = Some room →
  rooms d = rooms (db s) →
  (r_closed_at room = None → Move room (f room)) →
  Forall2 Move (rooms (db s)) (rooms (update_room (r_id room) f d)).
Proof.
  intros HI (Hin & _ & Ho)%get_room_by_pin_some Hd Hm.
  unfold update_room. simpl. rewrite Hd. apply Forall2_update.
  - intros. constructor.
  - intros r Hr Hc. bool_facts.
    assert (r = room) as -> by (by eapply (NoDup_map_eq r_id); [apply HI|..]).
    by apply Hm.
Qed.

Lemma question_at_0 q : QUESTIONS !! 0%nat = Some q → question_at 0 = Some q.
Proof. done. Qed.

Lemma question_at_Some i :
  0 ≤ i < Z.of_nat (length QUESTIONS) → is_Some (question_at i).
Proof.
  intros Hi. unfold question_at.
  rewrite (proj2 (Z.leb_le 0 i)), (proj2 (Z.ltb_lt i _)) by lia. simpl.
  apply lookup_lt_is_Some. lia.
Qed.

Lemma question_at_bounds i q :
  question_at i = Some q → 0 ≤ i < Z.of_nat (length QUESTIONS).
Proof.
  unfold question_at. destruct (_ && _) eqn:E; [|done]. bool_facts. lia.
Qed.

Lemma new_room_ok r : new_room r → RowOK r.
Proof.
  intros (H1 & H2 & H3 & H4 & H5 & H6 & H7). split.
  - rewrite H1, H7. split; [done|]. by intros [].
  - done.
  - rewrite H1. by intros [|].
  - by rewrite H5, H6.
Qed.

Lemma Move_RowOK r r' : RowOK r → Move r r' → RowOK r'.
Proof.
  intros [Hf Hl Hq Hh] Hm.
  destruct Hm as [|now Ho|now Ho|now Ho|q now Ho Hst Hq'|q now Ho Hst Hq'
                  |e now Ho Hst He Hlt|now Ho Hst Hlen|t now Ho Hc Ht Hlt];
    split; simpl; try done.
  - intros _. by exists q, now.
  - intros _. by exists q, now.
  - intros _. apply Hq. by left.
  - by intros [|].
  - by intros [|].
Qed.

Section LifeCycle.

Variable uuid_str : string → option string.

Lemma on_disconnect_moves sid now s log :
  Inv s log →
  Forall2 Move (rooms (db s))
    (rooms (db (res_state (on_disconnect uuid_str sid now s)))).
Proof.
  intros HI. unfold on_disconnect.
  repeat (split_match; simpl_res); try apply Forall2_Move_same.
  eapply (moves_update_found s log); try done.
  - match goal with H : (if ?b then _ else _) = Some _ |- _ =>
      destruct b; [done | exact H] end.
  - intros Ho. by constructor.
Qed.

Lemma join_game_moves sid t now data player_token s log :
  Inv s log →
  Forall2 Move (rooms (db s))
    (rooms (db (res_state (join_game sid t now data player_token s)))).
Proof.
  intros HI. unfold join_game.
  destruct (is_rate_limited _ _ _ _ _) as [limited rl].
  repeat (split_match; simpl_res); try apply Forall2_Move_same;
    match goal with H : insert_player ?a ?b ?c ?d ?e = _ |- _ =>
      destruct (insert_player_rooms a b c d e) as [H1 _];
      rewrite H in H1; simpl in H1
    end.
  - unfold register, touch_room_activity. simpl.
    eapply (moves_update_found s log); try done. intros Ho. by constructor.
  - rewrite H1. apply Forall2_Move_same.
Qed.

Lemma reconnect_player_moves sid now data s log :
  Inv s log →
  Forall2 Move (rooms (db s))
    (rooms (db (res_state (reconnect_player uuid_str sid now data s)))).
Proof.
  intros HI. unfold reconnect_player.
  repeat (split_match; simpl_res); try apply Forall2_Move_same.
  unfold register, touch_room_activity. simpl.
  eapply (moves_update_found s log); try done. intros Ho. by constructor.
Qed.

Lemma reconnect_host_moves sid now data s log :
  Inv s log →
  Forall2 Move (rooms (db s))
    (rooms (db (res_state (reconnect_host uuid_str sid now data s)))).
Proof.
  intros HI. unfold reconnect_host.
  repeat (split_match; simpl_res); try apply Forall2_Move_same.
  unfold register. simpl.
  eapply (moves_update_found s log); try done. intros Ho. by constructor.
Qed.

Lemma submit_answer_moves sid t utc now data s log :
  Inv s log →
  Forall2 Move (rooms (db s))
    (rooms (db (res_state (submit_answer uuid_str sid t utc now data s)))).
Proof.
  intros HI. unfold submit_answer.
  destruct (is_rate_limited _ _ _ _ _) as [limited rl].
  repeat (split_match; simpl_res); try apply Forall2_Move_same.
  unfold touch_room_activity.
  eapply (moves_update_found s log); try done. intros Ho. by constructor.
Qed.

Lemma start_game_moves sid now data s log :
  Inv s log →
  Forall2 Move (rooms (db s))
    (rooms (db (res_state (start_game sid now data s)))).
Proof.
  intros HI.
  destruct (verify_host_and_get_room sid data s) as [room|msg] eqn:Hv;
    [|unfold start_game; rewrite Hv; apply Forall2_Move_same].
  destruct (decide (r_state room = LOBBY)) as [Hst|Hst].
  - destruct (start_game_eq sid now data s room Hv Hst) as (q & Hq & -> & _).
    simpl_res.
    eapply (moves_update_found s log); try done.
    + by apply verify_host_found in Hv.
    + intros Ho. by apply move_start; [..|apply question_at_0].
  - unfold start_game. rewrite Hv, state_not_allowed by done.
    apply Forall2_Move_same.
Qed.

Lemma next_question_moves sid now data s log :
  Inv2 s log →
  Forall2 Move (rooms (db s))
    (rooms (db (res_state (next_question sid now data s)))).
Proof.
  intros [HI Hok].
  destruct (verify_host_and_get_room sid data s) as [room|msg] eqn:Hv;
    [|unfold next_question; rewrite Hv; apply Forall2_Move_same].
  pose proof (verify_host_found _ _ _ _ Hv) as Hroom.
  destruct (decide (r_state room = RESULTS)) as [Hst|Hst].
  - destruct (next_question_eq sid now data s room Hv Hst) as [Hnext Hend].
    destruct (decide (Z.of_nat (length QUESTIONS)
                      ≤ r_current_question_index room + 1)) as [Hlen|Hlen].
    + rewrite (Hend Hlen). simpl_res.
      eapply (moves_update_found s log); try done.
      intros Ho. by apply move_finish.
    + pose proof Hroom as (Hin & _ & _)%get_room_by_pin_some.
      rewrite list.Forall_forall in Hok.
      destruct (row_question _ (Hok room Hin)) as (q0 & t & Hq0 & _);
        [by right|].
      apply question_at_bounds in Hq0.
      destruct (question_at_Some (r_current_question_index room + 1))
        as [q Hq]; [lia|].
      destruct (Hnext q Hq) as [-> _]. simpl_res.
      eapply (moves_update_found s log); try done.
      intros Ho. by apply move_next.
  - unfold next_question. rewrite Hv, state_not_allowed by done.
    apply Forall2_Move_same.
Qed.

Lemma watchdog_task_moves utc now s log :
  Inv s log →
  Forall2 Move (rooms (db s)) (rooms (db (res_state (watchdog_task utc now s)))).
Proof.
  intros HI. destruct (watchdog_task_eq utc now s log HI) as (-> & _).
  apply Forall2_update; [intros; constructor|].
  intros r Hr Hc. unfold due, is_open in Hc. bool_facts.
  destruct (r_question_ends_at r) as [e|] eqn:He; [|done].
  apply (move_results r e); try done. lia.
Qed.

Lemma cleanup_task_moves now s log :
  Inv s log →
  Forall2 Move (rooms (db s)) (rooms (db (res_state (cleanup_task now s)))).
Proof.
  intros HI. destruct (cleanup_task_eq now s log HI) as (-> & _). simpl.
  apply Forall2_update; [intros; constructor|].
  intros r Hr Hc. unfold abandoned, is_open in Hc. bool_facts.
  destruct (r_host_disconnected_at r) as [t|] eqn:Ht; [|done].
  apply (move_timeout r t); try done. lia.
Qed.

Lemma create_room_moves sid t now pins host_token s :
  ∃ extra,
    rooms (db (res_state (create_room sid t now pins host_token s)))
    = rooms (db s) ++ extra
    ∧ Forall new_room extra ∧ (length extra ≤ 1)%nat.
Proof.
  unfold create_room. destruct (is_rate_limited _ _ _ _ _) as [limited rl].
  assert (Hnil : ∃ extra, rooms (db s) = rooms (db s) ++ extra
                          ∧ Forall new_room extra ∧ (length extra ≤ 1)%nat).
  { exists []. rewrite app_nil_r. repeat split; [constructor | simpl; lia]. }
  repeat (split_match; simpl_res); try done;
    match goal with H : insert_room _ _ _ _ = _ |- _ =>
      unfold insert_room in H; simpl_res in H;
      destruct (existsb _ _) in H; injection H as <-
    end; try done.
  eexists. split; [reflexivity|]. split; [|simpl; lia].
  by repeat constructor.
Qed.

(** What one step does to the room rows, in a state the invariant holds
    of. *)
Lemma step_moves a s log :
  Inv2 s log →
  ∃ rows' extra,
    rooms (db (res_state (step uuid_str a s))) = rows' ++ extra
    ∧ Forall2 Move (rooms (db s)) rows'
    ∧ Forall new_room extra ∧ (length extra ≤ 1)%nat.
Proof.
  intros HI2. pose proof HI2 as [HI Hok].
  assert (Hsame : ∀ rows', Forall2 Move (rooms (db s)) rows' →
            ∃ rows'' extra, rows' = rows'' ++ extra
              ∧ Forall2 Move (rooms (db s)) rows''
              ∧ Forall new_room extra ∧ (length extra ≤ 1)%nat).
  { intros rows' H. exists rows', []. rewrite app_nil_r.
    repeat split; [done | constructor | simpl; lia]. }
  destruct a; simpl.
  - by eapply Hsame, on_disconnect_moves.
  - destruct (create_room_moves sid t now pins host_token s)
      as (extra & -> & H1 & H2).
    exists (rooms (db s)), extra. repeat split; try done.
    apply Forall2_Move_same.
  - by eapply Hsame, join_game_moves.
  - by eapply Hsame, reconnect_player_moves.
  - by eapply Hsame, reconnect_host_moves.
  - by eapply Hsame, start_game_moves.
  - by eapply Hsame, next_question_moves.
  - by eapply Hsame, submit_answer_moves.
  - by eapply Hsame, watchdog_task_moves.
  - by eapply Hsame, cleanup_task_moves.
  - apply Hsame, Forall2_Move_same.
Qed.

Lemma Forall2_Move_ok rows rows' :
  Forall RowOK rows → Forall2 Move rows rows' → Forall RowOK rows'.
Proof.
  intros Hok Hm. induction Hm as [|r r' rows rows' Hr _ IH]; [done|].
  apply Forall_cons in Hok as [Hr0 Hok]. constructor; [|by apply IH].
  by eapply Move_RowOK.
Qed.

Lemma step_preserves2 a s log :
  Inv2 s log →
  Inv2 (res_state (step uuid_str a s)) (log ++ res_out (step uuid_str a s)).
Proof.
  intros HI2. pose proof HI2 as [HI Hok]. split.
  - by apply step_preserves.
  - destruct (step_moves a s log HI2) as (rows' & extra & -> & Hm & Hnew & _).
    apply Forall_app. split.
    + by eapply Forall2_Move_ok.
    + eapply Forall_impl; [exact Hnew|]. apply new_room_ok.
Qed.

Lemma reachable_inv2 s log : reachable uuid_str s log → Inv2 s log.
Proof.
  induction 1 as [|s log a _ IH].
  - split; [apply inv_init | constructor].
  - by apply step_preserves2.
Qed.

(** X16.  In every state the server reaches, one step changes a room row
    in one of these ways or not at all, and only while the row is open:
    it stamps its activity; it marks the host disconnected or connected;
    it takes it from LOBBY to QUESTION at index 0; from RESULTS to
    QUESTION at the next index; from QUESTION to RESULTS, its deadline
    being past; from RESULTS to FINISHED and closed when no question
    follows; or to FINISHED and closed when the host has been away for
    longer than [ROOM_TTL_SECONDS].  No row is removed, and a step adds
    at most one row, an open room in LOBBY with the index -1. *)
Theorem room_life_cycle (s : State) (log : list Emit) (a : Action) :
  reachable uuid_str s log →
  ∃ rows' extra,
    rooms (db (res_state (step uuid_str a s))) = rows' ++ extra
    ∧ Forall2 Move (rooms (db s)) rows'
    ∧ Forall new_room extra ∧ (length extra ≤ 1)%nat.
Proof. intros HI%reachable_inv2. by eapply step_moves. Qed.

(** X17.  In every state the server reaches, every room row is well
    formed: it is FINISHED exactly when it is closed; in LOBBY its index
    is -1 and it has no question times; in QUESTION and in RESULTS its
    index names a question, and its deadline is the duration of that
    question after its start; and the host is marked connected exactly
    when no time of disconnection is recorded. *)
Theorem room_rows_well_formed (s : State) (log : list Emit) :
  reachable uuid_str s log → Forall RowOK (rooms (db s)).
Proof. by intros [_ H]%reachable_inv2. Qed.

End LifeCycle.

(** ** What a reconnection is told *)

Lemma hydrate_by_state room d :
  RowOK room → r_closed_at room = None →
  r_state room ≠ FINISHED
  ∧ (r_state room = LOBBY →
     r_current_question_index room = -1
     ∧ hydrate_question room = None ∧ hydrate_results room d = None)
  ∧ (r_state room = QUESTION →
     hydrate_results room d = None
     ∧ ∃ q t,
         question_at (r_current_question_index room) = Some q
         ∧ r_question_started_at room = Some t
         ∧ hydrate_question room
           = Some {| qv_text := q_text q; qv_options := q_options q;
                     qv_ends_at := Py.timestamp (t + seconds (q_duration q)) |})
  ∧ (r_state room = RESULTS →
     hydrate_question room = None
     ∧ ∃ q,
         question_at (r_current_question_index room) = Some q
         ∧ hydrate_results room d
           = Some {| rv_correct_index := q_correct_index q;
                     rv_leaderboard := leaderboard_for_room_id (r_id room) d |}).
Proof.
  intros [Hf Hl Hq Hh] Ho. unfold hydrate_question, hydrate_results.
  split; [|split; [|split]].
  - intros Hst. by apply Hf in Hst.
  - intros Hst. rewrite Hst. split; [by apply Hl | done].
  - intros Hst. destruct Hq as (q & t & Hq & Hs & He); [by left|].
    rewrite Hst, He, Hq. split; [done|]. by exists q, t.
  - intros Hst. destruct Hq as (q & t & Hq & Hs & He); [by right|].
    rewrite Hst, Hq. split; [done|]. by exists q.
Qed.

Section Hydration.

Variable uuid_str : string → option string.

(** X18.  In every state the server reaches, a [reconnect_player] that
    is answered with [reconnected] tells the player the state and the
    index of the open room with the pin and the score of the player row
    with the token.  The state is never FINISHED.  In LOBBY the index is
    -1 and the payload has neither question nor results; in QUESTION it
    has the text and options of the current question and a deadline that
    is the duration of this question after its start, and no results; in
    RESULTS it has the correct index of the current question and the
    leaderboard of the room as the store holds it after the
    reconnection, and no question. *)
Theorem hydration_by_state (s : State) (log : list Emit)
    (sid : string) (now : Z) (data : PlayerData) (st : RoomState)
    (score idx : Z) (question : option QuestionView)
    (results : option ResultsView) :
  reachable uuid_str s log →
  let r := reconnect_player uuid_str sid now data s in
  (ToSid sid, EvReconnected st score idx question results) ∈ res_out r →
  ∃ pin room player,
    pd_pin data = Some pin
    ∧ get_room_by_pin pin (db s) = Some room
    ∧ player ∈ players (db s) ∧ p_room_id player = r_id room
    ∧ uuid_str (Py.or_empty (pd_player_token data))
      = Some (p_player_token player)
    ∧ st = r_state room ∧ idx = r_current_question_index room
    ∧ score = p_score player
    ∧ st ≠ FINISHED
    ∧ (st = LOBBY → idx = -1 ∧ question = None ∧ results = None)
    ∧ (st = QUESTION →
       results = None
       ∧ ∃ q t,
           question_at idx = Some q ∧ r_question_started_at room = Some t
           ∧ question
             = Some {| qv_text := q_text q; qv_options := q_options q;
                       qv_ends_at :=
                         Py.timestamp (t + seconds (q_duration q)) |})
    ∧ (st = RESULTS →
       question = None
       ∧ ∃ q,
           question_at idx = Some q
           ∧ results
             = Some {| rv_correct_index := q_correct_index q;
                       rv_leaderboard :=
                         leaderboard_for_room_id (r_id room)
                           (db (res_state r)) |}).
Proof.
  intros [HI Hok]%reachable_inv2 r. subst r. unfold reconnect_player.
  destruct (pd_pin data) as [pin|]; simpl;
    [|by intros [=]%list_elem_of_singleton].
  repeat (split_match; simpl_res; try by intros [=]%list_elem_of_singleton).
  intros [= -> -> -> -> ->]%list_elem_of_singleton.
  match goal with H : get_room_by_pin pin _ = Some ?r |- _ =>
    pose proof H as (Hin & Hp & Ho)%get_room_by_pin_some; rename H into Hroom
  end.
  match goal with H : List.find _ _ = Some ?p |- _ =>
    apply find_some in H as [Hpin Hc]; bool_facts
  end.
  rewrite list.Forall_forall in Hok.
  eexists pin, _, _. split; [done|]. split; [exact Hroom|].
  split; [by apply list_elem_of_In|]. split; [done|].
  split; [congruence|]. do 3 (split; [done|]).
  by eapply hydrate_by_state; [apply Hok|].
Qed.

(** X19.  In every state the server reaches, no open room is FINISHED:
    a room that is found under its pin is in LOBBY, QUESTION or RESULTS.
    So [join_game] never answers that the game has finished; a finished
    game is a closed room, and for the pin of a closed room the answer is
    that the room was not found. *)
Theorem open_room_is_not_finished (s : State) (log : list Emit) :
  reachable uuid_str s log →
  (∀ pin room, get_room_by_pin pin (db s) = Some room →
     r_state room ≠ FINISHED)
  ∧ (∀ sid t now data player_token,
       (ToSid sid, EvJoinError "Game finished")
         ∉ res_out (join_game sid t now data player_token s))
  ∧ (∀ sid t now data player_token room,
       room ∈ rooms (db s) → r_closed_at room ≠ None →
       jd_pin data = Some (r_pin room) →
       ∃ message,
         message ≠ "Game finished"
         ∧ res_out (join_game sid t now data player_token s)
           = [(ToSid sid, EvJoinError message)]).
Proof.
  intros [HI Hok]%reachable_inv2. rewrite list.Forall_forall in Hok.
  assert (Hopen : ∀ pin room, get_room_by_pin pin (db s) = Some room →
            r_state room ≠ FINISHED).
  { intros pin room (Hin & _ & Ho)%get_room_by_pin_some Hst.
    by apply (row_finished _ (Hok room Hin)) in Hst. }
  split; [done|]. split.
  - intros sid t now data player_token. unfold join_game.
    destruct (is_rate_limited _ _ _ _ _) as [limited rl].
    repeat (split_match; simpl_res);
      try (by intros [=]%list_elem_of_singleton);
      try (by intros ?%elem_of_nil).
    + intros _. bool_facts. by eapply Hopen.
    + intros [[=]|[=]%list_elem_of_singleton]%elem_of_cons.
  - intros sid t now data player_token room Hin Hc Hpin.
    assert (Hnone : get_room_by_pin (r_pin room) (db s) = None).
    { destruct (get_room_by_pin (r_pin room) (db s)) as [room'|] eqn:E;
        [|done].
      apply get_room_by_pin_some in E as (Hin' & Hp & Ho).
      assert (room' = room) as ->
        by (by eapply (NoDup_map_eq r_pin); [apply HI|..]).
      done. }
    unfold join_game. destruct (is_rate_limited _ _ _ _ _) as [limited rl].
    rewrite Hpin. simpl_res. cbn [Py.or_empty default from_option id].
    rewrite Hnone.
    repeat (split_match; simpl_res); (eexists; split; [|reflexivity]; done).
Qed.

End Hydration.

(** ** White space around a name *)

Lemma lstrip_head s c t : Py.lstrip s = String c t → Py.is_space c = false.
Proof.
  induction s as [|a s IH]; simpl; [done|].
  destruct (Py.is_space a) eqn:E; [done|]. by intros [= <- _].
Qed.

Lemma lstrip_fixed c t :
  Py.is_space c = false → Py.lstrip (String c t) = String c t.
Proof. intros H. simpl. by rewrite H. Qed.

Lemma rstrip_idempotent s : Py.rstrip (Py.rstrip s) = Py.rstrip s.
Proof.
  induction s as [|c s IH]; simpl; [done|].
  destruct (Py.rstrip s) as [|d r] eqn:E.
  - destruct (Py.is_space c) eqn:Ec; simpl; [done|]. by rewrite Ec.
  - change (Py.rstrip (String c (String d r))) with
      (match Py.rstrip (String d r) with
       | EmptyString =>
           if Py.is_space c then EmptyString else String c EmptyString
       | String a b => String c (String a b)
       end).
    by rewrite IH.
Qed.

Lemma rstrip_head c t :
  Py.is_space c = false → ∃ t', Py.rstrip (String c t) = String c t'.
Proof.
  intros H. simpl. destruct (Py.rstrip t); [|by eexists].
  rewrite H. by eexists.
Qed.

Lemma strip_idempotent s : Py.strip (Py.strip s) = Py.strip s.
Proof.
  unfold Py.strip. destruct (Py.lstrip s) as [|c t] eqn:E; [done|].
  pose proof (lstrip_head s c t E) as Hc.
  destruct (rstrip_head c t Hc) as [t' Ht]. rewrite Ht.
  rewrite lstrip_fixed by done. by rewrite <- Ht, rstrip_idempotent.
Qed.

(** ** The table of players *)

Lemma grows_map {B} (g : Player → B) ps ps' :
  (∀ p p', grows p p' → g p' = g p) →
  Forall2 grows ps ps' → map g ps' = map g ps.
Proof.
  intros Hg H. induction H as [|p p' ps ps' Hp _ IH]; simpl; [done|].
  by rewrite IH, (Hg p p').
Qed.

Lemma grows_count room_id ps ps' :
  Forall2 grows ps ps' →
  length (List.filter (λ p, bool_decide (p_room_id p = room_id)) ps')
  = length (List.filter (λ p, bool_decide (p_room_id p = room_id)) ps).
Proof.
  intros H. induction H as [|p p' ps ps' Hp _ IH]; simpl; [done|].
  destruct Hp as (_ & -> & _). destruct (bool_decide _); simpl; by rewrite IH.
Qed.

Lemma start_question_players_seq pin now s :
  players_seq (db (res_state (start_question pin now s))) = players_seq (db s).
Proof. unfold start_question. by repeat (split_match; simpl_res). Qed.

Lemma score_answers_players_seq correct duration ends_at room_id now l d :
  players_seq (fst (score_answers correct duration ends_at room_id now l d))
  = players_seq d.
Proof.
  destruct (score_answers_with_players correct duration ends_at room_id now l d)
    as [ps ->]. done.
Qed.

Lemma finish_question_if_due_players_seq pin utc now s :
  players_seq (db (res_state (finish_question_if_due pin utc now s)))
  = players_seq (db s).
Proof.
  unfold finish_question_if_due, finish_commit, finalize_lock.
  destruct (finish_due _ _ _); simpl_res; [|done].
  destruct (List.find _ _) as [locked|]; simpl; [|done].
  unfold finish_locked.
  destruct (question_at _) as [q|]; simpl_res; [|done].
  match goal with |- context [score_answers ?c ?du ?e ?i ?n ?l ?d] =>
    pose proof (score_answers_players_seq c du e i n l d) as H;
    destruct (score_answers c du e i n l d) as [d' [x|]]
  end; exact H.
Qed.

Lemma for_each_players_seq {A} (f : A → State → Result) (l : list A) s :
  (∀ x s, players_seq (db (res_state (f x s))) = players_seq (db s)) →
  players_seq (db (res_state (for_each f l s))) = players_seq (db s).
Proof.
  intros Hf. revert s. induction l as [|x l IH]; intros s; simpl; [done|].
  destruct (res_exn (f x s)); [apply Hf|]. simpl. by rewrite IH, Hf.
Qed.

Lemma close_room_players_seq pin reason now s :
  players_seq (db (res_state (close_room pin reason now s)))
  = players_seq (db s).
Proof. unfold close_room. by destruct (get_room_by_pin _ _). Qed.

Lemma insert_room_players_seq pin tok now d :
  players_seq (fst (insert_room pin tok now d)) = players_seq d.
Proof. unfold insert_room. by destruct (existsb _ _). Qed.

Section Players.

Variable uuid_str : string → option string.

(** What one step does to the table of players. *)
Lemma step_players_shape a s :
  ∃ ps extra,
    players (db (res_state (step uuid_str a s))) = ps ++ extra
    ∧ Forall2 grows (players (db s)) ps
    ∧ players_seq (db s) ≤ players_seq (db (res_state (step uuid_str a s)))
    ∧ (extra = []
       ∨ ∃ new, extra = [new] ∧ joined s new
                ∧ players_seq (db (res_state (step uuid_str a s)))
                  = players_seq (db s) + 1).
Proof.
  assert (Hsame : ∀ d, Forall2 grows (players (db s)) (players d) →
            players_seq d = players_seq (db s) →
            ∃ ps extra, players d = ps ++ extra
              ∧ Forall2 grows (players (db s)) ps
              ∧ players_seq (db s) ≤ players_seq d
              ∧ (extra = []
                 ∨ ∃ new, extra = [new] ∧ joined s new
                          ∧ players_seq d = players_seq (db s) + 1)).
  { intros d H Hseq. exists (players d), []. rewrite app_nil_r.
    repeat split; [done | lia | by left]. }
  assert (Hid : Forall2 grows (players (db s)) (players (db s)))
    by apply Forall2_same, grows_refl.
  destruct a; simpl.
  - apply Hsame; unfold on_disconnect;
      repeat (split_match; simpl_res); try done.
    apply Forall2_sql_update; [apply grows_refl|].
    intros x. unfold grows. simpl. repeat split; lia.
  - apply Hsame; unfold create_room;
      destruct (is_rate_limited _ _ _ _ _) as [limited rl];
      repeat (split_match; simpl_res); try done;
      match goal with H : insert_room ?a ?b ?c ?d = _ |- _ =>
        pose proof (insert_room_players a b c d) as Ha;
        pose proof (insert_room_players_seq a b c d) as Hb;
        rewrite H in Ha, Hb;
        unfold register; simpl in *; by rewrite ?Ha, ?Hb
      end.
  - unfold join_game. destruct (is_rate_limited _ _ _ _ _) as [limited rl].
    repeat (split_match; simpl_res); try (by apply Hsame);
      match goal with H : insert_player _ _ _ _ _ = _ |- _ =>
        unfold insert_player in H; simpl_res in H;
        destruct (existsb _ _) eqn:Eex in H; injection H as <-
      end; try done.
    + bool_facts.
      match goal with H : get_room_by_pin _ _ = Some ?r |- _ =>
        apply get_room_by_pin_some in H as (Hin & Hp & Ho) end.
      eexists _, _. split; [reflexivity|]. split; [done|].
      split; [simpl; lia|]. right. eexists. split; [reflexivity|].
      split; [|simpl; lia].
      eexists. repeat split; try done.
      * unfold player_count. lia.
      * simpl. match goal with H : (40 <? _)%nat = false |- _ =>
          apply Nat.ltb_ge in H; exact H end.
      * simpl. by rewrite strip_idempotent.
      * simpl. intros p Hpl [Hx Hy].
        match goal with H : existsb ?f (players (db s)) = false |- _ =>
          assert (existsb f (players (db s)) = true); [|congruence]
        end.
        apply existsb_exists. exists p. split; [by apply list_elem_of_In|].
        by rewrite !bool_decide_eq_true_2.
    + exists (players (db s)), []. rewrite app_nil_r. simpl.
      repeat split; [done | lia | by left].
  - apply Hsame; unfold reconnect_player;
      repeat (split_match; simpl_res); try done.
    apply Forall2_sql_update; [apply grows_refl|].
    intros x. unfold grows. simpl. repeat split; lia.
  - apply Hsame; unfold reconnect_host;
      by repeat (split_match; simpl_res).
  - apply Hsame; unfold start_game;
      repeat (split_match; simpl_res); try done.
    + by rewrite start_question_players.
    + by rewrite start_question_players_seq.
  - apply Hsame; unfold next_question;
      repeat (split_match; simpl_res); try done.
    + by rewrite start_question_players.
    + by rewrite start_question_players_seq.
  - apply Hsame; unfold submit_answer;
      destruct (is_rate_limited _ _ _ _ _) as [limited rl];
      by repeat (split_match; simpl_res).
  - apply Hsame; unfold watchdog_task.
    + apply for_each_grows. intros. apply finish_question_if_due_grows.
    + apply for_each_players_seq. intros.
      apply finish_question_if_due_players_seq.
  - apply Hsame; unfold cleanup_task.
    + rewrite for_each_players; [done|]. intros. apply close_room_players.
    + apply for_each_players_seq. intros. apply close_room_players_seq.
  - by apply Hsame.
Qed.

End Players.

Section Scores.

Variable uuid_str : string → option string.

(** X7.  No step of the server removes a player row, lowers a score, or
    changes a player's id, room, token, name or [created_at]; a step adds
    at most one row, after the rows there are, and with the score 0. *)
Theorem scores_never_decrease (a : Action) (s : State) :
  ∃ ps extra,
    players (db (res_state (step uuid_str a s))) = ps ++ extra
    ∧ Forall2 grows (players (db s)) ps
    ∧ (length extra ≤ 1)%nat
    ∧ Forall (λ p, p_score p = 0) extra.
Proof.
  destruct (step_players_shape uuid_str a s)
    as (ps & extra & Heq & Hg & _ & Hextra).
  exists ps, extra. split; [done|]. split; [done|].
  destruct Hextra as [->|(new & -> & (room & _ & _ & _ & _ & _ & Hsc & _) & _)].
  - split; [simpl; lia | constructor].
  - split; [simpl; lia | by repeat constructor].
Qed.

(** X8.  A call of [submit_answer] that stores a row was made over a
    connection registered as a player of that very pin with that very
    token; the row it stores carries the room it has read, the token in
    its canonical text, the room's current question and an option that
    the question has, is stamped with the store's clock, and is the first
    row of that player for that question. *)
Theorem submit_answer_binds_identity (sid : string) (t : Q) (utc now : Z)
    (data : AnswerData) (s : State) :
  let r := submit_answer uuid_str sid t utc now data s in
  answers (db (res_state r)) ≠ answers (db s) →
  ∃ pin room tok_s q option_index player_token,
    ad_pin data = Some pin ∧ ad_player_token data = Some tok_s
    ∧ ad_option data = Some (Some option_index)
    ∧ get_room_by_pin pin (db s) = Some room
    ∧ socket_index s !! sid
      = Some {| m_pin := pin; m_role := RolePlayer; m_token := tok_s |}
    ∧ uuid_str tok_s = Some player_token
    ∧ question_at (r_current_question_index room) = Some q
    ∧ 0 ≤ option_index < Z.of_nat (length (q_options q))
    ∧ (∀ b, b ∈ answers (db s) →
            answer_key b
            ≠ (r_id room, player_token, r_current_question_index room))
    ∧ answers (db (res_state r))
      = answers (db s)
        ++ [ {| a_id := answers_seq (db s) + 1; a_room_id := r_id room;
                a_player_token := player_token;
                a_question_index := r_current_question_index room;
                a_option_index := option_index; a_answered_at := now |} ].
Proof.
  intros r. subst r. unfold submit_answer.
  destruct (is_rate_limited _ _ _ _ _) as [limited rl].
  repeat (split_match; simpl_res; try done).
  unfold touch_room_activity, insert_answer. simpl.
  destruct (existsb _ _) eqn:Eex; simpl; [done|]. intros _.
  bool_facts.
  eexists _, _, _, _, _, _. repeat split; try done; try lia.
  - match goal with H : socket_index s !! sid = Some ?m |- _ =>
      destruct m; simpl in *; congruence end.
  - intros b Hb Hkey. unfold answer_key in Hkey. injection Hkey as Hk1 Hk2 Hk3.
    match goal with H : existsb ?f (answers (db s)) = false |- _ =>
      assert (existsb f (answers (db s)) = true); [|congruence]
    end.
    apply existsb_exists. exists b. split; [by apply list_elem_of_In|].
    by rewrite !bool_decide_eq_true_2.
Qed.

End Scores.

Lemma grows_Forall (P : Player → Prop) ps ps' :
  (∀ p p', grows p p' → P p → P p') →
  Forall P ps → Forall2 grows ps ps' → Forall P ps'.
Proof.
  intros HP Hps H. induction H as [|p p' ps ps' Hp _ IH]; [done|].
  apply Forall_cons in Hps as [H1 H2]. constructor; [by eapply HP | by apply IH].
Qed.

Lemma Forall2_elem_r {A B} (R : A → B → Prop) l l' y :
  Forall2 R l l' → y ∈ l' → ∃ x, x ∈ l ∧ R x y.
Proof.
  induction 1 as [|a b l l' Hab _ IH]; [by intros ?%elem_of_nil|].
  intros [->|Hy]%elem_of_cons.
  - exists a. split; [by left | done].
  - destruct (IH Hy) as (x & Hx & Hxy). exists x. split; [by right | done].
Qed.

Lemma Move_id r r' : Move r r' → r_id r' = r_id r.
Proof. by destruct 1. Qed.

Lemma Forall2_Move_ids rows rows' :
  Forall2 Move rows rows' → map r_id rows' = map r_id rows.
Proof.
  induction 1 as [|r r' rows rows' Hr _ IH]; simpl; [done|].
  by rewrite IH, (Move_id r r').
Qed.

Lemma room_id_kept (rows rows' extra : list Room) id :
  map r_id rows' = map r_id rows →
  (∃ r, r ∈ rows ∧ r_id r = id) → ∃ r, r ∈ rows' ++ extra ∧ r_id r = id.
Proof.
  intros Hmap (r & Hr & Hid).
  assert (Hin : id ∈ map r_id rows').
  { rewrite Hmap. apply list_elem_of_In, in_map_iff. exists r.
    split; [done | by apply list_elem_of_In]. }
  apply list_elem_of_In, in_map_iff in Hin as (r' & Hid' & Hin').
  exists r'. split; [|done]. apply elem_of_app. left.
  by apply list_elem_of_In.
Qed.

Section PlayersTable.

Variable uuid_str : string → option string.

Lemma players_ok_step a s log :
  Inv2 s log → PlayersOK (db s) →
  PlayersOK (db (res_state (step uuid_str a s))).
Proof.
  intros HI2 [Hids Hbound Htok Hrooms Hnames Hscores Hfull].
  destruct (step_players_shape uuid_str a s)
    as (ps & extra & Heq & Hg & Hseq & Hextra).
  destruct (step_moves uuid_str a s log HI2)
    as (rows' & extra_r & Hreq & Hm & _).
  pose proof (Forall2_Move_ids _ _ Hm) as Hrid.
  assert (Hmid : map p_id ps = map p_id (players (db s))).
  { apply grows_map; [|done]. by intros p p' (? & _). }
  assert (Hmkey : map (λ p, (p_room_id p, p_player_token p)) ps
                  = map (λ p, (p_room_id p, p_player_token p))
                      (players (db s))).
  { apply grows_map; [|done]. by intros p p' (_ & -> & -> & _). }
  assert (Hb' : Forall (λ p, p_id p ≤ players_seq (db s)) ps).
  { eapply grows_Forall; [|exact Hbound|exact Hg].
    by intros p p' (-> & _). }
  assert (Hr' : ∀ p, p ∈ ps →
            ∃ r, r ∈ rooms (db (res_state (step uuid_str a s)))
                 ∧ r_id r = p_room_id p).
  { intros p' Hp'. rewrite Hreq.
    apply (room_id_kept (rooms (db s))); [done|].
    destruct (Forall2_elem_r _ _ _ _ Hg Hp') as (p & Hp & Hgp).
    destruct Hgp as (_ & -> & _). by apply Hrooms. }
  assert (Hn' : Forall (λ p, name_ok (p_name p)) ps).
  { eapply grows_Forall; [|exact Hnames|exact Hg].
    by intros p p' (_ & _ & _ & -> & _). }
  assert (Hs' : Forall (λ p, 0 ≤ p_score p) ps).
  { eapply grows_Forall; [|exact Hscores|exact Hg].
    intros p p' (_ & _ & _ & _ & _ & Hle) H0. lia. }
  assert (Hc' : ∀ room_id,
            length (List.filter (λ p, bool_decide (p_room_id p = room_id)) ps)
            = player_count room_id (db s)).
  { intros room_id. by apply grows_count. }
  destruct Hextra as [->|(new & -> & Hj & Hseq')].
  - rewrite app_nil_r in Heq. split.
    + by rewrite Heq, Hmid.
    + rewrite Heq. eapply Forall_impl; [exact Hb'|]. simpl. lia.
    + by rewrite Heq, Hmkey.
    + intros p Hp. rewrite Heq in Hp. by apply Hr'.
    + by rewrite Heq.
    + by rewrite Heq.
    + intros room_id. unfold player_count. rewrite Heq, Hc'. apply Hfull.
  - destruct Hj as (room & Hin & Ho & Hroom & Hcount & Hid & Hsc & _ & Hname
                    & Hfresh).
    split.
    + rewrite Heq, map_app, Hmid. simpl.
      apply NoDup_app. split; [done|]. split; [|apply NoDup_singleton].
      intros x Hx ->%list_elem_of_singleton.
      apply list_elem_of_In, in_map_iff in Hx as (p & Hp & Hpin).
      rewrite list.Forall_forall in Hbound.
      apply list_elem_of_In, Hbound in Hpin. lia.
    + rewrite Heq. apply Forall_app. split.
      * eapply Forall_impl; [exact Hb'|]. simpl. lia.
      * constructor; [lia | constructor].
    + rewrite Heq, map_app, Hmkey. simpl.
      apply NoDup_app. split; [done|]. split; [|apply NoDup_singleton].
      intros x Hx ->%list_elem_of_singleton.
      apply list_elem_of_In, in_map_iff in Hx as (p & Hp & Hpin).
      injection Hp as H1 H2. by eapply Hfresh; [apply list_elem_of_In|].
    + intros p Hp. rewrite Heq in Hp.
      apply elem_of_app in Hp as [Hp| ->%list_elem_of_singleton];
        [by apply Hr'|].
      rewrite Hreq, Hroom. apply (room_id_kept (rooms (db s))); [done|].
      by exists room.
    + rewrite Heq. apply Forall_app. split; [done|].
      constructor; [exact Hname | constructor].
    + rewrite Heq. apply Forall_app. split; [done|].
      constructor; [lia | constructor].
    + intros room_id. unfold player_count in *.
      rewrite Heq, List.filter_app, length_app, Hc'. simpl.
      destruct (decide (p_room_id new = room_id)) as [<-|Hne].
      * rewrite bool_decide_eq_true_2 by done. simpl. rewrite Hroom.
        unfold MAX_PLAYERS_PER_ROOM in *. lia.
      * rewrite bool_decide_eq_false_2 by done. simpl.
        specialize (Hfull room_id). lia.
Qed.

Lemma reachable_players_ok s log :
  reachable uuid_str s log → PlayersOK (db s).
Proof.
  induction 1 as [|s log a Hr IH].
  - split; simpl; try constructor; try done.
    + by intros p ?%elem_of_nil.
  - eapply players_ok_step; [by apply (reachable_inv2 uuid_str) | done].
Qed.

(** X20.  In every state the server reaches, no room has more than
    [MAX_PLAYERS_PER_ROOM] players. *)
Theorem room_never_overfull (s : State) (log : list Emit) (room_id : Z) :
  reachable uuid_str s log →
  Z.of_nat (player_count room_id (db s)) ≤ MAX_PLAYERS_PER_ROOM.
Proof. intros H%reachable_players_ok. apply H. Qed.


End PlayersTable.

(** ** The table of answers *)

Lemma start_question_answers_seq pin now s :
  answers_seq (db (res_state (start_question pin now s))) = answers_seq (db s).
Proof. unfold start_question. by repeat (split_match; simpl_res). Qed.

Lemma finish_question_if_due_answers_seq pin utc now s :
  answers_seq (db (res_state (finish_question_if_due pin utc now s)))
  = answers_seq (db s).
Proof.
  unfold finish_question_if_due, finish_commit, finalize_lock.
  destruct (finish_due _ _ _); simpl_res; [|done].
  destruct (List.find _ _) as [locked|]; simpl; [|done].
  unfold finish_locked.
  destruct (question_at _) as [q|]; simpl_res; [|done].
  match goal with |- context [score_answers ?c ?du ?e ?i ?n ?l ?d] =>
    destruct (score_answers_with_players c du e i n l d) as [ps H];
    destruct (score_answers c du e i n l d) as [d' [x|]]
  end; simpl in H; subst d'; done.
Qed.

Lemma for_each_answers_seq {A} (f : A → State → Result) (l : list A) s :
  (∀ x s, answers_seq (db (res_state (f x s))) = answers_seq (db s)) →
  answers_seq (db (res_state (for_each f l s))) = answers_seq (db s).
Proof.
  intros Hf. revert s. induction l as [|x l IH]; intros s; simpl; [done|].
  destruct (res_exn (f x s)); [apply Hf|]. simpl. by rewrite IH, Hf.
Qed.

Lemma close_room_answers_seq pin reason now s :
  answers_seq (db (res_state (close_room pin reason now s)))
  = answers_seq (db s).
Proof. unfold close_room. by destruct (get_room_by_pin _ _). Qed.

Lemma insert_room_answers_seq pin tok now d :
  answers_seq (fst (insert_room pin tok now d)) = answers_seq d.
Proof. unfold insert_room. by destruct (existsb _ _). Qed.

Lemma insert_player_answers_seq room_id tok name now d :
  answers_seq (fst (insert_player room_id tok name now d)) = answers_seq d.
Proof. unfold insert_player. by destruct (existsb _ _). Qed.

Section AnswersTable.

Variable uuid_str : string → option string.

(** What one step does to the table of answers. *)
Lemma step_answers_shape a s :
  ∃ extra,
    answers (db (res_state (step uuid_str a s))) = answers (db s) ++ extra
    ∧ answers_seq (db s) ≤ answers_seq (db (res_state (step uuid_str a s)))
    ∧ (extra = []
       ∨ ∃ new, extra = [new] ∧ stored s new
                ∧ answers_seq (db (res_state (step uuid_str a s)))
                  = answers_seq (db s) + 1).
Proof.
  assert (Hsame : ∀ d, answers d = answers (db s) →
            answers_seq (db s) ≤ answers_seq d →
            ∃ extra, answers d = answers (db s) ++ extra
              ∧ answers_seq (db s) ≤ answers_seq d
              ∧ (extra = []
                 ∨ ∃ new, extra = [new] ∧ stored s new
                          ∧ answers_seq d = answers_seq (db s) + 1)).
  { intros d H Hseq. exists []. rewrite app_nil_r.
    repeat split; [done | done | by left]. }
  assert (Hle : ∀ x y : Z, x = y → y ≤ x) by (intros; lia).
  destruct a; simpl.
  - apply Hsame; [|apply Hle]; unfold on_disconnect;
      by repeat (split_match; simpl_res).
  - apply Hsame; [|apply Hle]; unfold create_room;
      destruct (is_rate_limited _ _ _ _ _) as [limited rl];
      repeat (split_match; simpl_res); try done;
      match goal with H : insert_room ?a ?b ?c ?d = _ |- _ =>
        pose proof (insert_room_answers a b c d) as Ha;
        pose proof (insert_room_answers_seq a b c d) as Hb;
        rewrite H in Ha, Hb;
        unfold register; simpl in *; by rewrite ?Ha, ?Hb
      end.
  - apply Hsame; [|apply Hle]; unfold join_game;
      destruct (is_rate_limited _ _ _ _ _) as [limited rl];
      repeat (split_match; simpl_res); try done;
      match goal with H : insert_player ?a ?b ?c ?d ?e = _ |- _ =>
        pose proof (insert_player_answers a b c d e) as Ha;
        pose proof (insert_player_answers_seq a b c d e) as Hb;
        rewrite H in Ha, Hb;
        unfold register; simpl in *; by rewrite ?Ha, ?Hb
      end.
  - apply Hsame; [|apply Hle]; unfold reconnect_player;
      by repeat (split_match; simpl_res).
  - apply Hsame; [|apply Hle]; unfold reconnect_host;
      by repeat (split_match; simpl_res).
  - apply Hsame; [|apply Hle]; unfold start_game;
      repeat (split_match; simpl_res); try done.
    + by rewrite start_question_answers.
    + by rewrite start_question_answers_seq.
  - apply Hsame; [|apply Hle]; unfold next_question;
      repeat (split_match; simpl_res); try done.
    + by rewrite start_question_answers.
    + by rewrite start_question_answers_seq.
  - unfold submit_answer.
    destruct (is_rate_limited _ _ _ _ _) as [limited rl].
    repeat (split_match; simpl_res); try (by apply Hsame).
    unfold touch_room_activity, insert_answer. simpl.
    destruct (existsb _ _) eqn:Eex; simpl.
    + exists []. rewrite app_nil_r. repeat split; [lia | by left].
    + bool_facts.
      match goal with H : get_room_by_pin _ _ = Some ?r |- _ =>
        apply get_room_by_pin_some in H as (Hin & Hp & Ho) end.
      eexists. split; [reflexivity|]. split; [lia|]. right.
      eexists. split; [reflexivity|]. split; [|done].
      eexists _, _. repeat split; try eassumption; try done; try lia.
      * match goal with H : require_room_state _ _ = true |- _ =>
          unfold require_room_state in H; apply bool_decide_eq_true in H;
          by apply list_elem_of_singleton in H end.
      * simpl. lia.
      * simpl. lia.
      * intros b Hb Hkey. unfold answer_key in Hkey. simpl in Hkey.
        injection Hkey as Hk1 Hk2 Hk3.
        match goal with H : existsb ?f (answers (db s)) = false |- _ =>
          assert (existsb f (answers (db s)) = true); [|congruence]
        end.
        apply existsb_exists. exists b. split; [by apply list_elem_of_In|].
        by rewrite !bool_decide_eq_true_2.
  - apply Hsame; [|apply Hle]; unfold watchdog_task.
    + apply for_each_answers. intros. apply finish_question_if_due_answers.
    + apply for_each_answers_seq. intros.
      apply finish_question_if_due_answers_seq.
  - apply Hsame; [|apply Hle]; unfold cleanup_task.
    + apply for_each_answers. intros. apply close_room_answers.
    + apply for_each_answers_seq. intros. apply close_room_answers_seq.
  - apply Hsame; [done | lia].
Qed.

Lemma answers_ok_step a s log :
  Inv2 s log → AnswersOK (db s) →
  AnswersOK (db (res_state (step uuid_str a s))).
Proof.
  intros HI2 [Hids Hbound Hkeys Hrooms Hvalid].
  destruct (step_answers_shape a s) as (extra & Heq & Hseq & Hextra).
  destruct (step_moves uuid_str a s log HI2)
    as (rows' & extra_r & Hreq & Hm & _).
  pose proof (Forall2_Move_ids _ _ Hm) as Hrid.
  assert (Hr' : ∀ x, x ∈ answers (db s) →
            ∃ r, r ∈ rooms (db (res_state (step uuid_str a s)))
                 ∧ r_id r = a_room_id x).
  { intros x Hx. rewrite Hreq.
    apply (room_id_kept (rooms (db s))); [done|]. by apply Hrooms. }
  destruct Hextra as [->|(new & -> & Hst & Hseq')].
  - rewrite app_nil_r in Heq. split.
    + by rewrite Heq.
    + rewrite Heq. eapply Forall_impl; [exact Hbound|]. simpl. lia.
    + by rewrite Heq.
    + intros x Hx. rewrite Heq in Hx. by apply Hr'.
    + by rewrite Heq.
  - destruct Hst as (room & q & Hin & Ho & Hstate & Hroom & Hidx & Hq & Hopt
                     & Hid & Hfresh).
    split.
    + rewrite Heq, map_app. simpl.
      apply NoDup_app. split; [done|]. split; [|apply NoDup_singleton].
      intros x Hx ->%list_elem_of_singleton.
      apply list_elem_of_In, in_map_iff in Hx as (b & Hb & Hbin).
      rewrite list.Forall_forall in Hbound.
      apply list_elem_of_In, Hbound in Hbin. lia.
    + rewrite Heq. apply Forall_app. split.
      * eapply Forall_impl; [exact Hbound|]. simpl. lia.
      * constructor; [lia | constructor].
    + rewrite Heq, map_app. simpl.
      apply NoDup_app. split; [done|]. split; [|apply NoDup_singleton].
      intros x Hx ->%list_elem_of_singleton.
      apply list_elem_of_In, in_map_iff in Hx as (b & Hb & Hbin).
      by eapply Hfresh; [apply list_elem_of_In|].
    + intros x Hx. rewrite Heq in Hx.
      apply elem_of_app in Hx as [Hx| ->%list_elem_of_singleton];
        [by apply Hr'|].
      rewrite Hreq, Hroom. apply (room_id_kept (rooms (db s))); [done|].
      by exists room.
    + rewrite Heq. apply Forall_app. split; [done|].
      constructor; [by exists q | constructor].
Qed.

Lemma reachable_answers_ok s log :
  reachable uuid_str s log → AnswersOK (db s).
Proof.
  induction 1 as [|s log a Hr IH].
  - split; simpl; try constructor. by intros x ?%elem_of_nil.
  - eapply answers_ok_step; [by apply (reachable_inv2 uuid_str) | done].
Qed.

(** X22.  In every state the server reaches, the table of answers is
    well formed: a player has at most one answer to a question of a room;
    ids differ and were given by the sequence; every answer names a room
    that exists, a question that exists and an option that this question
    has. *)
Theorem answers_table_well_formed (s : State) (log : list Emit) :
  reachable uuid_str s log →
  NoDup (map answer_key (answers (db s)))
  ∧ NoDup (map a_id (answers (db s)))
  ∧ Forall (λ a, a_id a ≤ answers_seq (db s)) (answers (db s))
  ∧ (∀ a, a ∈ answers (db s) →
          ∃ r, r ∈ rooms (db s) ∧ r_id r = a_room_id a)
  ∧ Forall
      (λ a, ∃ q, question_at (a_question_index a) = Some q
                 ∧ 0 ≤ a_option_index a < Z.of_nat (length (q_options q)))
      (answers (db s)).
Proof. intros []%reachable_answers_ok. by repeat split. Qed.

End AnswersTable.

(** ** One award for each player *)

Lemma gained_none correct duration e room_id l p :
  (∀ a, a ∈ l → a_player_token a ≠ p_player_token p) →
  gained correct duration e room_id l p = 0.
Proof.
  induction l as [|a l IH]; intros H; simpl; [done|].
  rewrite IH by (intros b Hb; apply H; by right).
  rewrite (bool_decide_eq_false_2 (p_player_token p = a_player_token a)).
  - by rewrite andb_false_r.
  - intros Heq. by apply (H a); [left|].
Qed.

Lemma gained_unique correct duration e room_id l p :
  NoDup (map a_player_token l) →
  gained correct duration e room_id l p = earned correct duration e room_id l p.
Proof.
  unfold earned, answer_of.
  induction l as [|a l IH]; intros Hnd; simpl.
  - by destruct (bool_decide _).
  - apply NoDup_cons in Hnd as [Hnotin Hnd].
    fold (gained correct duration e room_id l p). rewrite IH by done.
    destruct (bool_decide (p_room_id p = room_id)) eqn:Er; simpl; [|done].
    destruct (decide (a_player_token a = p_player_token p)) as [Heq|Hne].
    + rewrite !bool_decide_eq_true_2 by done.
      rewrite find_none_all; [lia|].
      intros b Hb. apply bool_decide_eq_false. intros Hb'.
      apply Hnotin. rewrite Heq, <- Hb'.
      apply list_elem_of_In, in_map. by apply list_elem_of_In.
    + rewrite !bool_decide_eq_false_2 by done. lia.
Qed.

Lemma answers_for_tokens room_id q_index d :
  NoDup (map answer_key (answers d)) →
  NoDup (map a_player_token (answers_for room_id q_index d)).
Proof.
  unfold answers_for. induction (answers d) as [|a l IH]; simpl; [constructor|].
  intros [Hnotin Hnd]%NoDup_cons.
  destruct (bool_decide (a_room_id a = room_id)
            && bool_decide (a_question_index a = q_index)) eqn:E; simpl;
    [|by apply IH].
  apply NoDup_cons. split; [|by apply IH].
  intros Hin. apply Hnotin.
  apply list_elem_of_In, in_map_iff in Hin as (b & Htok & Hb).
  apply filter_In in Hb as [Hb Hc]. bool_facts.
  apply list_elem_of_In, in_map_iff. exists b. split; [|done].
  unfold answer_key. congruence.
Qed.

Section Awards.

Variable uuid_str : string → option string.

(** X23.  In every state the server reaches, the finalization of a
    question adds to the score of each player of the room the points of
    that player's own answer to the question, once, and nothing when the
    player gave none; the score of a player of another room stays. *)
Theorem one_award_per_player (s : State) (log : list Emit) (pin : string)
    (now : Z) (locked : Room) (q : Question) (e : Z) :
  reachable uuid_str s log →
  question_at (r_current_question_index locked) = Some q →
  r_question_ends_at locked = Some e →
  let l := answers_for (r_id locked) (r_current_question_index locked) (db s) in
  map p_score (players (db (res_state (finish_locked pin now locked s))))
  = map (λ p, p_score p
              + earned (q_correct_index q) (q_duration q) e (r_id locked) l p)
      (players (db s)).
Proof.
  intros HI%reachable_answers_ok Hq He l. subst l.
  unfold finish_locked. rewrite Hq, He.
  rewrite score_answers_players. simpl.
  rewrite map_map. apply map_ext. intros p.
  rewrite awards_score. f_equal. apply gained_unique.
  apply answers_for_tokens, HI.
Qed.

(** ** Answers that are let through *)

(** X24.  [submit_answer] stores the answer of a caller that is not rate
    limited when the connection is registered as a player with that pin
    and token, the token is a UUID, the room is open and in QUESTION, the
    option is one that the current question has, and the process clock
    is not past the deadline: the row goes in when the player has no
    answer to this question yet; when the player has one, the table stays
    as it is, and the first answer stands.  Nothing is sent either way. *)
Theorem submit_answer_accepts (sid : string) (t : Q) (utc now : Z)
    (pin tok : string) (option_index : Z) (s : State) (room : Room)
    (q : Question) (e : Z) (player_token : string) :
  fst (is_rate_limited ("answer:" +:+ sid) ANSWER_RATE_LIMIT
         ANSWER_RATE_WINDOW t (rate_limits s)) = false →
  get_room_by_pin pin (db s) = Some room → r_state room = QUESTION →
  socket_index s !! sid
  = Some {| m_pin := pin; m_role := RolePlayer; m_token := tok |} →
  uuid_str tok = Some player_token →
  question_at (r_current_question_index room) = Some q →
  0 ≤ option_index < Z.of_nat (length (q_options q)) →
  r_question_ends_at room = Some e → utc ≤ e →
  let r := submit_answer uuid_str sid t utc now
             {| ad_pin := Some pin; ad_option := Some (Some option_index);
                ad_player_token := Some tok |} s in
  let key := (r_id room, player_token, r_current_question_index room) in
  res_out r = [] ∧ res_exn r = None
  ∧ ((∀ b, b ∈ answers (db s) → answer_key b ≠ key) →
     answers (db (res_state r))
     = answers (db s)
       ++ [ {| a_id := answers_seq (db s) + 1; a_room_id := r_id room;
               a_player_token := player_token;
               a_question_index := r_current_question_index room;
               a_option_index := option_index; a_answered_at := now |} ])
  ∧ ((∃ b, b ∈ answers (db s) ∧ answer_key b = key) →
     answers (db (res_state r)) = answers (db s)).
Proof.
  intros Hlim Hroom Hst Hm Huuid Hq Hopt He Hutc r key. subst r key.
  unfold submit_answer.
  destruct (is_rate_limited _ _ _ _ _) as [limited rl]. simpl in Hlim.
  subst limited. simpl_res. cbn [ad_pin ad_option ad_player_token].
  rewrite Hroom. unfold require_room_state. rewrite Hst.
  rewrite bool_decide_eq_true_2 by (by apply list_elem_of_singleton).
  cbn [negb]. rewrite Hm. cbn [m_role m_pin m_token].
  rewrite !bool_decide_eq_true_2 by done. cbn [negb orb].
  rewrite Huuid, Hq.
  rewrite (proj2 (Z.leb_le 0 option_index)),
    (proj2 (Z.ltb_lt option_index _)) by lia.
  cbn [andb negb]. rewrite He.
  rewrite (proj2 (Z.ltb_ge e utc)) by lia. simpl_res.
  split; [done|]. split; [done|].
  unfold touch_room_activity, insert_answer. simpl. split.
  - intros Hfresh. destruct (existsb _ _) eqn:Eex; [|done]. exfalso.
    apply existsb_exists in Eex as (b & Hb & Hc). bool_facts.
    apply (Hfresh b); [by apply list_elem_of_In|].
    unfold answer_key. congruence.
  - intros (b & Hb & Hkey). unfold answer_key in Hkey.
    injection Hkey as H1 H2 H3.
    assert (existsb
              (λ a, bool_decide (a_room_id a = r_id room)
                    && bool_decide (a_player_token a = player_token)
                    && bool_decide
                         (a_question_index a = r_current_question_index room))
              (answers (db s)) = true) as ->; [|done].
    apply existsb_exists. exists b. split; [by apply list_elem_of_In|].
    by rewrite !bool_decide_eq_true_2.
Qed.

(** ** After a restart *)

(** X25.  A restart of the process leaves the store as it was and
    forgets every connection: until its client reconnects, a host action
    over any connection is refused with an [error] event and changes
    nothing, and an answer over any connection is dropped and no row is
    stored. *)
Theorem restart_requires_reconnect (s : State) :
  let s' := res_state (startup s) in
  db s' = db s ∧ socket_index s' = ∅ ∧ res_out (startup s) = []
  ∧ (∀ sid now data,
       ∃ message,
         start_game sid now data s' = done s' [(ToSid sid, EvError message)])
  ∧ (∀ sid now data,
       ∃ message,
         next_question sid now data s' = done s' [(ToSid sid, EvError message)])
  ∧ (∀ sid t utc now data,
       answers (db (res_state (submit_answer uuid_str sid t utc now data s')))
       = answers (db s)
       ∧ res_out (submit_answer uuid_str sid t utc now data s') = []).
Proof.
  intros s'. subst s'. simpl_res.
  assert (Hv : ∀ sid data, ∃ message,
            verify_host_and_get_room sid data (res_state (startup s))
            = inr message).
  { intros sid data. unfold verify_host_and_get_room.
    repeat (split_match; try (by eexists)). }
  do 3 (split; [done|]). split; [|split].
  - intros sid now data. destruct (Hv sid data) as [m Hm].
    exists m. unfold start_game. by rewrite Hm.
  - intros sid now data. destruct (Hv sid data) as [m Hm].
    exists m. unfold next_question. by rewrite Hm.
  - intros sid t utc now data. unfold submit_answer.
    destruct (is_rate_limited _ _ _ _ _) as [limited rl].
    repeat (split_match; simpl_res; try done).
Qed.

End Awards.

(** ** The buckets of the rate limiter *)

Lemma is_rate_limited_other key limit window now rl k :
  k ≠ key →
  snd (is_rate_limited key limit window now rl) !! k = rl !! k.
Proof.
  intros Hne. unfold is_rate_limited.
  destruct (limit <=? _); simpl; by rewrite lookup_insert_ne.
Qed.

Lemma is_rate_limited_bound key limit window now rl n :
  0 ≤ n → limit ≤ n →
  (∀ k b, rl !! k = Some b → Z.of_nat (length b) ≤ n) →
  ∀ k b, snd (is_rate_limited key limit window now rl) !! k = Some b →
         Z.of_nat (length b) ≤ n.
Proof.
  intros Hn Hl Hrl k b. unfold is_rate_limited.
  destruct (decide (k = key)) as [->|Hne].
  - destruct (limit <=? _) eqn:E; simpl; rewrite lookup_insert_eq;
      intros [= <-].
    + destruct (rl !! key) as [b0|] eqn:Eb; simpl; [|lia].
      pose proof (length_filter_le (in_window now window) b0).
      specialize (Hrl key b0 Eb). lia.
    + rewrite length_app. simpl. apply Z.leb_gt in E. lia.
  - destruct (limit <=? _); simpl; rewrite lookup_insert_ne by done;
      apply Hrl.
Qed.

Lemma start_question_rate_limits pin now s :
  rate_limits (res_state (start_question pin now s)) = rate_limits s.
Proof. unfold start_question. by repeat (split_match; simpl_res). Qed.

Lemma finish_question_if_due_rate_limits pin utc now s :
  rate_limits (res_state (finish_question_if_due pin utc now s))
  = rate_limits s.
Proof.
  unfold finish_question_if_due, finish_commit, finalize_lock, finish_locked.
  by repeat (split_match; simpl_res).
Qed.

Lemma close_room_rate_limits pin reason now s :
  rate_limits (res_state (close_room pin reason now s)) = rate_limits s.
Proof. unfold close_room. by destruct (get_room_by_pin _ _). Qed.

Lemma for_each_rate_limits {A} (f : A → State → Result) (l : list A) s :
  (∀ x s, rate_limits (res_state (f x s)) = rate_limits s) →
  rate_limits (res_state (for_each f l s)) = rate_limits s.
Proof.
  intros Hf. revert s. induction l as [|x l IH]; intros s; simpl; [done|].
  destruct (res_exn (f x s)); [apply Hf|]. simpl. by rewrite IH, Hf.
Qed.

Section Buckets.

Variable uuid_str : string → option string.

(** What one step does to the buckets: nothing, or one call of the
    limiter on the caller's key; a restart empties the table. *)
Lemma step_rate_limits a s :
  rate_limits (res_state (step uuid_str a s))
  = match a with
    | CreateRoom sid t _ _ _ =>
        snd (is_rate_limited ("create:" +:+ sid) CREATE_ROOM_LIMIT
               CREATE_ROOM_WINDOW t (rate_limits s))
    | JoinGame sid t _ _ _ =>
        snd (is_rate_limited ("join:" +:+ sid) JOIN_RATE_LIMIT
               JOIN_RATE_WINDOW t (rate_limits s))
    | SubmitAnswer sid t _ _ _ =>
        snd (is_rate_limited ("answer:" +:+ sid) ANSWER_RATE_LIMIT
               ANSWER_RATE_WINDOW t (rate_limits s))
    | Restart => ∅
    | _ => rate_limits s
    end.
Proof.
  destruct a; simpl.
  - unfold on_disconnect. by repeat (split_match; simpl_res).
  - unfold create_room. destruct (is_rate_limited _ _ _ _ _) as [limited rl].
    by repeat (split_match; simpl_res).
  - unfold join_game. destruct (is_rate_limited _ _ _ _ _) as [limited rl].
    by repeat (split_match; simpl_res).
  - unfold reconnect_player. by repeat (split_match; simpl_res).
  - unfold reconnect_host. by repeat (split_match; simpl_res).
  - unfold start_game. repeat (split_match; simpl_res); try done.
    by rewrite start_question_rate_limits.
  - unfold next_question. repeat (split_match; simpl_res); try done.
    by rewrite start_question_rate_limits.
  - unfold submit_answer. destruct (is_rate_limited _ _ _ _ _) as [limited rl].
    by repeat (split_match; simpl_res).
  - unfold watchdog_task. apply for_each_rate_limits. intros.
    apply finish_question_if_due_rate_limits.
  - unfold cleanup_task. apply for_each_rate_limits. intros.
    apply close_room_rate_limits.
  - done.
Qed.

(** X26.  A step of the server other than a restart changes no bucket of
    the rate limiter but the one of its caller: [create_room],
    [join_game] and [submit_answer] count the connection they come over,
    under a key of their own, and the other handlers and the background
    passes count no one. *)
Theorem rate_limits_are_per_connection (a : Action) (s : State) (k : string) :
  a ≠ Restart → limited_key a ≠ Some k →
  rate_limits (res_state (step uuid_str a s)) !! k = rate_limits s !! k.
Proof.
  intros Ha Hk. rewrite step_rate_limits.
  destruct a; try done; simpl in Hk;
    apply is_rate_limited_other; congruence.
Qed.

(** X27.  In every state the server reaches, no bucket of the rate
    limiter holds more timestamps than the largest of the three limits. *)
Theorem rate_limit_buckets_bounded (s : State) (log : list Emit)
    (k : string) (bucket : list Q) :
  reachable uuid_str s log →
  rate_limits s !! k = Some bucket →
  Z.of_nat (length bucket) ≤ max_limit.
Proof.
  intros H. revert k bucket. induction H as [|s log a _ IH]; intros k bucket.
  - simpl. by rewrite lookup_empty.
  - rewrite step_rate_limits.
    destruct a; try apply IH;
      try (apply is_rate_limited_bound; [done..|apply IH]).
    by rewrite lookup_empty.
Qed.

End Buckets.

(** ** A whole game *)

Lemma get_room_by_pin_unique s log r :
  Inv s log → r ∈ rooms (db s) → r_closed_at r = None →
  get_room_by_pin (r_pin r) (db s) = Some r.
Proof.
  intros HI Hr Ho.
  destruct (get_room_by_pin_is_Some (r_pin r) (db s) r Hr eq_refl Ho)
    as [r' Hr'].
  rewrite Hr'. f_equal.
  apply get_room_by_pin_some in Hr' as (Hin & Hp & _).
  by eapply (NoDup_map_eq r_pin); [apply HI|..].
Qed.

(** The verification reads the open room with the pin, its token and the
    registry. *)
Lemma verify_host_after sid data s s' room room' :
  verify_host_and_get_room sid data s = inl room →
  get_room_by_pin (r_pin room) (db s') = Some room' →
  r_host_token room' = r_host_token room →
  socket_index s' = socket_index s →
  verify_host_and_get_room sid data s' = inl room'.
Proof.
  intros Hv Hroom' Htok Hsock.
  pose proof Hv as (pin & tok & meta & Hp & Ht & Hr & Hrt & Hm & Hrole & Hmp)
    %verify_host_inl.
  pose proof Hr as (_ & Hpin & _)%get_room_by_pin_some.
  unfold verify_host_and_get_room. rewrite Hp, Ht in *.
  unfold verify_host_and_get_room in Hv. rewrite Hp, Ht in Hv.
  destruct (Py.falsy (Some pin) || Py.falsy (Some tok)); [done|].
  cbn [Py.or_empty default from_option id] in *.
  rewrite <- Hpin, Hroom', Htok, Hrt, Hsock, Hm.
  rewrite !bool_decide_eq_true_2 by (done || congruence). done.
Qed.

Section WholeGame.

Variable uuid_str : string → option string.

(** What a pass of the watchdog does to a room in QUESTION whose
    deadline is before both clocks. *)
Lemma watchdog_finalizes_room utc now s log x e :
  Inv s log → x ∈ rooms (db s) → r_closed_at x = None →
  r_state x = QUESTION → r_question_ends_at x = Some e →
  e < now → e < utc →
  let r := watchdog_task utc now s in
  get_room_by_pin (r_pin x) (db (res_state r)) = Some (set_results now x)
  ∧ socket_index (res_state r) = socket_index s
  ∧ ToRoom (r_pin x) ∈ map fst (res_out r)
  ∧ Forall (λ ev, is_question_results (snd ev) = true) (res_out r).
Proof.
  intros HI Hx Ho Hst He Hnow Hutc r. subst r.
  pose proof (watchdog_task_preserves utc now s log HI) as HI'.
  destruct (watchdog_task_eq utc now s log HI)
    as (Hr & _ & _ & Hs & _ & _ & Hout & Hall).
  assert (Hc : due now x && past_deadline utc x = true).
  { unfold due, past_deadline, is_open. rewrite He, Ho, Hst. simpl.
    apply andb_true_iff. split; lia. }
  assert (Hin : set_results now x ∈ rooms (db (res_state (watchdog_task utc now s)))).
  { rewrite Hr.
    pose proof (elem_of_sql_update_2
      (λ x, due now x && past_deadline utc x) (set_results now) _ _ Hx) as H.
    cbv beta in H. by rewrite Hc in H. }
  split; [|split; [done|split; [|done]]].
  - by apply (get_room_by_pin_unique _ _ (set_results now x) HI').
  - rewrite Hout. apply list_elem_of_In, in_map_iff. exists x.
    split; [done|]. apply filter_In. split; [by apply list_elem_of_In|done].
Qed.

(** X28.  A game of the two questions runs to its end.  From any state
    the server reaches, when the verified host of a room in LOBBY starts
    the game, the watchdog passes after the deadline of the first
    question, the host asks for the next question, the watchdog passes
    after the deadline of the second, and the host asks again: the room
    is then closed and FINISHED at index 1, it is no longer found under
    its pin, and it has been sent, in this order, [question_started] for
    the index 0, a [question_results], [question_started] for the index
    1, a [question_results], and [game_finished] with its leaderboard. *)
Theorem game_runs_to_the_end (s : State) (log : list Emit) (sid : string)
    (data : HostData) (room : Room) (t0 u1 t1 t2 u3 t3 t4 : Z) :
  reachable uuid_str s log →
  verify_host_and_get_room sid data s = inl room →
  r_state room = LOBBY →
  t0 + seconds 15 < t1 → t0 + seconds 15 < u1 →
  t2 + seconds 15 < t3 → t2 + seconds 15 < u3 →
  let end_ :=
    run uuid_str
      [ StartGame sid t0 data; WatchdogTick u1 t1; NextQuestion sid t2 data;
        WatchdogTick u3 t3; NextQuestion sid t4 data ] s log in
  ∃ final q0 q1 out1 out3,
    final ∈ rooms (db (fst end_))
    ∧ r_id final = r_id room ∧ r_pin final = r_pin room
    ∧ r_state final = FINISHED ∧ r_closed_at final = Some t4
    ∧ r_current_question_index final = 1
    ∧ get_room_by_pin (r_pin room) (db (fst end_)) = None
    ∧ QUESTIONS = [q0; q1]
    ∧ snd end_
      = log
        ++ [(ToRoom (r_pin room),
             EvQuestionStarted 0 (q_text q0) (q_options q0)
               (Py.timestamp (t0 + seconds (q_duration q0))))]
        ++ out1
        ++ [(ToRoom (r_pin room),
             EvQuestionStarted 1 (q_text q1) (q_options q1)
               (Py.timestamp (t2 + seconds (q_duration q1))))]
        ++ out3
        ++ [(ToRoom (r_pin room),
             EvGameFinished
               (leaderboard_for_room_id (r_id room) (db (fst end_))))]
    ∧ ToRoom (r_pin room) ∈ map fst out1
    ∧ Forall (λ ev, is_question_results (snd ev) = true) out1
    ∧ ToRoom (r_pin room) ∈ map fst out3
    ∧ Forall (λ ev, is_question_results (snd ev) = true) out3.
Proof.
  intros Hreach Hv Hst H1 H1' H3 H3' end_. subst end_.
  cbn [run].
  (* the host starts the game *)
  destruct (start_game_eq sid t0 data s room Hv Hst)
    as (q0 & Hq0 & Heq0 & Hroom1 & _).
  assert (q0 = {| q_text := "Скільки буде 2 + 2 ?";
                  q_options := ["3"; "4"; "5"; "6"];
                  q_correct_index := 1; q_duration := 15 |}) as Hq0v
    by (by injection Hq0 as <-).
  pose proof (reach_step uuid_str s log (StartGame sid t0 data) Hreach)
    as Hreach1.
  cbn [step] in *.
  set (s1 := res_state (start_game sid t0 data s)) in *.
  set (x1 := set_question (q_duration q0) t0 (set_question_index 0 t0 room))
    in *.
  assert (Hv1 : verify_host_and_get_room sid data s1 = inl x1).
  { apply (verify_host_after sid data s s1 room x1); try done.
    subst s1. by rewrite Heq0. }
  pose proof Hroom1 as (Hin1 & _ & Ho1)%get_room_by_pin_some.
  (* the first question runs out *)
  pose proof (reachable_inv uuid_str _ _ Hreach1) as HI1.
  destruct (watchdog_finalizes_room u1 t1 s1 _ x1
              (t0 + seconds (q_duration q0)) HI1 Hin1 Ho1 eq_refl eq_refl)
    as (Hroom2 & Hsock2 & Hto2 & Hall2); [subst q0; simpl; lia..|].
  pose proof (reach_step uuid_str s1 _ (WatchdogTick u1 t1) Hreach1)
    as Hreach2.
  cbn [step] in *.
  set (s2 := res_state (watchdog_task u1 t1 s1)) in *.
  set (x2 := set_results t1 x1) in *.
  assert (Hv2 : verify_host_and_get_room sid data s2 = inl x2)
    by (by apply (verify_host_after sid data s1 s2 x1 x2)).
  (* the host asks for the second question *)
  destruct (next_question_eq sid t2 data s2 x2 Hv2 eq_refl) as [Hnext2 _].
  destruct (Hnext2 {| q_text := "Столиця України?";
                      q_options := ["Львів"; "Харків"; "Київ"; "Одеса"];
                      q_correct_index := 2; q_duration := 15 |} eq_refl)
    as [Heq3 Hroom3].
  pose proof (reach_step uuid_str s2 _ (NextQuestion sid t2 data) Hreach2)
    as Hreach3.
  cbn [step] in *.
  set (s3 := res_state (next_question sid t2 data s2)) in *.
  match type of Hroom3 with _ = Some ?x => set (x3 := x) in * end.
  assert (Hv3 : verify_host_and_get_room sid data s3 = inl x3).
  { apply (verify_host_after sid data s2 s3 x2 x3); try done.
    subst s3. by rewrite Heq3. }
  pose proof Hroom3 as (Hin3 & _ & Ho3)%get_room_by_pin_some.
  (* the second question runs out *)
  pose proof (reachable_inv uuid_str _ _ Hreach3) as HI3.
  destruct (watchdog_finalizes_room u3 t3 s3 _ x3 (t2 + seconds 15)
              HI3 Hin3 Ho3 eq_refl eq_refl)
    as (Hroom4 & Hsock4 & Hto4 & Hall4); [lia..|].
  pose proof (reach_step uuid_str s3 _ (WatchdogTick u3 t3) Hreach3)
    as Hreach4.
  cbn [step] in *.
  set (s4 := res_state (watchdog_task u3 t3 s3)) in *.
  set (x4 := set_results t3 x3) in *.
  assert (Hv4 : verify_host_and_get_room sid data s4 = inl x4)
    by (by apply (verify_host_after sid data s3 s4 x3 x4)).
  (* the host ends the game *)
  destruct (next_question_eq sid t4 data s4 x4 Hv4 eq_refl) as [_ Hend].
  specialize (Hend ltac:(simpl; lia)).
  pose proof (reachable_inv uuid_str _ _ Hreach4) as HI4.
  pose proof Hroom4 as (Hin4 & _ & Ho4)%get_room_by_pin_some.
  exists (set_closed t4 x4), q0,
    {| q_text := "Столиця України?";
       q_options := ["Львів"; "Харків"; "Київ"; "Одеса"];
       q_correct_index := 2; q_duration := 15 |},
    (res_out (watchdog_task u1 t1 s1)), (res_out (watchdog_task u3 t3 s3)).
  rewrite Hend. simpl_res.
  split.
  { unfold update_room. simpl.
    pose proof (elem_of_sql_update_2
      (λ r, bool_decide (r_id r = r_id x4)) (set_closed t4) _ _ Hin4) as H.
    cbv beta in H. by rewrite bool_decide_eq_true_2 in H. }
  do 5 (split; [done|]).
  split. { by apply (closed_room_not_found s4 _ _ x4 t4 HI4). }
  split; [by subst q0|].
  split; [|done].
  fold s1. rewrite Heq0. simpl_res. fold s3. rewrite Heq3. simpl_res.
  rewrite <- !app_assoc. simpl. do 5 f_equal.
Qed.

End WholeGame.

(** ** More examples *)

(** A connection that never registered asks to start the game. *)
Lemma error_replies_change_nothing_witness :
  db (res_state (step uuid_canonical (StartGame "x" 1000000 host_data)
                   (after first_question)))
  = db (after first_question)
  ∧ res_out (step uuid_canonical (StartGame "x" 1000000 host_data)
               (after first_question))
    = [(ToSid "x", EvError "Host socket not registered. Reconnect host.")].
Proof.
  destruct (error_replies_change_nothing uuid_canonical
              (StartGame "x" 1000000 host_data) (after first_question)
              (ToSid "x")
              (EvError "Host socket not registered. Reconnect host."))
    as (H1 & _ & _ & H2 & _).
  - vm_compute. left.
  - reflexivity.
  - by split.
Defined.


(** Alice joins, and comes back over another connection. *)
Lemma joined_player_can_reconnect_witness :
  ∃ room question results,
    get_room_by_pin "123456" (db (after created)) = Some room
    ∧ res_out
        (reconnect_player uuid_canonical "p2" 1000000
           {| pd_pin := Some "123456"; pd_player_token := Some ALICE |}
           (res_state
              (join_game "p" 0%Q 0
                 {| jd_pin := Some "123456"; jd_name := Some "Alice" |}
                 ALICE (after created))))
      = [(ToSid "p2",
          EvReconnected (r_state room) 0 (r_current_question_index room)
            question results)].
Proof.
  apply (joined_player_can_reconnect uuid_canonical "p" 0%Q 0
           {| jd_pin := Some "123456"; jd_name := Some "Alice" |}
           ALICE (after created) "p2" 1000000 "123456").
  - vm_compute. left.
  - reflexivity.
  - discriminate.
  - vm_compute. reflexivity.
Defined.

(** Alice's answer at 5 s is stored: her connection is registered as the
    player she says she is. *)
Lemma submit_answer_binds_identity_witness :
  socket_index (after first_question) !! "p"
  = Some {| m_pin := "123456"; m_role := RolePlayer; m_token := ALICE |}.
Proof.
  destruct (submit_answer_binds_identity uuid_canonical "p" 1%Q 5000000
              5000000 answer_data (after first_question))
    as (pin & room & tok & q & o & pt & Hp & Ht & _ & _ & Hm & _).
  - vm_compute. discriminate.
  - injection Hp as <-. injection Ht as <-. exact Hm.
Defined.

(** The host has been away since 6 s; the sweeper passes at 700 s. *)
Lemma cleanup_closes_abandoned_rooms_witness :
  res_out (cleanup_task 700000000 (after host_away))
  = [(ToRoom "123456", EvRoomClosed "host_timeout")]
  ∧ res_exn (cleanup_task 700000000 (after host_away)) = None.
Proof.
  destruct (cleanup_closes_abandoned_rooms uuid_canonical (after host_away)
              (log_after host_away) 700000000 (after_reachable host_away))
    as (_ & H1 & H2 & _).
  split; [|exact H2]. etransitivity; [exact H1|]. vm_compute. reflexivity.
Defined.

(** The first question is finalized one microsecond after its deadline. *)
Lemma finish_question_if_due_finalizes_witness :
  res_exn (finish_question_if_due "123456" 15000001 15000001
             (after first_question)) = None
  ∧ map r_state
      (rooms (db (res_state
                    (finish_question_if_due "123456" 15000001 15000001
                       (after first_question)))))
    = [RESULTS].
Proof.
  destruct (finish_question_if_due_finalizes uuid_canonical
              (after first_question) (log_after first_question)
              "123456" 15000001 15000001 (after_reachable first_question))
    as (H1 & H2 & _).
  split; [exact H1|]. rewrite H2. vm_compute. reflexivity.
Defined.

(** The watchdog passes one microsecond after the first deadline. *)
Lemma watchdog_finalizes_overdue_witness :
  map fst (res_out (watchdog_task 15000001 15000001 (after first_question)))
  = [ToRoom "123456"]
  ∧ rooms_due 15000001
      (db (res_state (watchdog_task 15000001 15000001 (after first_question))))
    = [].
Proof.
  destruct (watchdog_finalizes_overdue uuid_canonical
              (after first_question) (log_after first_question)
              15000001 15000001 (after_reachable first_question))
    as (_ & _ & H1 & _ & _ & _ & _ & H2).
  split; [|apply H2; lia]. etransitivity; [exact H1|]. vm_compute. reflexivity.
Defined.

(** The host starts the game at time 0. *)
Lemma start_game_starts_first_question_witness :
  res_out (start_game "h" 0 host_data (after opening))
  = [(ToRoom "123456",
      EvQuestionStarted 0 "Скільки буде 2 + 2 ?" ["3"; "4"; "5"; "6"]
        (Py.timestamp 15000000))].
Proof.
  destruct (verify_host_and_get_room "h" host_data (after opening))
    as [room|] eqn:E; [|vm_compute in E; discriminate].
  destruct (start_game_starts_first_question "h" 0 host_data (after opening)
              room E) as (q & Hq & Heq & _).
  - vm_compute in E. injection E as <-. reflexivity.
  - rewrite Heq. vm_compute in E. injection E as <-.
    injection Hq as <-. reflexivity.
Defined.

(** The host asks for the second question at 16 s. *)
Lemma next_question_moves_on_witness :
  res_out (next_question "h" 16000000 host_data (after first_results))
  = [(ToRoom "123456",
      EvQuestionStarted 1 "Столиця України?"
        ["Львів"; "Харків"; "Київ"; "Одеса"] (Py.timestamp 31000000))].
Proof.
  destruct (verify_host_and_get_room "h" host_data (after first_results))
    as [room|] eqn:E; [|vm_compute in E; discriminate].
  destruct (next_question_moves_on "h" 16000000 host_data (after first_results)
              room E) as [H _].
  - vm_compute in E. injection E as <-. reflexivity.
  - vm_compute in E. injection E as <-.
    destruct (H {| q_text := "Столиця України?";
                   q_options := ["Львів"; "Харків"; "Київ"; "Одеса"];
                   q_correct_index := 2; q_duration := 15 |} eq_refl)
      as [Heq _].
    rewrite Heq. reflexivity.
Defined.

(** A host creates a room and starts the game one microsecond later. *)
Lemma created_room_can_start_witness :
  res_out (start_game "h" 1
             {| hd_pin := Some "123456"; hd_host_token := Some HOST |}
             (res_state (create_room "h" 0%Q 0 (λ _, "123456") HOST init)))
  = [(ToRoom "123456",
      EvQuestionStarted 0 "Скільки буде 2 + 2 ?" ["3"; "4"; "5"; "6"]
        (Py.timestamp 15000001))].
Proof.
  destruct (created_room_can_start "h" 0%Q 0 (λ _, "123456") HOST init
              "123456" HOST 1) as (new & q & _ & _ & _ & _ & Hq & H).
  - vm_compute. left.
  - discriminate.
  - discriminate.
  - rewrite H. injection Hq as <-. reflexivity.
Defined.

(** The host comes back over another connection at 7 s. *)
Lemma reconnected_host_is_verified_witness :
  ∃ room,
    verify_host_and_get_room "h2" host_data
      (res_state (reconnect_host uuid_canonical "h2" 7000000 host_data
                    (after host_away)))
    = inl room.
Proof.
  destruct (reconnected_host_is_verified uuid_canonical "h2" 7000000 host_data
              (after host_away) QUESTION 0
              [{| lb_name := "Alice"; lb_score := 0; lb_connected := true |}]
              (Some {| qv_text := "Скільки буде 2 + 2 ?";
                       qv_options := ["3"; "4"; "5"; "6"];
                       qv_ends_at := Py.timestamp 15000000 |})
              None)
    as (pin & room & Hp & Hroom & _ & H).
  - vm_compute. left.
  - injection Hp as <-. vm_compute in Hroom. injection Hroom as <-.
    eexists. apply H. discriminate.
Defined.

(** The step that starts the game. *)
Lemma room_life_cycle_witness :
  ∃ rows' extra,
    rooms (db (res_state (step uuid_canonical (StartGame "h" 0 host_data)
                            (after opening))))
    = rows' ++ extra
    ∧ Forall2 Move (rooms (db (after opening))) rows'
    ∧ Forall new_room extra ∧ (length extra ≤ 1)%nat.
Proof.
  apply (room_life_cycle uuid_canonical (after opening) (log_after opening)
           (StartGame "h" 0 host_data)), after_reachable.
Defined.

Lemma room_rows_well_formed_witness :
  Forall RowOK (rooms (db (after whole_game))).
Proof.
  apply (room_rows_well_formed uuid_canonical (after whole_game)
           (log_after whole_game)), after_reachable.
Defined.

(** Alice comes back when the results of the first question are out. *)
Lemma hydration_by_state_witness :
  ∃ q,
    question_at 0 = Some q
    ∧ Some {| rv_correct_index := 1;
              rv_leaderboard :=
                [{| lb_name := "Alice"; lb_score := 1066;
                    lb_connected := true |}] |}
      = Some {| rv_correct_index := q_correct_index q;
                rv_leaderboard :=
                  leaderboard_for_room_id 1
                    (db (res_state
                           (reconnect_player uuid_canonical "p2" 17000000
                              alice_data
                              (after (first_results
                                      ++ [Disconnect "p" 16000000]))))) |}.
Proof.
  destruct (hydration_by_state uuid_canonical
              (after (first_results ++ [Disconnect "p" 16000000]))
              (log_after (first_results ++ [Disconnect "p" 16000000]))
              "p2" 17000000 alice_data RESULTS 1066 0 None
              (Some {| rv_correct_index := 1;
                       rv_leaderboard :=
                         [{| lb_name := "Alice"; lb_score := 1066;
                             lb_connected := true |}] |}))
    as (pin & room & player & Hp & Hroom & _ & _ & _ & _ & _ & _ & _ & _ & _
        & H).
  - apply after_reachable.
  - vm_compute. left.
  - injection Hp as <-. vm_compute in Hroom. injection Hroom as <-.
    destruct (H eq_refl) as (_ & q & Hq & Hr). by exists q.
Defined.

(** The game in room 123456 is over; Bob tries to join it. *)
Lemma open_room_is_not_finished_witness :
  ∃ message,
    message ≠ "Game finished"
    ∧ res_out (join_game "b" 50%Q 50000000
                 {| jd_pin := Some "123456"; jd_name := Some "Bob" |}
                 BOB (after whole_game))
      = [(ToSid "b", EvJoinError message)].
Proof.
  assert (∃ old rest, rooms (db (after whole_game)) = old :: rest)
    as (old & rest & E) by (vm_compute; by eexists _, _).
  destruct (open_room_is_not_finished uuid_canonical (after whole_game)
              (log_after whole_game) (after_reachable whole_game))
    as (_ & _ & H).
  apply (H "b" 50%Q 50000000
           {| jd_pin := Some "123456"; jd_name := Some "Bob" |} BOB old).
  - rewrite E. by left.
  - vm_compute in E. injection E as <- _. discriminate.
  - vm_compute in E. injection E as <- _. reflexivity.
Defined.

Lemma room_never_overfull_witness :
  player_count 1 (db (after whole_game)) = 1%nat
  ∧ Z.of_nat (player_count 1 (db (after whole_game))) ≤ MAX_PLAYERS_PER_ROOM.
Proof.
  split; [vm_compute; reflexivity|].
  apply (room_never_overfull uuid_canonical (after whole_game)
           (log_after whole_game) 1), after_reachable.
Defined.


Lemma answers_table_well_formed_witness :
  NoDup (map answer_key
           (answers (db (after (first_question ++ [answer_at 5000000;
                                                    answer_at 6000000])))))
  ∧ length (answers (db (after (first_question ++ [answer_at 5000000;
                                                    answer_at 6000000]))))
    = 1%nat.
Proof.
  destruct (answers_table_well_formed uuid_canonical
              (after (first_question ++ [answer_at 5000000; answer_at 6000000]))
              (log_after (first_question
                          ++ [answer_at 5000000; answer_at 6000000]))
              (after_reachable _)) as (H & _).
  split; [exact H | vm_compute; reflexivity].
Defined.

(** Alice's one answer, at 12.99 s, earns her 1066 points. *)
Lemma one_award_per_player_witness :
  map p_score
    (players
       (db (res_state
              (finish_locked "123456" 15000001 room_in_question
                 (after (first_question ++ [answer_at 12990000]))))))
  = [1066].
Proof.
  etransitivity.
  - apply (one_award_per_player uuid_canonical
             (after (first_question ++ [answer_at 12990000]))
             (log_after (first_question ++ [answer_at 12990000]))
             "123456" 15000001 room_in_question
             {| q_text := "Скільки буде 2 + 2 ?";
                q_options := ["3"; "4"; "5"; "6"];
                q_correct_index := 1; q_duration := 15 |} 15000000).
    + apply after_reachable.
    + reflexivity.
    + reflexivity.
  - vm_compute. reflexivity.
Defined.

(** Alice answers at 5 s. *)
Lemma submit_answer_accepts_witness :
  res_out (submit_answer uuid_canonical "p" 1%Q 5000000 5000000
             {| ad_pin := Some "123456"; ad_option := Some (Some 1);
                ad_player_token := Some ALICE |} (after first_question))
  = []
  ∧ res_exn (submit_answer uuid_canonical "p" 1%Q 5000000 5000000
               {| ad_pin := Some "123456"; ad_option := Some (Some 1);
                  ad_player_token := Some ALICE |} (after first_question))
    = None.
Proof.
  destruct (submit_answer_accepts uuid_canonical "p" 1%Q 5000000 5000000
              "123456" ALICE 1 (after first_question) room_in_question
              {| q_text := "Скільки буде 2 + 2 ?";
                 q_options := ["3"; "4"; "5"; "6"];
                 q_correct_index := 1; q_duration := 15 |} 15000000 ALICE)
    as (H1 & H2 & _).
  - vm_compute. reflexivity.
  - vm_compute. reflexivity.
  - reflexivity.
  - vm_compute. reflexivity.
  - vm_compute. reflexivity.
  - reflexivity.
  - simpl. lia.
  - reflexivity.
  - lia.
  - by split.
Defined.

(** Alice's join leaves the bucket of another connection alone. *)
Lemma rate_limits_are_per_connection_witness :
  rate_limits
    (res_state
       (step uuid_canonical
          (JoinGame "p" 0%Q 0
             {| jd_pin := Some "123456"; jd_name := Some "Alice" |} ALICE)
          (after created)))
  !! "create:h"
  = rate_limits (after created) !! "create:h".
Proof.
  apply (rate_limits_are_per_connection uuid_canonical
           (JoinGame "p" 0%Q 0
              {| jd_pin := Some "123456"; jd_name := Some "Alice" |} ALICE)
           (after created) "create:h").
  - discriminate.
  - discriminate.
Defined.

Lemma rate_limit_buckets_bounded_witness :
  rate_limits (after opening) !! "join:p" = Some [0%Q]
  ∧ Z.of_nat (length [0%Q]) ≤ max_limit.
Proof.
  assert (H : rate_limits (after opening) !! "join:p" = Some [0%Q])
    by (vm_compute; reflexivity).
  split; [exact H|].
  exact (rate_limit_buckets_bounded uuid_canonical (after opening)
           (log_after opening) "join:p" [0%Q] (after_reachable opening) H).
Defined.

(** The game of the session, from the lobby to its end at 33 s. *)
Lemma game_runs_to_the_end_witness :
  ∃ final,
    final
    ∈ rooms
        (db (fst (run uuid_canonical
                    [ StartGame "h" 0 host_data;
                      WatchdogTick 15000001 15000001;
                      NextQuestion "h" 16000000 host_data;
                      WatchdogTick 32000000 32000000;
                      NextQuestion "h" 33000000 host_data ]
                    (after opening) (log_after opening))))
    ∧ r_state final = FINISHED ∧ r_closed_at final = Some 33000000.
Proof.
  destruct (verify_host_and_get_room "h" host_data (after opening))
    as [room|] eqn:E; [|vm_compute in E; discriminate].
  destruct (game_runs_to_the_end uuid_canonical (after opening)
              (log_after opening) "h" host_data room
              0 15000001 15000001 16000000 32000000 32000000 33000000)
    as (final & q0 & q1 & o1 & o3 & H1 & _ & _ & H2 & H3 & _).
  - apply after_reachable.
  - exact E.
  - vm_compute in E. injection E as <-. reflexivity.
  - vm_compute. reflexivity.
  - vm_compute. reflexivity.
  - vm_compute. reflexivity.
  - vm_compute. reflexivity.
  - by exists final.
Defined.

(** The first room of the server. *)
Lemma create_room_pin_fresh_witness :
  ∃ new,
    rooms (db (res_state (create_room "h" 0%Q 0 (λ _, "123456") HOST init)))
    = rooms (db init) ++ [new]
    ∧ r_pin new = "123456" ∧ r_state new = LOBBY
    ∧ r_current_question_index new = -1 ∧ r_closed_at new = None.
Proof.
  destruct (create_room_pin_fresh "h" 0%Q 0 (λ _, "123456") HOST init
              "123456" HOST) as [_ H].
  - vm_compute. left.
  - exact H.
Defined.

(** Every one of the twenty draws is the pin of the open room. *)
Lemma create_room_exhausted_witness :
  res_exn (create_room "h2" 100%Q 1000000 (λ _, "123456") BOB (after opening))
  = Some (RuntimeError "Failed to generate unique PIN")
  ∧ db (res_state (create_room "h2" 100%Q 1000000 (λ _, "123456") BOB
                     (after opening)))
    = db (after opening).
Proof.
  apply (create_room_exhausted "h2" 100%Q 1000000 (λ _, "123456") BOB
           (after opening)).
  - vm_compute. reflexivity.
  - intros k _. vm_compute. by eexists.
Defined.
